(** * Figma-To token core: write path, safety gate, composite styles, read path

    A shallow embedding of the token mapping core of Figma-To, under
    [src/adapters/output/figma/]: the write path ([transformer.ts]), the
    report builder ([report.ts]), the composite-style transformer
    ([styles-transformer.ts]), and the source-safety gate and the read-path
    parser (the [safety] and [parser] modules, both found in [adapter.ts]),
    together with the properties its specification states about it.

    Conventions of the embedding.
    - A JavaScript [number] is a binary64 value; it is kept as a real
      number ([R]), which is exact wherever a number is only stored, compared
      with nothing and passed on.  Where the source computes with numbers
      ([* 1000], [* 100], the gradient handles) the definitions carry the
      real-number reading of the expression, and no property of this file
      depends on the value such a computation returns.  The synthetic-id
      counter, which only ever holds small integers, is a [nat] rendered in
      decimal by [pretty].
    - A JavaScript string is kept as a [string] of bytes.  [toLowerCase] and
      the white-space class are the restrictions of
      [String.prototype.toLowerCase] and of [\s] to ASCII; a property that
      depends on them is stated for strings of ASCII characters
      ([asciiOnly]).
    - A JavaScript object used as an ordered map (a token group) is an
      association list in [Object.entries] order; objects only looked up by
      key ([collection.tokens], [collectionMapping], the [Map] of mode ids)
      are [gmap]s.
    - [undefined]-able fields are [option]s; a function that can [throw]
      returns a sum whose left side is the error.
    - Mutation of the request body, the report and the id counter is
      explicit state passing. *)

From Stdlib Require Import Reals Lra.
From stdpp Require Import base strings list gmap pretty.

Set Warnings "-register-all".

Local Open Scope string_scope.
Local Open Scope list_scope.

(* ===================================================================== *)
(** ** JavaScript helpers *)
(* ===================================================================== *)

Definition number : Type := R.
Bind Scope R_scope with number.

(** [Array.prototype.join]. *)
Definition join (sep : string) (l : list string) : string := String.concat sep l.

(** [String.prototype.startsWith]. *)
Definition startsWith (s p : string) : bool := String.prefix p s.

(** [l[0] || fallback] on an array of strings: the first entry unless it is
    missing or empty. *)
Definition firstOr (l : list string) (fallback : string) : string :=
  match l with
  | [] => fallback
  | x :: _ => if decide (x = EmptyString) then fallback else x
  end.

(** Truthiness of an optional string: [undefined] and the empty string are
    falsy. *)
Definition truthy (s : option string) : bool :=
  match s with
  | None => false
  | Some x => negb (bool_decide (x = EmptyString))
  end.

(** [String.prototype.toLowerCase] on strings of ASCII characters: the
    letters [A] to [Z] are lowered and every other byte is kept.  On other
    strings the host also lowers capitals outside ASCII, which this function
    leaves as they are. *)
Definition lowerAscii (c : Ascii.ascii) : Ascii.ascii :=
  let n := Ascii.nat_of_ascii c in
  if (65 <=? n)%nat && (n <=? 90)%nat then Ascii.ascii_of_nat (n + 32) else c.

Fixpoint toLowerCase (s : string) : string :=
  match s with
  | EmptyString => EmptyString
  | String c rest => String (lowerAscii c) (toLowerCase rest)
  end.

(** Own-property lookup in an object kept as an association list. *)
Fixpoint lookupKey {A : Type} (key : string) (obj : list (string * A)) : option A :=
  match obj with
  | [] => None
  | (k, v) :: rest => if decide (k = key) then Some v else lookupKey key rest
  end.

(* ===================================================================== *)
(** ** Token schema ([schema/tokens.ts]) *)
(* ===================================================================== *)

(** Modelled from the spec: the declarations of [schema/tokens.ts] are not
    part of the sources at hand; the types of this section follow section 3
    of the specification and the fields the adapters read.  The kinds are
    the ones the adapter's two tables name; [Tother] stands for any further
    kind of the closed set, [tag] being none of the names above. *)
Inductive TokenType : Type :=
  | Tcolor | Tdimension | Tnumber | Tstring | Tboolean
  | TfontFamily | TfontWeight | Tduration
  | Ttypography | Tshadow | Tborder | Tgradient
  | TcubicBezier | Ttransition | Tanimation | Tkeyframes
  | Tother (tag : string).

#[global] Instance TokenType_eq_dec : EqDecision TokenType.
Proof. solve_decision. Defined.

(** The string a kind is written as (what a template literal prints). *)
Definition typeName (t : TokenType) : string :=
  match t with
  | Tcolor => "color" | Tdimension => "dimension" | Tnumber => "number"
  | Tstring => "string" | Tboolean => "boolean" | TfontFamily => "fontFamily"
  | TfontWeight => "fontWeight" | Tduration => "duration"
  | Ttypography => "typography" | Tshadow => "shadow" | Tborder => "border"
  | Tgradient => "gradient" | TcubicBezier => "cubicBezier"
  | Ttransition => "transition" | Tanimation => "animation"
  | Tkeyframes => "keyframes" | Tother tag => tag
  end.

Record ColorValue : Type := mkColor
  { color_r : number; color_g : number; color_b : number; color_a : number }.

Record DimensionValue : Type := mkDimension
  { dim_value : number; dim_unit : string }.

Record DurationValue : Type := mkDuration
  { dur_value : number; dur_unit : string }.

Inductive TextTransform : Type :=
  | tt_none | tt_uppercase | tt_lowercase | tt_capitalize.

Record TypographyValue : Type := mkTypography
  { typo_fontFamily : list string;
    typo_fontSize : DimensionValue;
    typo_fontWeight : number + string;
    typo_lineHeight : option (number + DimensionValue);
    typo_letterSpacing : option DimensionValue;
    typo_textTransform : option TextTransform }.

Record ShadowValue : Type := mkShadow
  { shadow_offsetX : DimensionValue;
    shadow_offsetY : DimensionValue;
    shadow_blur : DimensionValue;
    shadow_spread : option DimensionValue;
    shadow_color : ColorValue;
    shadow_inset : option bool }.

Inductive GradientType : Type := linear | radial | conic.

Record GradientStop : Type := mkStop
  { stop_color : ColorValue; stop_position : number }.

Record GradientValue : Type := mkGradient
  { gradient_type : GradientType;
    gradient_angle : option number;
    gradient_stops : list GradientStop }.

(** [TokenReference]: [{ $ref: "{a.b.c}" }]. *)
Record TokenReference : Type := mkRef { ref : string }.

(** The value a token of a given kind carries (the tagged union of section 3
    of the specification).  Kinds this adapter never looks into keep their
    value as uninterpreted text. *)
Definition TokenValueOf (t : TokenType) : Type :=
  match t with
  | Tcolor => ColorValue
  | Tdimension => DimensionValue
  | Tnumber => number
  | Tstring => string
  | Tboolean => bool
  | TfontFamily => list string
  | TfontWeight => (number + string)%type
  | Tduration => DurationValue
  | Ttypography => TypographyValue
  | Tshadow => (ShadowValue + list ShadowValue)%type
  | Tgradient => GradientValue
  | Tborder | TcubicBezier | Ttransition | Tanimation | Tkeyframes
  | Tother _ => string
  end.

Record CodeSyntax : Type := mkCodeSyntax
  { web : option string; android : option string; ios : option string }.

(** The ['com.figma'] entry of a token's [$extensions]. *)
Record FigmaExtensions : Type := mkFigmaExtensions
  { ext_variableId : string;
    ext_scopes : list string;
    ext_hiddenFromPublishing : bool;
    ext_codeSyntax : option CodeSyntax }.

(** A token: [$type], [$value] (a typed value or a reference),
    [$description], and [$extensions?.['com.figma']]. *)
Record Token : Type := mkToken
  { t_type : TokenType;
    t_value : TokenValueOf t_type + TokenReference;
    t_description : option string;
    t_extensions : option FigmaExtensions }.

(** A token group is an ordered mapping from keys to leaves (objects with a
    string [$type]) or sub-groups (objects without [$type]).  Entries that
    are plain strings or [undefined] only occur under keys with the [$]
    sigil, which every walk below skips by key; keys are own properties,
    each occurring once. *)
Inductive TokenNode : Type :=
  | Leaf (t : Token)
  | Group (children : list (string * TokenNode)).

Definition TokenGroup : Type := list (string * TokenNode).

Record TokenCollection : Type := mkCollection
  { col_name : string;
    col_description : option string;
    modes : list string;
    defaultMode : string;
    tokens : gmap string TokenGroup }.

Record ThemeMeta : Type := mkMeta
  { figmaFileKey : option string }.

Record ThemeFile : Type := mkTheme
  { theme_name : string;
    collections : list TokenCollection;
    meta : option ThemeMeta }.

(* ===================================================================== *)
(** ** Adapter options and report types ([types.ts]) *)
(* ===================================================================== *)

Inductive OperationMode : Type := create_only | update | sync.

Record FigmaOutputAdapterOptions : Type := mkOptions
  { targetFileKey : option string;
    mode : option OperationMode;
    allowSourceOverwrite : option bool;
    collectionMapping : option (gmap string string);
    skipHidden : option bool;
    idPrefix : option string }.

Definition defaultOptions : FigmaOutputAdapterOptions :=
  mkOptions None None None None None None.

Inductive WarningCode : Type :=
  | UNSUPPORTED_TYPE | VALUE_TRUNCATED | UNIT_DISCARDED | COMPOSITE_SKIPPED
  | ALIAS_UNRESOLVED | NAME_COLLISION | SOURCE_MATCH | PLUGIN_NOT_CONNECTED.

#[global] Instance WarningCode_eq_dec : EqDecision WarningCode.
Proof. solve_decision. Defined.

Record TransformationWarning : Type := mkWarning
  { w_code : WarningCode; w_message : string; w_path : option string }.

Record SkippedToken : Type := mkSkipped
  { s_path : string;
    s_reason : string;
    s_originalType : TokenType;
    s_suggestion : option string }.

Record SourceCheckResult : Type := mkSourceCheck
  { sourceFileKey : option string;
    sc_targetFileKey : option string;
    isSameFile : bool;
    overwriteAllowed : bool }.

Record TransformationStats : Type := mkStats
  { collectionsCreated : nat;
    modesCreated : nat;
    variablesCreated : nat;
    valuesSet : nat;
    stat_skipped : nat;
    stat_warnings : nat }.

(** [SourceOverwriteError(sourceFileKey, targetFileKey)]. *)
Record SourceOverwriteError : Type := mkSourceOverwriteError
  { err_sourceFileKey : string; err_targetFileKey : string }.

(* ===================================================================== *)
(** ** Request body ([PostVariablesRequestBody] of the REST API) *)
(* ===================================================================== *)

Inductive Action : Type := CREATE.

Inductive VariableResolvedDataType : Type := BOOLEAN | FLOAT | STRING | COLOR.

(** [RGBA] of the REST API. *)
Record RGBA : Type := mkRGBA
  { rgba_r : number; rgba_g : number; rgba_b : number; rgba_a : number }.

(** [VariableAlias]: [{ type: 'VARIABLE_ALIAS', id }]. *)
Record VariableAlias : Type := mkAlias { alias_id : string }.

(** A mode value: [boolean | number | string | RGBA | VariableAlias]. *)
Inductive VariableValue : Type :=
  | VBool (b : bool)
  | VNum (n : number)
  | VStr (s : string)
  | VRGBA (c : RGBA)
  | VAlias (alias : VariableAlias).

Record VariableCollectionCreate : Type := mkCollectionCreate
  { vcc_action : Action;
    vcc_id : string;
    vcc_name : string;
    initialModeId : string }.

Record VariableModeCreate : Type := mkModeCreate
  { vmc_action : Action;
    vmc_id : string;
    vmc_name : string;
    vmc_variableCollectionId : string }.

Record VariableCreate : Type := mkVariableCreate
  { vc_action : Action;
    vc_id : string;
    vc_name : string;
    vc_variableCollectionId : string;
    resolvedType : VariableResolvedDataType;
    vc_description : option string }.

Record VariableModeValue : Type := mkModeValue
  { variableId : string; modeId : string; mv_value : VariableValue }.

Record PostVariablesRequestBody : Type := mkBody
  { variableCollections : list VariableCollectionCreate;
    variableModes : list VariableModeCreate;
    variables : list VariableCreate;
    variableModeValues : list VariableModeValue }.

(* ===================================================================== *)
(** ** The report builder ([report.ts]) *)
(* ===================================================================== *)

(** [TransformationReportBuilder].

    Modelled from the spec: [addStyle] and the counter it feeds are not
    declared by the [report.ts] at hand; [styleCounts] is the "per-kind style
    counter" of section 4.3, keyed by the kind [addStyle] is called with. *)
Record TransformationReportBuilder : Type := mkReport
  { stats : TransformationStats;
    skipped : list SkippedToken;
    warnings : list TransformationWarning;
    sourceCheck : SourceCheckResult;
    styleCounts : gmap string nat }.

Definition newReport : TransformationReportBuilder :=
  {| stats := mkStats 0 0 0 0 0 0;
     skipped := [];
     warnings := [];
     sourceCheck := mkSourceCheck None None false false;
     styleCounts := ∅ |}.

Definition withStats (f : TransformationStats -> TransformationStats)
    (rep : TransformationReportBuilder) : TransformationReportBuilder :=
  {| stats := f (stats rep);
     skipped := skipped rep;
     warnings := warnings rep;
     sourceCheck := sourceCheck rep;
     styleCounts := styleCounts rep |}.

Definition addCollection : TransformationReportBuilder -> TransformationReportBuilder :=
  withStats (fun s => mkStats (S (collectionsCreated s)) (modesCreated s)
    (variablesCreated s) (valuesSet s) (stat_skipped s) (stat_warnings s)).

Definition addMode : TransformationReportBuilder -> TransformationReportBuilder :=
  withStats (fun s => mkStats (collectionsCreated s) (S (modesCreated s))
    (variablesCreated s) (valuesSet s) (stat_skipped s) (stat_warnings s)).

Definition addVariable : TransformationReportBuilder -> TransformationReportBuilder :=
  withStats (fun s => mkStats (collectionsCreated s) (modesCreated s)
    (S (variablesCreated s)) (valuesSet s) (stat_skipped s) (stat_warnings s)).

Definition addValue : TransformationReportBuilder -> TransformationReportBuilder :=
  withStats (fun s => mkStats (collectionsCreated s) (modesCreated s)
    (variablesCreated s) (S (valuesSet s)) (stat_skipped s) (stat_warnings s)).

Definition addSkipped (path reason : string) (originalType : TokenType)
    (suggestion : option string) (rep : TransformationReportBuilder)
    : TransformationReportBuilder :=
  let s := stats rep in
  {| stats := mkStats (collectionsCreated s) (modesCreated s) (variablesCreated s)
       (valuesSet s) (S (stat_skipped s)) (stat_warnings s);
     skipped := skipped rep ++ [mkSkipped path reason originalType suggestion];
     warnings := warnings rep;
     sourceCheck := sourceCheck rep;
     styleCounts := styleCounts rep |}.

Definition addWarning (code : WarningCode) (message : string) (path : option string)
    (rep : TransformationReportBuilder) : TransformationReportBuilder :=
  let s := stats rep in
  {| stats := mkStats (collectionsCreated s) (modesCreated s) (variablesCreated s)
       (valuesSet s) (stat_skipped s) (S (stat_warnings s));
     skipped := skipped rep;
     warnings := warnings rep ++ [mkWarning code message path];
     sourceCheck := sourceCheck rep;
     styleCounts := styleCounts rep |}.

(** Modelled from the spec: [addStyle(kind)], see [TransformationReportBuilder]. *)
Definition addStyle (kind : string) (rep : TransformationReportBuilder)
    : TransformationReportBuilder :=
  {| stats := stats rep;
     skipped := skipped rep;
     warnings := warnings rep;
     sourceCheck := sourceCheck rep;
     styleCounts := <[kind := S (default 0 (styleCounts rep !! kind))]> (styleCounts rep) |}.

Definition setSourceCheck (source target : option string) (allowed : bool)
    (rep : TransformationReportBuilder) : TransformationReportBuilder :=
  {| stats := stats rep;
     skipped := skipped rep;
     warnings := warnings rep;
     sourceCheck :=
       {| sourceFileKey := source;
          sc_targetFileKey := target;
          isSameFile :=
            match source, target with
            | Some s, Some t => bool_decide (s = t)
            | _, _ => false
            end;
          overwriteAllowed := allowed |};
     styleCounts := styleCounts rep |}.

(* ===================================================================== *)
(** ** Source safety (module [safety], in [adapter.ts]) *)
(* ===================================================================== *)

(** [checkSourceSafety]: [inl] is the thrown [SourceOverwriteError], [inr]
    the returned [SourceCheckResult]. *)
Definition checkSourceSafety (theme : ThemeFile) (options : FigmaOutputAdapterOptions)
    : SourceOverwriteError + SourceCheckResult :=
  let sourceFileKey := meta theme ≫= figmaFileKey in
  let targetFileKey := targetFileKey options in
  let allowOverwrite := default false (allowSourceOverwrite options) in
  let result := mkSourceCheck sourceFileKey targetFileKey false allowOverwrite in
  if negb (truthy sourceFileKey) || negb (truthy targetFileKey) then inr result
  else
    let result :=
      mkSourceCheck sourceFileKey targetFileKey
        (bool_decide (sourceFileKey = targetFileKey)) allowOverwrite in
    if isSameFile result && negb allowOverwrite then
      inl (mkSourceOverwriteError (default EmptyString sourceFileKey)
             (default EmptyString targetFileKey))
    else inr result.

(* ===================================================================== *)
(** ** The write-path transformer ([transformer.ts]) *)
(* ===================================================================== *)

Definition TOKEN_TYPE_TO_FIGMA (t : TokenType) : option VariableResolvedDataType :=
  match t with
  | Tcolor => Some COLOR
  | Tdimension => Some FLOAT
  | Tnumber => Some FLOAT
  | Tstring => Some STRING
  | Tboolean => Some BOOLEAN
  | TfontFamily => Some STRING
  | TfontWeight => Some FLOAT
  | Tduration => Some FLOAT
  | _ => None
  end.

Definition SKIP_TYPES : list TokenType :=
  [Ttypography; Tshadow; Tborder; Tgradient;
   TcubicBezier; Ttransition; Tanimation; Tkeyframes].

(** The template [`${prefix}_${n}`]. *)
Definition tempId (prefix : string) (n : nat) : string :=
  prefix +:+ "_" +:+ pretty n.

(** [generateTempId]: pre-increments the module-level counter. *)
Definition generateTempId (prefix : string) (idCounter : nat) : string * nat :=
  (tempId prefix (S idCounter), S idCounter).

Definition resetIdCounter (idCounter : nat) : nat := 0.

Definition colorToFigmaRGBA (color : ColorValue) : RGBA :=
  {| rgba_r := color_r color;
     rgba_g := color_g color;
     rgba_b := color_b color;
     rgba_a := color_a color |}.

Definition dimensionToNumber (dim : DimensionValue)
    (report : TransformationReportBuilder) (path : string)
    : number * TransformationReportBuilder :=
  let report :=
    if decide (dim_unit dim = "px") then report
    else addWarning UNIT_DISCARDED
           ("Unit '" +:+ dim_unit dim +:+ "' discarded, stored as raw number")
           (Some path) report in
  (dim_value dim, report).

Definition keywords : list (string * number) :=
  [("thin", 100); ("hairline", 100); ("extralight", 200); ("ultralight", 200);
   ("light", 300); ("normal", 400); ("regular", 400); ("medium", 500);
   ("semibold", 600); ("demibold", 600); ("bold", 700); ("extrabold", 800);
   ("ultrabold", 800); ("black", 900); ("heavy", 900)]%R.

Definition fontWeightToNumber (weight : number + string) : number :=
  match weight with
  | inl n => n
  | inr s => default 400%R (lookupKey (toLowerCase s) keywords)
  end.

(** [tokenValueToFigma]: [None] is the [null] result. *)
Definition tokenValueToFigma (token : Token) (report : TransformationReportBuilder)
    (path : string) : option VariableValue * TransformationReportBuilder :=
  match token with
  | mkToken ty (inr _) _ _ =>
      (None,
       addSkipped path "Token references require special handling" ty
         (Some "References will be supported in a future update") report)
  | mkToken Tcolor (inl c) _ _ => (Some (VRGBA (colorToFigmaRGBA c)), report)
  | mkToken Tdimension (inl d) _ _ =>
      let '(n, report) := dimensionToNumber d report path in (Some (VNum n), report)
  | mkToken Tnumber (inl n) _ _ => (Some (VNum n), report)
  | mkToken Tstring (inl s) _ _ => (Some (VStr s), report)
  | mkToken Tboolean (inl b) _ _ => (Some (VBool b), report)
  | mkToken TfontFamily (inl families) _ _ =>
      let report :=
        if decide (1 < length families) then
          addWarning VALUE_TRUNCATED
            ("Font stack truncated to first family: " +:+ default "undefined" (head families))
            (Some path) report
        else report in
      (Some (VStr (firstOr families EmptyString)), report)
  | mkToken TfontWeight (inl w) _ _ => (Some (VNum (fontWeightToNumber w)), report)
  | mkToken Tduration (inl dur) _ _ =>
      (Some (VNum (if decide (dur_unit dur = "s")
                      then (dur_value dur * 1000)%R else dur_value dur)), report)
  | mkToken _ (inl _) _ _ => (None, report)
  end.

Record FlattenedToken : Type := mkFlat
  { ft_path : list string; ft_token : Token }.

(** [flattenTokens], by recursion on the node; the group walk is the inner
    loop over [Object.entries]. *)
Fixpoint flattenNode (value : TokenNode) (currentPath : list string)
    : list FlattenedToken :=
  match value with
  | Leaf token => [mkFlat currentPath token]
  | Group group =>
      (fix entries (l : list (string * TokenNode)) : list FlattenedToken :=
         match l with
         | [] => []
         | (key, value) :: rest =>
             (if startsWith key "$" then []
              else flattenNode value (currentPath ++ [key])) ++ entries rest
         end) group
  end.

Definition flattenTokens (group : TokenGroup) (basePath : list string)
    : list FlattenedToken :=
  flattenNode (Group group) basePath.

(** The state one call mutates: the module-level id counter, the request
    body under construction and the report. *)
Record TransformState : Type := mkState
  { idCounter : nat;
    requestBody : PostVariablesRequestBody;
    report : TransformationReportBuilder }.

Definition pushCollection (c : VariableCollectionCreate) (b : PostVariablesRequestBody)
    : PostVariablesRequestBody :=
  mkBody (variableCollections b ++ [c]) (variableModes b) (variables b)
    (variableModeValues b).

Definition pushMode (m : VariableModeCreate) (b : PostVariablesRequestBody)
    : PostVariablesRequestBody :=
  mkBody (variableCollections b) (variableModes b ++ [m]) (variables b)
    (variableModeValues b).

Definition pushVariable (v : VariableCreate) (b : PostVariablesRequestBody)
    : PostVariablesRequestBody :=
  mkBody (variableCollections b) (variableModes b) (variables b ++ [v])
    (variableModeValues b).

Definition pushModeValue (v : VariableModeValue) (b : PostVariablesRequestBody)
    : PostVariablesRequestBody :=
  mkBody (variableCollections b) (variableModes b) (variables b)
    (variableModeValues b ++ [v]).

(** The navigation loop of the per-mode pass: follow [path] from [current];
    [None] is [undefined].  A leaf has only sigil keys, and no segment of a
    flattened path starts with the sigil, so descending into a leaf ends the
    walk. *)
Fixpoint navigate (current : TokenNode) (path : list string) : option TokenNode :=
  match path with
  | [] => Some current
  | segment :: rest =>
      match current with
      | Group group =>
          match lookupKey segment group with
          | Some next => navigate next rest
          | None => None
          end
      | Leaf _ => None
      end
  end.

(** [modeToken]: the node reached, provided it has a [$type]. *)
Definition findModeToken (modeTokens : TokenGroup) (path : list string) : option Token :=
  match navigate (Group modeTokens) path with
  | Some (Leaf token) => Some token
  | _ => None
  end.

(** Body of the loop "set values for each mode". *)
Definition setModeValue (collection : TokenCollection) (path : list string)
    (variableId : string) (collectionModeIds : gmap string string)
    (st : TransformState) (modeName : string) : TransformState :=
  match tokens collection !! modeName with
  | None => st
  | Some modeTokens =>
      match findModeToken modeTokens path with
      | None => st
      | Some modeToken =>
          if truthy (collectionModeIds !! modeName) then
            let modeId := default EmptyString (collectionModeIds !! modeName) in
            let '(figmaValue, report) :=
              tokenValueToFigma modeToken (report st)
                (col_name collection +:+ "." +:+ modeName +:+ "." +:+ join "." path) in
            match figmaValue with
            | None => mkState (idCounter st) (requestBody st) report
            | Some value =>
                mkState (idCounter st)
                  (pushModeValue (mkModeValue variableId modeId value) (requestBody st))
                  (addValue report)
            end
          else st
      end
  end.

Definition isHidden (token : Token) : bool :=
  match t_extensions token with
  | Some ext => ext_hiddenFromPublishing ext
  | None => false
  end.

(** Body of the loop "create variables". *)
Definition processToken (options : FigmaOutputAdapterOptions) (prefix : string)
    (collection : TokenCollection) (collectionId : string)
    (collectionModeIds : gmap string string)
    (st : TransformState) (ft : FlattenedToken) : TransformState :=
  let path := ft_path ft in
  let token := ft_token ft in
  if bool_decide (t_type token ∈ SKIP_TYPES) then
    mkState (idCounter st) (requestBody st)
      (addSkipped (join "." path)
         ("Token type '" +:+ typeName (t_type token)
            +:+ "' is not supported as a Figma variable")
         (t_type token)
         (Some "Consider using Figma Styles API for composite types")
         (report st))
  else
    match TOKEN_TYPE_TO_FIGMA (t_type token) with
    | None =>
        mkState (idCounter st) (requestBody st)
          (addSkipped (join "." path)
             ("Unknown token type: " +:+ typeName (t_type token))
             (t_type token) None (report st))
    | Some figmaType =>
        if default false (skipHidden options) && isHidden token then st
        else
          let variableName := join "/" path in
          let '(variableId, counter) := generateTempId (prefix +:+ "_var") (idCounter st) in
          let variableCreate :=
            mkVariableCreate CREATE variableId variableName collectionId figmaType
              (t_description token) in
          let st :=
            mkState counter (pushVariable variableCreate (requestBody st))
              (addVariable (report st)) in
          fold_left (setModeValue collection path variableId collectionModeIds)
            (modes collection) st
    end.

(** Body of the loop "create additional modes"; the [Map] of mode ids is
    threaded next to the state. *)
Definition createMode (prefix : string) (collection : TokenCollection)
    (collectionId : string) (acc : gmap string string * TransformState)
    (modeName : string) : gmap string string * TransformState :=
  let '(collectionModeIds, st) := acc in
  if decide (modeName = defaultMode collection) then acc
  else
    let '(modeId, counter) := generateTempId (prefix +:+ "_mode") (idCounter st) in
    (<[modeName := modeId]> collectionModeIds,
     mkState counter
       (pushMode (mkModeCreate CREATE modeId modeName collectionId) (requestBody st))
       (addMode (report st))).

(** Body of the loop "process each collection".  The lookup maps
    [collectionIds], [modeIds] and [variableIds] are written and never read;
    they are left out. *)
Definition processCollection (options : FigmaOutputAdapterOptions) (prefix : string)
    (st : TransformState) (collection : TokenCollection) : TransformState :=
  let collectionName :=
    default (col_name collection)
      (collectionMapping options ≫= fun m => m !! col_name collection) in
  let '(collectionId, counter) := generateTempId (prefix +:+ "_col") (idCounter st) in
  let '(initialMode, counter) := generateTempId (prefix +:+ "_mode") counter in
  let collectionCreate :=
    mkCollectionCreate CREATE collectionId collectionName initialMode in
  let st :=
    mkState counter (pushCollection collectionCreate (requestBody st))
      (addCollection (report st)) in
  let collectionModeIds : gmap string string :=
    <[defaultMode collection := initialMode]> ∅ in
  let '(collectionModeIds, st) :=
    fold_left (createMode prefix collection collectionId) (modes collection)
      (collectionModeIds, st) in
  match tokens collection !! defaultMode collection with
  | None => st
  | Some defaultTokens =>
      fold_left (processToken options prefix collection collectionId collectionModeIds)
        (flattenTokens defaultTokens []) st
  end.

Record TransformResult : Type := mkResult
  { res_requestBody : PostVariablesRequestBody;
    res_report : TransformationReportBuilder }.

Definition emptyBody : PostVariablesRequestBody := mkBody [] [] [] [].

(** [transformToFigmaVariables], run with the module-level counter at
    [idCounter]; returns the result and the counter it leaves behind. *)
Definition transformToFigmaVariables (theme : ThemeFile)
    (options : FigmaOutputAdapterOptions) (counter : nat) : TransformResult * nat :=
  let rep := newReport in
  let prefix :=
    if truthy (idPrefix options) then default EmptyString (idPrefix options) else "temp" in
  let counter := resetIdCounter counter in
  let rep :=
    setSourceCheck (meta theme ≫= figmaFileKey) (targetFileKey options)
      (default false (allowSourceOverwrite options)) rep in
  let st :=
    fold_left (processCollection options prefix) (collections theme)
      (mkState counter emptyBody rep) in
  (mkResult (requestBody st) (report st), idCounter st).

(* ===================================================================== *)
(** ** The composite-style transformer ([styles-transformer.ts]) *)
(* ===================================================================== *)

(** The style descriptors; their declarations are read off the object
    literals the transformer builds. *)
Inductive LengthUnit : Type := PERCENT | PIXELS.

Record FigmaLineHeight : Type := mkLineHeight
  { lh_unit : LengthUnit; lh_value : number }.

Inductive TextCase : Type := ORIGINAL | UPPER | LOWER | TITLE.

Record FigmaTextStyle : Type := mkTextStyle
  { ts_name : string;
    ts_fontFamily : string;
    ts_fontSize : number;
    ts_fontWeight : number;
    ts_description : option string;
    ts_lineHeight : option FigmaLineHeight;
    ts_letterSpacing : option FigmaLineHeight;
    ts_textCase : option TextCase }.

Inductive EffectType : Type := INNER_SHADOW | DROP_SHADOW.

Inductive BlendMode : Type := NORMAL.

Record Vector : Type := mkVector { vec_x : number; vec_y : number }.

Record FigmaEffect : Type := mkEffect
  { eff_type : EffectType;
    eff_visible : bool;
    eff_blendMode : BlendMode;
    eff_color : RGBA;
    eff_offset : Vector;
    eff_radius : number;
    eff_spread : number }.

Record FigmaEffectStyle : Type := mkEffectStyle
  { es_name : string;
    es_effects : list FigmaEffect;
    es_description : option string }.

Inductive PaintType : Type := GRADIENT_LINEAR | GRADIENT_RADIAL | GRADIENT_ANGULAR.

Record FigmaGradientStop : Type := mkFigmaStop
  { fs_color : RGBA; fs_position : number }.

Record FigmaPaint : Type := mkPaint
  { paint_type : PaintType;
    paint_visible : bool;
    paint_blendMode : BlendMode;
    gradientStops : list FigmaGradientStop;
    gradientHandlePositions : list Vector }.

Record FigmaPaintStyle : Type := mkPaintStyle
  { ps_name : string;
    ps_paints : list FigmaPaint;
    ps_description : option string }.

(** [{ action: 'CREATE', style }]. *)
Record StyleParams (S : Type) : Type := mkStyleParams
  { sp_action : Action; sp_style : S }.
Arguments mkStyleParams {S} _ _.
Arguments sp_action {S} _.
Arguments sp_style {S} _.

Record StyleTokenResult : Type := mkStyleResult
  { textStyles : list (StyleParams FigmaTextStyle);
    effectStyles : list (StyleParams FigmaEffectStyle);
    paintStyles : list (StyleParams FigmaPaintStyle) }.

(** [if (description) style.description = description]. *)
Definition keepDescription (description : option string) : option string :=
  if truthy description then description else None.

Definition extractDimensionValue (dim : DimensionValue) : number := dim_value dim.

(** [normalizeFontWeight], the same table as [fontWeightToNumber]. *)
Definition normalizeFontWeight (weight : number + string) : number :=
  match weight with
  | inl n => n
  | inr s => default 400%R (lookupKey (toLowerCase s) keywords)
  end.

Definition textTransformToTextCase (transform : TextTransform) : TextCase :=
  match transform with
  | tt_uppercase => UPPER
  | tt_lowercase => LOWER
  | tt_capitalize => TITLE
  | tt_none => ORIGINAL
  end.

Definition typographyToTextStyle (name : string) (value : TypographyValue)
    (description : option string) : FigmaTextStyle :=
  {| ts_name := name;
     ts_fontFamily := firstOr (typo_fontFamily value) "Inter";
     ts_fontSize := extractDimensionValue (typo_fontSize value);
     ts_fontWeight := normalizeFontWeight (typo_fontWeight value);
     ts_description := keepDescription description;
     ts_lineHeight :=
       match typo_lineHeight value with
       | Some (inl n) => Some (mkLineHeight PERCENT (n * 100)%R)
       | Some (inr d) => Some (mkLineHeight PIXELS (extractDimensionValue d))
       | None => None
       end;
     ts_letterSpacing :=
       match typo_letterSpacing value with
       | Some d => Some (mkLineHeight PIXELS (extractDimensionValue d))
       | None => None
       end;
     ts_textCase := textTransformToTextCase <$> typo_textTransform value |}.

Definition shadowToFigmaEffect (shadow : ShadowValue) : FigmaEffect :=
  {| eff_type := if default false (shadow_inset shadow) then INNER_SHADOW else DROP_SHADOW;
     eff_visible := true;
     eff_blendMode := NORMAL;
     eff_color := colorToFigmaRGBA (shadow_color shadow);
     eff_offset :=
       mkVector (extractDimensionValue (shadow_offsetX shadow))
         (extractDimensionValue (shadow_offsetY shadow));
     eff_radius := extractDimensionValue (shadow_blur shadow);
     eff_spread :=
       match shadow_spread shadow with
       | Some d => extractDimensionValue d
       | None => 0%R
       end |}.

Definition shadowToEffectStyle (name : string) (value : ShadowValue + list ShadowValue)
    (description : option string) : FigmaEffectStyle :=
  let shadows := match value with inl s => [s] | inr l => l end in
  {| es_name := name;
     es_effects := map shadowToFigmaEffect shadows;
     es_description := keepDescription description |}.

Definition gradientTypeToFigma (type : GradientType) : PaintType :=
  match type with
  | linear => GRADIENT_LINEAR
  | radial => GRADIENT_RADIAL
  | conic => GRADIENT_ANGULAR
  end.

(** [gradientToFigmaPaint].  The handle positions are the expression of
    the source read over the reals, with the mathematical cosine and sine.
    The host evaluates it in binary64 with [Math.cos] and [Math.sin], so
    its handles agree with these up to rounding only: at the default angle
    its start handle is [(0.49999999999999994, 0)] where the expression
    over the reals gives [(0.5, 0)].  No property of this file depends on
    the positions. *)
Definition gradientToFigmaPaint (gradient : GradientValue) : FigmaPaint :=
  let gradientStops :=
    map (fun stop => mkFigmaStop (colorToFigmaRGBA (stop_color stop)) (stop_position stop))
      (gradient_stops gradient) in
  let angle := default 180%R (gradient_angle gradient) in
  let radians := ((angle - 90) * (PI / 180))%R in
  let cos := cos radians in
  let sin := sin radians in
  let gradientHandlePositions :=
    [ mkVector (0.5 - cos * 0.5) (0.5 - sin * 0.5);
      mkVector (0.5 + cos * 0.5) (0.5 + sin * 0.5);
      mkVector (0.5 - sin * 0.5) (0.5 + cos * 0.5) ]%R in
  {| paint_type := gradientTypeToFigma (gradient_type gradient);
     paint_visible := true;
     paint_blendMode := NORMAL;
     gradientStops := gradientStops;
     gradientHandlePositions := gradientHandlePositions |}.

Definition gradientToPaintStyle (name : string) (value : GradientValue)
    (description : option string) : FigmaPaintStyle :=
  {| ps_name := name;
     ps_paints := [gradientToFigmaPaint value];
     ps_description := keepDescription description |}.

(** A runtime failure of the JavaScript engine. *)
Inductive JsError : Type := TypeError (message : string).

(** The objects [traverseForStyles] mutates: the result lists and the
    report. *)
Record StyleState : Type := mkStyleState
  { style_result : StyleTokenResult;
    style_report : TransformationReportBuilder }.

(** The [switch] on a leaf's [$type].  The value is cast without looking at
    it: [token.$value as TypographyValue].  When the value is a reference
    [{ $ref }] the converters read fields the object does not have:
    [value.fontFamily[0]] indexes [undefined], [shadow.color.r] (inside
    [colorToFigmaRGBA]) and [gradient.stops.map] read a property of
    [undefined]; each of the three throws a [TypeError]. *)
Definition styleForToken (styleName : string) (token : Token) (st : StyleState)
    : JsError + StyleState :=
  let result := style_result st in
  match token with
  | mkToken Ttypography value description _ =>
      match value with
      | inl value =>
          let textStyle := typographyToTextStyle styleName value description in
          inr (mkStyleState
                 (mkStyleResult (textStyles result ++ [mkStyleParams CREATE textStyle])
                    (effectStyles result) (paintStyles result))
                 (addStyle "text" (style_report st)))
      | inr _ =>
          inl (TypeError "Cannot read properties of undefined (reading '0')")
      end
  | mkToken Tshadow value description _ =>
      match value with
      | inl value =>
          let effectStyle := shadowToEffectStyle styleName value description in
          inr (mkStyleState
                 (mkStyleResult (textStyles result)
                    (effectStyles result ++ [mkStyleParams CREATE effectStyle])
                    (paintStyles result))
                 (addStyle "effect" (style_report st)))
      | inr _ =>
          inl (TypeError "Cannot read properties of undefined (reading 'r')")
      end
  | mkToken Tgradient value description _ =>
      match value with
      | inl value =>
          let paintStyle := gradientToPaintStyle styleName value description in
          inr (mkStyleState
                 (mkStyleResult (textStyles result) (effectStyles result)
                    (paintStyles result ++ [mkStyleParams CREATE paintStyle]))
                 (addStyle "paint" (style_report st)))
      | inr _ =>
          inl (TypeError "Cannot read properties of undefined (reading 'map')")
      end
  | _ => inr st
  end.

(** [traverseForStyles], by recursion on the node ([collectionName] is
    passed along and never read); the group walk is the loop over
    [Object.entries], which a throw leaves at once. *)
Fixpoint traverseNode (value : TokenNode) (currentPath : list string)
    (collectionName : string) (st : StyleState) : JsError + StyleState :=
  match value with
  | Leaf token => styleForToken (join "/" currentPath) token st
  | Group group =>
      (fix entries (l : list (string * TokenNode)) (st : StyleState)
         : JsError + StyleState :=
         match l with
         | [] => inr st
         | (key, value) :: rest =>
             if startsWith key "$" then entries rest st
             else
               match traverseNode value (currentPath ++ [key]) collectionName st with
               | inl e => inl e
               | inr st => entries rest st
               end
         end) group st
  end.

Definition traverseForStyles (group : TokenGroup) (path : list string)
    (collectionName : string) (st : StyleState) : JsError + StyleState :=
  traverseNode (Group group) path collectionName st.

(** [extractStyleTokens]: the loop over the collections. *)
Definition extractStyleTokens (theme : ThemeFile) (report : TransformationReportBuilder)
    : JsError + StyleState :=
  fold_left
    (fun (acc : JsError + StyleState) collection =>
       match acc with
       | inl e => inl e
       | inr st =>
           match tokens collection !! defaultMode collection with
           | None => inr st
           | Some defaultTokens =>
               traverseForStyles defaultTokens [] (col_name collection) st
           end
       end)
    (collections theme)
    (inr (mkStyleState (mkStyleResult [] [] []) report)).

(* ===================================================================== *)
(** ** The read-path parser (module [parser], in [adapter.ts]) *)
(* ===================================================================== *)

Inductive ResolvedType : Type :=
  | RT_COLOR | RT_FLOAT | RT_STRING | RT_BOOLEAN | RT_unrecognized (tag : string).

Record HostCodeSyntax : Type := mkHostCodeSyntax
  { WEB : option string; ANDROID : option string; iOS : option string }.

(** [LocalVariable] of the REST API. *)
Record LocalVariable : Type := mkVariable
  { var_id : string;
    var_name : string;
    var_variableCollectionId : string;
    var_resolvedType : ResolvedType;
    var_scopes : list string;
    valuesByMode : gmap string VariableValue;
    var_hiddenFromPublishing : bool;
    var_codeSyntax : option HostCodeSyntax;
    var_description : option string }.

Definition convertFigmaColor (color : RGBA) : ColorValue :=
  {| color_r := rgba_r color;
     color_g := rgba_g color;
     color_b := rgba_b color;
     color_a := rgba_a color |}.

Definition dimensionScopes : list string :=
  ["CORNER_RADIUS"; "WIDTH_HEIGHT"; "GAP"; "STROKE_FLOAT"; "FONT_SIZE";
   "LINE_HEIGHT"; "LETTER_SPACING"; "PARAGRAPH_SPACING"; "PARAGRAPH_INDENT"].

(** [convertFigmaNumber]: a [DimensionValue] or a plain number. *)
Definition convertFigmaNumber (value : number) (scopes : list string)
    : DimensionValue + number :=
  let isDimension :=
    existsb (fun scope => bool_decide (scope ∈ dimensionScopes)) scopes in
  if isDimension then inl (mkDimension value "px") else inr value.

Definition includes (scopes : list string) (scope : string) : bool :=
  bool_decide (scope ∈ scopes).

Definition detectTokenType (variable : LocalVariable) : TokenType :=
  let scopes := var_scopes variable in
  match var_resolvedType variable with
  | RT_COLOR => Tcolor
  | RT_BOOLEAN => Tboolean
  | RT_STRING => if includes scopes "FONT_FAMILY" then TfontFamily else Tstring
  | RT_FLOAT =>
      if includes scopes "FONT_WEIGHT" then TfontWeight
      else if includes scopes "CORNER_RADIUS"
              || includes scopes "WIDTH_HEIGHT"
              || includes scopes "GAP"
              || includes scopes "FONT_SIZE"
              || includes scopes "LINE_HEIGHT"
              || includes scopes "LETTER_SPACING"
      then Tdimension
      else Tnumber
  | RT_unrecognized _ => Tstring
  end.

(** [String.prototype.split] on a one-character separator. *)
Fixpoint split (sep : Ascii.ascii) (s : string) : list string :=
  match s with
  | EmptyString => [EmptyString]
  | String c rest =>
      if decide (c = sep) then EmptyString :: split sep rest
      else
        match split sep rest with
        | [] => [String c EmptyString]
        | first :: others => String c first :: others
        end
  end.

(** The white-space class [\s] on ASCII characters (tab to carriage
    return, and space); the host's class also holds characters outside
    ASCII, which this test does not recognise. *)
Definition isSpace (c : Ascii.ascii) : bool :=
  let n := Ascii.nat_of_ascii c in
  ((9 <=? n)%nat && (n <=? 13)%nat) || (n =? 32)%nat.

(** [s.replace(/\s+/g, '-')]; [inRun] holds while a run of white space is
    being consumed. *)
Fixpoint replaceSpaces (inRun : bool) (s : string) : string :=
  match s with
  | EmptyString => EmptyString
  | String c rest =>
      if isSpace c then
        if inRun then replaceSpaces true rest
        else String (Ascii.ascii_of_nat 45) (replaceSpaces true rest)
      else String c (replaceSpaces false rest)
  end.

Definition kebab (segment : string) : string :=
  replaceSpaces false (toLowerCase segment).

Definition createTokenReference (alias : VariableAlias)
    (variablesById : gmap string LocalVariable) : TokenReference :=
  match variablesById !! alias_id alias with
  | None => mkRef ("{" +:+ alias_id alias +:+ "}")
  | Some referencedVar =>
      let path := join "." (map kebab (split (Ascii.ascii_of_nat 47) (var_name referencedVar))) in
      mkRef ("{" +:+ path +:+ "}")
  end.

(** The value [createToken] stores under [$value], by its runtime shape.
    The function assembles its result through casts
    ([converted as Token['$value']]), so the shape is not tied to the tag by
    construction. *)
Inductive ParsedValue : Type :=
  | PColor (c : ColorValue)
  | PDimension (d : DimensionValue)
  | PNumber (n : number)
  | PString (s : string)
  | PStrings (l : list string)
  | PBoolean (b : bool)
  | PReference (reference : TokenReference).

Record ParsedToken : Type := mkParsed
  { p_type : TokenType;
    p_value : ParsedValue;
    p_description : option string;
    p_extensions : FigmaExtensions }.

Definition createToken (variable : LocalVariable) (value : VariableValue)
    (variablesById : gmap string LocalVariable) : ParsedToken :=
  let tokenType := detectTokenType variable in
  let figmaExtensions :=
    {| ext_variableId := var_id variable;
       ext_scopes := var_scopes variable;
       ext_hiddenFromPublishing := var_hiddenFromPublishing variable;
       ext_codeSyntax :=
         match var_codeSyntax variable with
         | Some cs =>
             match WEB cs, ANDROID cs, iOS cs with
             | None, None, None => None
             | _, _, _ => Some (mkCodeSyntax (WEB cs) (ANDROID cs) (iOS cs))
             end
         | None => None
         end |} in
  let description := keepDescription (var_description variable) in
  let tokenValue :=
    match value with
    | VAlias alias => PReference (createTokenReference alias variablesById)
    | VRGBA c => PColor (convertFigmaColor c)
    | VNum n =>
        match convertFigmaNumber n (var_scopes variable) with
        | inl d => PDimension d
        | inr n => PNumber n
        end
    | VStr s =>
        if decide (tokenType = TfontFamily) then PStrings [s] else PString s
    | VBool b => PBoolean b
    end in
  mkParsed tokenType tokenValue description figmaExtensions.

(** The [Token] a parsed token denotes: defined when the stored value has
    the shape its tag announces (a reference fits every tag). *)
Definition asToken (p : ParsedToken) : option Token :=
  let mk (t : TokenType) (v : TokenValueOf t + TokenReference) :=
    Some (mkToken t v (p_description p) (Some (p_extensions p))) in
  match p_type p, p_value p with
  | t, PReference reference => mk t (inr reference)
  | Tcolor, PColor c => mk Tcolor (inl c)
  | Tdimension, PDimension d => mk Tdimension (inl d)
  | Tnumber, PNumber n => mk Tnumber (inl n)
  | Tstring, PString s => mk Tstring (inl s)
  | Tboolean, PBoolean b => mk Tboolean (inl b)
  | TfontFamily, PStrings l => mk TfontFamily (inl l)
  | TfontWeight, PNumber n => mk TfontWeight (inl (inl n))
  | TfontWeight, PString s => mk TfontWeight (inl (inr s))
  | _, _ => None
  end.

(* ===================================================================== *)
(** ** Vocabulary of the properties *)
(* ===================================================================== *)

Definition unitInterval (v : number) : Prop := (0 <= v <= 1)%R.

(** Projections of the state. *)
Definition st_collections (st : TransformState) := variableCollections (requestBody st).
Definition st_modes (st : TransformState) := variableModes (requestBody st).
Definition st_variables (st : TransformState) := variables (requestBody st).
Definition st_values (st : TransformState) := variableModeValues (requestBody st).
Definition st_skipped (st : TransformState) := skipped (report st).
Definition st_warnings (st : TransformState) := warnings (report st).

(** A string of ASCII characters. *)
Definition asciiOnly (s : string) : Prop :=
  Forall (fun c => Ascii.nat_of_ascii c < 128) (String.list_ascii_of_string s).

(** The tokens of a tree, as the specification speaks of them: a tree
    holds a token at a path when the keys of the path, none of which starts
    with the sigil, lead from the root through nested groups to that
    token. *)
Inductive holds : TokenNode -> list string -> Token -> Prop :=
  | holds_leaf (token : Token) : holds (Leaf token) [] token
  | holds_group (group : list (string * TokenNode)) (key : string) (child : TokenNode)
      (path : list string) (token : Token) :
      (key, child) ∈ group ->
      startsWith key "$" = false ->
      holds child path token ->
      holds (Group group) (key :: path) token.


(** The leaves of a collection's default-mode tree, in processing order. *)
Definition defaultLeaves (collection : TokenCollection) : list FlattenedToken :=
  match tokens collection !! defaultMode collection with
  | Some defaultTokens => flattenTokens defaultTokens []
  | None => []
  end.

(** Whether a leaf of the default-mode tree becomes a variable. *)
Definition becomesVariable (options : FigmaOutputAdapterOptions) (ft : FlattenedToken)
    : bool :=
  negb (bool_decide (t_type (ft_token ft) ∈ SKIP_TYPES))
  && bool_decide (is_Some (TOKEN_TYPE_TO_FIGMA (t_type (ft_token ft))))
  && negb (default false (skipHidden options) && isHidden (ft_token ft)).

(** The path a mode value is reported under. *)
Definition valuePath (collection : TokenCollection) (modeName : string)
    (path : list string) : string :=
  col_name collection +:+ "." +:+ modeName +:+ "." +:+ join "." path.

(** The token converted for a variable in one mode, with its report path,
    when that mode's tree has a token at the variable's path. *)
Definition modeCall (collection : TokenCollection) (path : list string)
    (modeName : string) : option (string * Token) :=
  modeTokens ← tokens collection !! modeName;
  modeToken ← findModeToken modeTokens path;
  Some (valuePath collection modeName path, modeToken).

(** The tokens converted for one leaf of the default tree: none unless the
    leaf becomes a variable, then one per declared mode that has a token at
    the leaf's path. *)
Definition leafCalls (options : FigmaOutputAdapterOptions)
    (collection : TokenCollection) (ft : FlattenedToken) : list (string * Token) :=
  if becomesVariable options ft then
    flat_map (fun modeName => option_list (modeCall collection (ft_path ft) modeName))
      (modes collection)
  else [].

(** Every token handed to [tokenValueToFigma] for a collection, in order. *)
Definition valueCalls (options : FigmaOutputAdapterOptions)
    (collection : TokenCollection) : list (string * Token) :=
  flat_map (leafCalls options collection) (defaultLeaves collection).

(** What converting a token yields and records, read off a run of
    [tokenValueToFigma] on a fresh report. *)
Definition convertedValue (call : string * Token) : option VariableValue :=
  fst (tokenValueToFigma (snd call) newReport (fst call)).

Definition callWarnings (call : string * Token) : list TransformationWarning :=
  warnings (snd (tokenValueToFigma (snd call) newReport (fst call))).

Definition callSkipped (call : string * Token) : list SkippedToken :=
  skipped (snd (tokenValueToFigma (snd call) newReport (fst call))).



(** The Skipped entry of a composite token. *)
Definition compositeSkipped (ft : FlattenedToken) : SkippedToken :=
  mkSkipped (join "." (ft_path ft))
    ("Token type '" +:+ typeName (t_type (ft_token ft))
       +:+ "' is not supported as a Figma variable")
    (t_type (ft_token ft))
    (Some "Consider using Figma Styles API for composite types").

(** The Skipped entry of a token of a kind without mapping. *)
Definition unknownSkipped (ft : FlattenedToken) : SkippedToken :=
  mkSkipped (join "." (ft_path ft))
    ("Unknown token type: " +:+ typeName (t_type (ft_token ft)))
    (t_type (ft_token ft)) None.

(** The names of the variables created for a leaf of the default tree. *)
Definition leafVariableNames (options : FigmaOutputAdapterOptions)
    (ft : FlattenedToken) : list string :=
  if becomesVariable options ft then [join "/" (ft_path ft)] else [].

(** The Skipped entries recorded while a leaf of the default tree is
    processed. *)
Definition leafSkipped (options : FigmaOutputAdapterOptions)
    (collection : TokenCollection) (ft : FlattenedToken) : list SkippedToken :=
  if bool_decide (t_type (ft_token ft) ∈ SKIP_TYPES) then [compositeSkipped ft]
  else
    match TOKEN_TYPE_TO_FIGMA (t_type (ft_token ft)) with
    | None => [unknownSkipped ft]
    | Some _ => flat_map callSkipped (leafCalls options collection ft)
    end.

(** A mode-create bound to a collection whose id was allocated while the
    counter moved from [lo] to [hi]. *)
Definition boundTo (prefix : string) (lo hi : nat) (m : VariableModeCreate) : Prop :=
  exists k, lo < k <= hi
            /\ vmc_variableCollectionId m = tempId (prefix +:+ "_col") k.

(** Every id an op refers to is created in the same batch. *)
Definition refOK (cols : list VariableCollectionCreate) (ms : list VariableModeCreate)
    (vars : list VariableCreate) (vals : list VariableModeValue) : Prop :=
  Forall (fun m => vmc_variableCollectionId m ∈ vcc_id <$> cols) ms
  /\ Forall (fun v => vc_variableCollectionId v ∈ vcc_id <$> cols) vars
  /\ Forall (fun mv => variableId mv ∈ vc_id <$> vars
                       /\ (modeId mv ∈ vmc_id <$> ms
                           \/ modeId mv ∈ initialModeId <$> cols)) vals.

Definition refConsistent (body : PostVariablesRequestBody) : Prop :=
  refOK (variableCollections body) (variableModes body) (variables body)
    (variableModeValues body).

(** The ids the [Map] of mode ids holds are ids of modes of the batch. *)
Definition modeIdsKnown (ids : gmap string string)
    (cols : list VariableCollectionCreate) (ms : list VariableModeCreate) : Prop :=
  forall m id, ids !! m = Some id ->
    id ∈ vmc_id <$> ms \/ id ∈ initialModeId <$> cols.

(** What holds of the state all through the passes of one collection. *)
Definition collectionInv (collectionId : string) (ids : gmap string string)
    (st : TransformState) : Prop :=
  refConsistent (requestBody st)
  /\ collectionId ∈ vcc_id <$> st_collections st
  /\ modeIdsKnown ids (st_collections st) (st_modes st).

(** The report kind a composite-style token is counted under. *)
Definition styleKind (t : TokenType) : option string :=
  match t with
  | Ttypography => Some "text"
  | Tshadow => Some "effect"
  | Tgradient => Some "paint"
  | _ => None
  end.

(** Whether a token's value is a reference. *)
Definition aliased (token : Token) : bool :=
  match t_value token with
  | inr _ => true
  | inl _ => false
  end.

(** The per-kind style counter of a report. *)
Definition styleCount (kind : string) (rep : TransformationReportBuilder) : nat :=
  default 0 (styleCounts rep !! kind).

(** The name of the style a leaf yields under a kind, if it is of that
    kind. *)
Definition styleNames (kind : string) (ft : FlattenedToken) : list string :=
  if decide (styleKind (t_type (ft_token ft)) = Some kind)
  then [join "/" (ft_path ft)] else [].

(** The names of the CREATE entries of a kind, in order. *)
Definition styleEntryNames (kind : string) (result : StyleTokenResult) : list string :=
  if decide (kind = "text") then (fun p => ts_name (sp_style p)) <$> textStyles result
  else if decide (kind = "effect") then (fun p => es_name (sp_style p)) <$> effectStyles result
  else if decide (kind = "paint") then (fun p => ps_name (sp_style p)) <$> paintStyles result
  else [].

(** The style walk as a loop over flattened leaves that a throw leaves at
    once. *)
Definition styleFold (leaves : list FlattenedToken) (acc : JsError + StyleState)
    : JsError + StyleState :=
  fold_left
    (fun acc ft =>
       match acc with
       | inl e => inl e
       | inr st => styleForToken (join "/" (ft_path ft)) (ft_token ft) st
       end)
    leaves acc.

(** *** The scenarios of the test suite *)

Definition literal (t : TokenType) (v : TokenValueOf t) : TokenNode :=
  Leaf (mkToken t (inl v) None None).

Definition minimalTheme : ThemeFile :=
  mkTheme "Test Theme"
    [ mkCollection "primitives" None ["default"] "default"
        {[ "default" :=
             [ ("color",
                Group [ ("red", literal Tcolor (mkColor 1 0 0 1));
                        ("blue", literal Tcolor (mkColor 0 0 1 1)) ]) ] ]} ]
    None.

Definition multiModeCollection : TokenCollection :=
  mkCollection "colors" None ["light"; "dark"] "light"
    {[ "light" :=
         [ ("background", literal Tcolor (mkColor 1 1 1 1));
           ("text", literal Tcolor (mkColor 0 0 0 1)) ];
       "dark" :=
         [ ("background", literal Tcolor (mkColor 0.1 0.1 0.1 1));
           ("text", literal Tcolor (mkColor 1 1 1 1)) ] ]}.

Definition multiModeTheme : ThemeFile :=
  mkTheme "Multi-Mode Theme" [multiModeCollection] None.

Definition mixedTypesTheme : ThemeFile :=
  mkTheme "Mixed Types Theme"
    [ mkCollection "tokens" None ["default"] "default"
        {[ "default" :=
             [ ("spacing",
                Group [ ("small", literal Tdimension (mkDimension 8 "px"));
                        ("large", literal Tdimension (mkDimension 32 "rem")) ]);
               ("font",
                Group [ ("family", literal TfontFamily ["Inter"; "sans-serif"]);
                        ("weight", literal TfontWeight (inr "bold")) ]);
               ("shadow",
                Group [ ("card",
                         literal Tshadow
                           (inr [ mkShadow (mkDimension 0 "px") (mkDimension 4 "px")
                                    (mkDimension 8 "px") (Some (mkDimension 0 "px"))
                                    (mkColor 0 0 0 0.1) None ])) ]) ] ]} ]
    None.

(** A typography token that aliases another token. *)
Definition aliasedTypographyTheme : ThemeFile :=
  mkTheme "Aliased Typography"
    [ mkCollection "type" None ["default"] "default"
        {[ "default" :=
             [ ("heading",
                Leaf (mkToken Ttypography (inr (mkRef "{typography.base}"))
                        None None)) ] ]} ]
    None.

(** A collection with one mode, holding a border and a spacing token. *)
Definition edgeTokens : TokenGroup :=
  [ ("edge", literal Tborder "1px solid");
    ("gap", literal Tdimension (mkDimension 2 "rem")) ].

Definition edgeCollection (name : string) : TokenCollection :=
  mkCollection name None ["default"] "default" {[ "default" := edgeTokens ]}.

Definition edgeTheme : ThemeFile :=
  mkTheme "Edges" [edgeCollection "web"] None.

(** Two collections holding a border token under the same path. *)
Definition twinEdgesTheme : ThemeFile :=
  mkTheme "Twin Edges" [edgeCollection "web"; edgeCollection "mobile"] None.



(* ===================================================================== *)
(** ** Further parts of the adapter *)
(* ===================================================================== *)

(** *** The plugin gate ([checkPluginSafety], module [safety]) *)

(** [PluginStatus] of [types.ts]. *)
Record PluginStatus : Type := mkPluginStatus
  { connected : bool;
    status_file : option string;
    status_fileKey : option string }.

(** [checkPluginSafety]: the same check against the file open in the
    plugin. *)
Definition checkPluginSafety (theme : ThemeFile) (pluginStatus : PluginStatus)
    (options : FigmaOutputAdapterOptions) : SourceOverwriteError + SourceCheckResult :=
  let sourceFileKey := meta theme ≫= figmaFileKey in
  let targetFileKey := status_fileKey pluginStatus in
  let allowOverwrite := default false (allowSourceOverwrite options) in
  let result := mkSourceCheck sourceFileKey targetFileKey false allowOverwrite in
  if negb (truthy sourceFileKey) || negb (truthy targetFileKey) then inr result
  else
    let result :=
      mkSourceCheck sourceFileKey targetFileKey
        (bool_decide (sourceFileKey = targetFileKey)) allowOverwrite in
    if isSameFile result && negb allowOverwrite then
      inl (mkSourceOverwriteError (default EmptyString sourceFileKey)
             (default EmptyString targetFileKey))
    else inr result.

(** *** The output adapter ([FigmaOutputAdapter], [adapter.ts]) *)

(** A thrown [Error] that is no [TypeError]. *)
Inductive PlainError : Type := Error (message : string).

(** [PostVariablesResponse] of the REST API, as far as the mock response
    fills it. *)
Record PostVariablesResponse : Type := mkResponse
  { response_status : nat;
    response_error : bool;
    tempIdToRealId : gmap string string }.

(** [FigmaOutputResult].  [getManualInstructions] is a closure over values
    fixed when the result is built, kept here as the text it returns;
    [execute], present when the adapter holds a write client, is kept as a
    function of the status the client reports. *)
Record FigmaOutputResult : Type := mkOutputResult
  { out_requestBody : PostVariablesRequestBody;
    out_report : TransformationReportBuilder;
    getManualInstructions : string;
    execute : option (PluginStatus -> PlainError + PostVariablesResponse) }.

Definition newline : string := String (Ascii.ascii_of_nat 10) EmptyString.

Section OutputAdapter.

(** [JSON.stringify(requestBody, null, 2)], a function of the host. *)
Variable stringify : PostVariablesRequestBody -> string.

(** [getManualInstructions]: the template, after [trim()] took the line
    break off each end. *)
Definition manualInstructions (targetFileKey : string)
    (requestBody : PostVariablesRequestBody) : string :=
  "To push these variables to Figma, use the REST API:" +:+ newline
  +:+ newline
  +:+ "POST https://api.figma.com/v1/files/" +:+ targetFileKey +:+ "/variables"
  +:+ newline
  +:+ newline
  +:+ "Headers:" +:+ newline
  +:+ "  X-Figma-Token: YOUR_TOKEN" +:+ newline
  +:+ newline
  +:+ "Body:" +:+ newline
  +:+ stringify requestBody +:+ newline
  +:+ newline
  +:+ "Note: Requires Figma Enterprise plan with file_variables:write scope."
  +:+ newline
  +:+ newline
  +:+ "Alternatively, use the Figma MCP Write Server for Plugin API access:"
  +:+ newline
  +:+ "https://github.com/oO/figma-mcp-write-server".

(** The [execute] hook: fails when the plugin is not connected, else
    returns the mock response. *)
Definition executeHook (status : PluginStatus) : PlainError + PostVariablesResponse :=
  if negb (connected status) then inl (Error "Figma plugin is not connected")
  else inr (mkResponse 200 false ∅).

(** [FigmaOutputAdapter.transform]; [hasWriteClient] tells whether the
    adapter was built with a write client, [counter] is the module-level id
    counter.  [inl] is the error the safety check throws. *)
Definition adapterTransform (hasWriteClient : bool) (theme : ThemeFile)
    (options : FigmaOutputAdapterOptions) (counter : nat)
    : SourceOverwriteError + (FigmaOutputResult * nat) :=
  match checkSourceSafety theme options with
  | inl e => inl e
  | inr _ =>
      let '(result, counter) := transformToFigmaVariables theme options counter in
      let requestBody := res_requestBody result in
      let rep := res_report result in
      let rep :=
        if isSameFile (sourceCheck rep) && overwriteAllowed (sourceCheck rep) then
          addWarning SOURCE_MATCH
            "Target file matches source file - proceeding with explicit permission"
            None rep
        else rep in
      inr (mkOutputResult requestBody rep
             (manualInstructions
                (if truthy (targetFileKey options)
                 then default EmptyString (targetFileKey options)
                 else "<YOUR_FILE_KEY>")
                requestBody)
             (if hasWriteClient then Some executeHook else None),
           counter)
  end.

End OutputAdapter.

(** *** Calls on the report builder *)

(** One call of a method of [TransformationReportBuilder]. *)
Inductive ReportCall : Type :=
  | CallAddCollection
  | CallAddMode
  | CallAddVariable
  | CallAddValue
  | CallAddSkipped (path reason : string) (originalType : TokenType)
      (suggestion : option string)
  | CallAddWarning (code : WarningCode) (message : string) (path : option string)
  | CallSetSourceCheck (source target : option string) (allowed : bool).

Definition callReport (rep : TransformationReportBuilder) (c : ReportCall)
    : TransformationReportBuilder :=
  match c with
  | CallAddCollection => addCollection rep
  | CallAddMode => addMode rep
  | CallAddVariable => addVariable rep
  | CallAddValue => addValue rep
  | CallAddSkipped path reason originalType suggestion =>
      addSkipped path reason originalType suggestion rep
  | CallAddWarning code message path => addWarning code message path rep
  | CallSetSourceCheck source target allowed => setSourceCheck source target allowed rep
  end.

(** The counters of a report agree with its two lists. *)
Definition countsAgree (rep : TransformationReportBuilder) : Prop :=
  stat_skipped (stats rep) = length (skipped rep)
  /\ stat_warnings (stats rep) = length (warnings rep).

(** The counters of the state agree with what was built. *)
Definition statsAgree (st : TransformState) : Prop :=
  collectionsCreated (stats (report st)) = length (st_collections st)
  /\ modesCreated (stats (report st)) = length (st_modes st)
  /\ variablesCreated (stats (report st)) = length (st_variables st)
  /\ valuesSet (stats (report st)) = length (st_values st)
  /\ countsAgree (report st).

(** *** Synthetic ids of a batch *)

(** The ids of a kind allocated so far: each is the template of its prefix
    at a counter value not above [n], and no two are the same. *)
Definition freshUpTo (prefix : string) (n : nat) (ids : list string) : Prop :=
  NoDup ids /\ Forall (fun id => exists k, k <= n /\ id = tempId prefix k) ids.

(** All mode ids of a batch: those of the mode-creates and the initial
    modes of the collection-creates. *)
Definition allModeIds (cols : list VariableCollectionCreate)
    (ms : list VariableModeCreate) : list string :=
  (vmc_id <$> ms) ++ (initialModeId <$> cols).

(** What holds of the ids and of the counter all through a
    transformation. *)
Definition idsInv (prefix : string) (st : TransformState) : Prop :=
  idCounter st
    = 2 * length (st_collections st) + length (st_modes st) + length (st_variables st)
  /\ freshUpTo (prefix +:+ "_col") (idCounter st) (vcc_id <$> st_collections st)
  /\ freshUpTo (prefix +:+ "_mode") (idCounter st)
       (allModeIds (st_collections st) (st_modes st))
  /\ freshUpTo (prefix +:+ "_var") (idCounter st) (vc_id <$> st_variables st).

(** The prefix of the ids of a call. *)
Definition idPrefixOf (options : FigmaOutputAdapterOptions) : string :=
  if truthy (idPrefix options) then default EmptyString (idPrefix options) else "temp".

(** The name a collection is created under. *)
Definition createdName (options : FigmaOutputAdapterOptions)
    (collection : TokenCollection) : string :=
  default (col_name collection)
    (collectionMapping options ≫= fun m => m !! col_name collection).

(** *** Token trees *)

(** No key occurs twice in an object, at any depth. *)
Inductive uniqueKeys : TokenNode -> Prop :=
  | uniqueKeys_leaf token : uniqueKeys (Leaf token)
  | uniqueKeys_group group :
      NoDup (fst <$> group) ->
      Forall (fun entry => uniqueKeys (snd entry)) group ->
      uniqueKeys (Group group).

(** *** Reading and writing back *)

(** The write-path type a resolved type of the REST API stands for; a type
    the parser does not recognise is read as a string. *)
Definition writtenType (resolved : ResolvedType) : VariableResolvedDataType :=
  match resolved with
  | RT_COLOR => COLOR
  | RT_FLOAT => FLOAT
  | RT_BOOLEAN => BOOLEAN
  | RT_STRING | RT_unrecognized _ => STRING
  end.

(** A mode value has the runtime type its variable's resolved type
    announces. *)
Definition valueFits (resolved : ResolvedType) (value : VariableValue) : Prop :=
  match resolved, value with
  | RT_COLOR, VRGBA _ | RT_FLOAT, VNum _ | RT_STRING, VStr _ | RT_BOOLEAN, VBool _ => True
  | _, _ => False
  end.

(** [buildTokenPath]: the group path and the token name of a variable
    name. *)
Definition buildTokenPath (name : string) : list string * string :=
  let segments := split (Ascii.ascii_of_nat 47) name in
  let popped := last segments in
  let tokenName := if truthy popped then default EmptyString popped else name in
  (map kebab (removelast segments), kebab tokenName).

(** *** Token trees under construction ([setTokenAtPath]) *)

(** The objects [setTokenAtPath] walks and extends: a group, or a token
    object that later assignments gave further properties.  [payload] is
    the token when the object was created as one, [children] are the
    properties [setTokenAtPath] set on it.  The parser tests, reads and
    writes keys and never enumerates them, so their order is not kept. *)
Inductive ParsedNode : Type :=
  | mkNode (payload : option ParsedToken) (children : gmap string ParsedNode).

Definition payload (node : ParsedNode) : option ParsedToken :=
  match node with mkNode token _ => token end.

Definition children (node : ParsedNode) : gmap string ParsedNode :=
  match node with mkNode _ properties => properties end.

(** The empty object literal. *)
Definition emptyGroup : ParsedNode := mkNode None ∅.

(** The names every object inherits from [Object.prototype]. *)
Definition objectPrototypeNames : list string :=
  ["constructor"; "__defineGetter__"; "__defineSetter__"; "hasOwnProperty";
   "__lookupGetter__"; "__lookupSetter__"; "isPrototypeOf"; "propertyIsEnumerable";
   "toString"; "valueOf"; "__proto__"; "toLocaleString"].

(** Keys on which the test [key in object] and the assignment
    [object[key] = value] concern the properties [setTokenAtPath] itself
    set: no inherited name, and no property of a token object (these start
    with the sigil). *)
Definition ordinaryKey (key : string) : bool :=
  negb (startsWith key "$") && negb (bool_decide (key ∈ objectPrototypeNames)).

(** [setTokenAtPath], returning the tree it leaves behind.  [None]: a key
    is not ordinary, so that the walk leaves the tree of groups and tokens;
    what the code does then is outside this model. *)
Fixpoint setTokenAtPath (group : ParsedNode) (path : list string) (tokenName : string)
    (token : ParsedToken) : option ParsedNode :=
  match path with
  | [] =>
      if ordinaryKey tokenName then
        Some (mkNode (payload group) (<[tokenName := mkNode (Some token) ∅]> (children group)))
      else None
  | segment :: rest =>
      if ordinaryKey segment then
        let current := default emptyGroup (children group !! segment) in
        current ← setTokenAtPath current rest tokenName token;
        Some (mkNode (payload group) (<[segment := current]> (children group)))
      else None
  end.

(** The object reached from [node] by the keys of [path]. *)
Fixpoint nodeAt (node : ParsedNode) (path : list string) : option ParsedNode :=
  match path with
  | [] => Some node
  | segment :: rest => children node !! segment ≫= fun next => nodeAt next rest
  end.

(** The token stored at [path]: the object reached, if it is a token. *)
Definition tokenAt (node : ParsedNode) (path : list string) : option ParsedToken :=
  nodeAt node path ≫= payload.

(** Where [parseCollection] stores the token of a variable name. *)
Definition storagePath (name : string) : list string :=
  let '(path, tokenName) := buildTokenPath name in path ++ [tokenName].

(** *** Collections ([parseCollection], [parseVariables]) *)

(** A mode of a collection. *)
Record CollectionMode : Type := mkMode
  { cm_modeId : string; cm_name : string }.

(** [LocalVariableCollection] of the REST API, as far as the parser reads
    it. *)
Record LocalVariableCollection : Type := mkLocalCollection
  { lvc_id : string;
    lvc_name : string;
    lvc_modes : list CollectionMode;
    lvc_defaultModeId : string;
    lvc_hiddenFromPublishing : bool }.

(** The [TokenCollection] the parser builds: its trees hold parsed tokens,
    and [defaultMode] is [undefined] when the collection has no mode. *)
Record ParsedCollection : Type := mkParsedCollection
  { pc_name : string;
    pc_description : option string;
    pc_modes : list string;
    pc_defaultMode : option string;
    pc_tokens : gmap string ParsedNode }.

(** Body of the loop over the variables of a mode. *)
Definition addVariableToken (modeId : string) (variablesById : gmap string LocalVariable)
    (modeTokens : option ParsedNode) (variable : LocalVariable) : option ParsedNode :=
  modeTokens ← modeTokens;
  match valuesByMode variable !! modeId with
  | None => Some modeTokens
  | Some value =>
      let token := createToken variable value variablesById in
      let '(path, tokenName) := buildTokenPath (var_name variable) in
      setTokenAtPath modeTokens path tokenName token
  end.

(** The tree of one mode. *)
Definition buildModeTokens (modeId : string) (variables : list LocalVariable)
    (variablesById : gmap string LocalVariable) : option ParsedNode :=
  fold_left (addVariableToken modeId variablesById) variables (Some emptyGroup).

(** Body of the loop over the modes.  [None] also when the mode id names an
    inherited property, which [valuesByMode[mode.modeId]] would read, or
    the mode name is [__proto__], which [tokens[mode.name] = ...] would not
    store as a property. *)
Definition addModeTokens (variables : list LocalVariable)
    (variablesById : gmap string LocalVariable)
    (tokens : option (gmap string ParsedNode)) (mode : CollectionMode)
    : option (gmap string ParsedNode) :=
  tokens ← tokens;
  if bool_decide (cm_modeId mode ∈ objectPrototypeNames)
     || bool_decide (cm_name mode = "__proto__") then None
  else
    modeTokens ← buildModeTokens (cm_modeId mode) variables variablesById;
    Some (<[cm_name mode := modeTokens]> tokens).

Definition parseCollection (collection : LocalVariableCollection)
    (variables : list LocalVariable) (variablesById : gmap string LocalVariable)
    : option ParsedCollection :=
  let modes := map cm_name (lvc_modes collection) in
  let defaultMode :=
    match find (fun m => bool_decide (cm_modeId m = lvc_defaultModeId collection))
            (lvc_modes collection) with
    | Some m => if decide (cm_name m = EmptyString) then head modes else Some (cm_name m)
    | None => head modes
    end in
  tokens ← fold_left (addModeTokens variables variablesById) (lvc_modes collection) (Some ∅);
  Some (mkParsedCollection (lvc_name collection)
          (if lvc_hiddenFromPublishing collection then None
           else Some ("Figma collection: " +:+ lvc_name collection))
          modes defaultMode tokens).

(** The two lookup maps [parseVariables] builds first. *)
Definition indexVariables (variables : list LocalVariable)
    : gmap string LocalVariable * gmap string (list LocalVariable) :=
  fold_left
    (fun maps variable =>
       let collectionVars :=
         default [] (maps.2 !! var_variableCollectionId variable) in
       (<[var_id variable := variable]> maps.1,
        <[var_variableCollectionId variable := collectionVars ++ [variable]]> maps.2))
    variables (∅, ∅).

(** [parseVariables]; the two records are given as [Object.values] lists
    them. *)
Definition parseVariables (variables : list LocalVariable)
    (collections : list LocalVariableCollection) : option (list ParsedCollection) :=
  let '(variablesById, variablesByCollection) := indexVariables variables in
  fold_left
    (fun result collection =>
       result ← result;
       let collectionVariables :=
         default [] (variablesByCollection !! lvc_id collection) in
       if (length collectionVariables =? 0)%nat then Some result
       else if lvc_hiddenFromPublishing collection then Some result
       else
         parsed ← parseCollection collection collectionVariables variablesById;
         Some (result ++ [parsed]))
    collections (Some []).

(** The variables of a collection, in the order of the input. *)
Definition variablesOf (variables : list LocalVariable)
    (collection : LocalVariableCollection) : list LocalVariable :=
  List.filter (fun variable =>
                 bool_decide (var_variableCollectionId variable = lvc_id collection))
    variables.

(** A collection is published and has a variable. *)
Definition kept (variables : list LocalVariable) (collection : LocalVariableCollection)
    : bool :=
  negb (lvc_hiddenFromPublishing collection)
  && existsb (fun variable =>
                bool_decide (var_variableCollectionId variable = lvc_id collection))
       variables.

(** *** The input adapter ([FigmaAdapter], [adapters/figma/adapter.ts]) *)

(** [FigmaMCPDataResponse], as far as the adapter reads it; the two records
    are given as [Object.values] lists them. *)
Record FigmaMCPDataResponse : Type := mkMCPData
  { mcp_name : string;
    mcp_lastModified : option string;
    mcp_variables : option (list LocalVariable);
    mcp_variableCollections : option (list LocalVariableCollection) }.

Record VariablesMeta : Type := mkVariablesMeta
  { meta_variables : option (list LocalVariable);
    meta_variableCollections : option (list LocalVariableCollection) }.

(** [GetLocalVariablesResponse] of the REST API. *)
Record GetLocalVariablesResponse : Type := mkVariablesResponse
  { response_failed : bool;
    response_meta : option VariablesMeta }.

Record FigmaInput : Type := mkFigmaInput
  { mcpData : option FigmaMCPDataResponse;
    variablesResponse : option GetLocalVariablesResponse;
    fileKey : option string }.

Record ValidationResult : Type := mkValidation
  { valid : bool; errors : option (list string) }.

(** The [errors] array [validate] fills. *)
Definition validationErrors (source : FigmaInput) : list string :=
  (if negb (bool_decide (is_Some (mcpData source)))
      && negb (bool_decide (is_Some (variablesResponse source)))
   then ["Either mcpData or variablesResponse must be provided"] else [])
  ++ match mcpData source with
     | Some data =>
         if negb (truthy (Some (mcp_name data))) then ["MCP data missing file name"]
         else []
     | None => []
     end
  ++ match variablesResponse source with
     | Some response =>
         (if response_failed response then ["Variables response contains error"] else [])
         ++ (if negb (bool_decide (is_Some (response_meta response ≫= meta_variables)))
             then ["Variables response missing variables data"] else [])
         ++ (if negb (bool_decide
                        (is_Some (response_meta response ≫= meta_variableCollections)))
             then ["Variables response missing collections data"] else [])
     | None => []
     end.

Definition validate (source : FigmaInput) : ValidationResult :=
  let errors := validationErrors source in
  mkValidation (length errors =? 0)%nat
    (if (0 <? length errors)%nat then Some errors else None).

Record ParsedThemeMeta : Type := mkParsedMeta
  { pm_source : string;
    pm_figmaFileKey : option string;
    pm_lastSynced : string;
    pm_version : string }.

(** The [ThemeFile] the input adapter builds. *)
Record ParsedTheme : Type := mkParsedTheme
  { pt_schema : string;
    pt_name : string;
    pt_description : string;
    pt_collections : list ParsedCollection;
    pt_meta : ParsedThemeMeta }.

(** [FigmaAdapter.parse]; [now] is [new Date().toISOString()].  A thrown
    error is an [Error] with its message or a [TypeError]; [None] where
    [parseVariables] is outside the model. *)
Definition parse (source : FigmaInput) (now : string)
    : option ((PlainError + JsError) + ParsedTheme) :=
  let validation := validate source in
  if negb (valid validation) then
    Some (inl (inl (Error ("Invalid Figma input: "
                             +:+ match errors validation with
                                 | Some errors => join ", " errors
                                 | None => "undefined"
                                 end))))
  else
    let build (variables : list LocalVariable)
        (collections : list LocalVariableCollection) (fileName : string)
        (lastModified : option string)
        : option ((PlainError + JsError) + ParsedTheme) :=
      tokenCollections ← parseVariables variables collections;
      let sourceType :=
        if bool_decide (is_Some (variablesResponse source)) then "figma-api"
        else "figma-mcp" in
      Some (inr (mkParsedTheme "https://figma-to-tailwind.dev/schema/v1/theme.json"
                   fileName
                   ("Design tokens exported from Figma file: " +:+ fileName)
                   tokenCollections
                   (mkParsedMeta sourceType (fileKey source)
                      (if truthy lastModified then default EmptyString lastModified
                       else now)
                      "1.0.0"))) in
    match variablesResponse source, mcpData source with
    | Some response, _ =>
        match response_meta response with
        | Some responseMeta =>
            match meta_variables responseMeta, meta_variableCollections responseMeta with
            | Some variables, Some collections =>
                build variables collections "Untitled" None
            | _, _ =>
                Some (inl (inr (TypeError "Cannot convert undefined or null to object")))
            end
        | None =>
            Some (inl (inr (TypeError
                              "Cannot read properties of undefined (reading 'variables')")))
        end
    | None, Some data =>
        build (default [] (mcp_variables data))
          (default [] (mcp_variableCollections data))
          (mcp_name data) (mcp_lastModified data)
    | None, None => Some (inl (inl (Error "No valid data source")))
    end.

(* ===================================================================== *)
(** * Properties *)
(* ===================================================================== *)

(** ** Source safety *)

Section SourceSafety.

Variables (theme : ThemeFile) (options : FigmaOutputAdapterOptions).

Let source : option string := meta theme ≫= figmaFileKey.
Let target : option string := targetFileKey options.

Lemma truthy_Some (s : option string) :
  truthy s = true <-> exists k, s = Some k /\ k <> EmptyString.
Proof.
  destruct s as [k|]; simpl.
  - rewrite negb_true_iff, bool_decide_eq_false. split.
    + intros Hk. exists k. split; [reflexivity | exact Hk].
    + intros (k' & Heq & Hk'). congruence.
  - split; [discriminate | intros (k & Heq & _); discriminate].
Qed.

(** The gate throws exactly when both keys are non-empty strings, they
    are the same string and overwriting was not allowed; the error names
    both keys. *)
Lemma checkSourceSafety_throws (e : SourceOverwriteError) :
  checkSourceSafety theme options = inl e <->
  exists k, source = Some k /\ target = Some k /\ k <> EmptyString
            /\ allowSourceOverwrite options <> Some true
            /\ e = mkSourceOverwriteError k k.
Proof.
  unfold checkSourceSafety. fold source. fold target.
  destruct (truthy source) eqn:Hs; simpl.
  - destruct (truthy target) eqn:Ht; simpl.
    + apply truthy_Some in Hs as (ks & Hs & Hks).
      apply truthy_Some in Ht as (kt & Ht & Hkt).
      rewrite Hs, Ht. simpl.
      destruct (bool_decide (Some ks = Some kt)) eqn:Heq; simpl.
      * apply bool_decide_eq_true in Heq. injection Heq as ->.
        destruct (allowSourceOverwrite options) as [[|]|]; simpl; split;
          try discriminate;
          try (intros (k & Hk & _ & _ & Hallow & _); congruence);
          try (intros [= <-]; exists kt; repeat split; congruence);
          intros (k & [= <-] & _ & _ & _ & ->); reflexivity.
      * apply bool_decide_eq_false in Heq. split; [discriminate|].
        intros (k & Hk1 & Hk2 & _). congruence.
    + split; [discriminate|].
      intros (k & _ & Hk & Hne & _).
      assert (truthy target = true) by (apply truthy_Some; eauto).
      congruence.
  - split; [discriminate|].
    intros (k & Hk & _ & Hne & _).
    assert (truthy source = true) by (apply truthy_Some; eauto).
    congruence.
Qed.

(** A missing or empty key on either side makes the check pass with
    [isSameFile = false]. *)
Lemma checkSourceSafety_inconclusive :
  truthy source = false \/ truthy target = false ->
  checkSourceSafety theme options =
    inr (mkSourceCheck source target false
           (default false (allowSourceOverwrite options))).
Proof.
  unfold checkSourceSafety. fold source. fold target.
  intros [-> | ->]; simpl; [reflexivity|].
  rewrite orb_true_r. reflexivity.
Qed.

(** With permission, writing to the source file passes and is recorded. *)
Lemma checkSourceSafety_allowed (k : string) :
  source = Some k -> target = Some k -> k <> EmptyString ->
  allowSourceOverwrite options = Some true ->
  checkSourceSafety theme options =
    inr (mkSourceCheck (Some k) (Some k) true true).
Proof.
  unfold checkSourceSafety. fold source. fold target.
  intros -> -> Hk ->. simpl.
  rewrite (bool_decide_eq_false_2 (k = EmptyString)) by exact Hk. simpl.
  rewrite bool_decide_eq_true_2 by reflexivity. reflexivity.
Qed.

End SourceSafety.

(** C1 (as amended).  [checkSourceSafety] raises [SourceOverwriteError],
    carrying both file keys, if and only if [theme.meta.figmaFileKey] and
    [options.targetFileKey] are both present, non-empty and equal and
    [options.allowSourceOverwrite] is not [true]; if either key is absent
    or empty it returns without raising (with [isSameFile = false]); and
    when both keys are present, non-empty and equal and
    [allowSourceOverwrite] is [true] it returns a result with
    [isSameFile = true] and [overwriteAllowed = true]. *)
Theorem checkSourceSafety_spec (theme : ThemeFile) (options : FigmaOutputAdapterOptions) :
  let source := meta theme ≫= figmaFileKey in
  let target := targetFileKey options in
  (forall e, checkSourceSafety theme options = inl e <->
     exists k, source = Some k /\ target = Some k /\ k <> EmptyString
               /\ allowSourceOverwrite options <> Some true
               /\ err_sourceFileKey e = k /\ err_targetFileKey e = k)
  /\ (source = None \/ target = None
      \/ source = Some EmptyString \/ target = Some EmptyString ->
      exists result, checkSourceSafety theme options = inr result
                     /\ isSameFile result = false)
  /\ (forall k, source = Some k -> target = Some k -> k <> EmptyString ->
      allowSourceOverwrite options = Some true ->
      exists result, checkSourceSafety theme options = inr result
                     /\ isSameFile result = true /\ overwriteAllowed result = true).
Proof.
  intros source target. repeat split.
  - intros He. apply checkSourceSafety_throws in He as (k & H1 & H2 & H3 & H4 & ->).
    exists k. repeat split; assumption.
  - intros (k & H1 & H2 & H3 & H4 & H5 & H6).
    apply checkSourceSafety_throws. exists k. repeat split; try assumption.
    destruct e as [es et]. simpl in *. congruence.
  - intros Hcase. eexists. split.
    + apply checkSourceSafety_inconclusive.
      fold source. fold target.
      destruct Hcase as [-> | [-> | [-> | ->]]]; simpl; auto.
    + reflexivity.
  - intros k H1 H2 H3 H4. eexists. split.
    + eapply checkSourceSafety_allowed; eassumption.
    + split; reflexivity.
Qed.

(** C1, counterexample to the claim as stated.  With the empty string
    recorded as the origin key and requested as the target, both keys are
    present and equal and no permission was given, yet the gate returns
    (reporting [isSameFile = false]) instead of raising. *)
Lemma checkSourceSafety_empty_keys_pass :
  ~ (forall theme options,
       (exists e, checkSourceSafety theme options = inl e) <->
       (exists k, meta theme ≫= figmaFileKey = Some k /\ targetFileKey options = Some k)
       /\ allowSourceOverwrite options <> Some true).
Proof.
  intros Hclaim.
  pose (theme := mkTheme "Test" [] (Some (mkMeta (Some EmptyString)))).
  pose (options := mkOptions (Some EmptyString) None None None None None).
  destruct (Hclaim theme options) as [_ Hraise].
  destruct Hraise as [e He].
  - split; [exists EmptyString; split; reflexivity | discriminate].
  - discriminate He.
Qed.

(** ** Colour conversion *)

Lemma colorToFigmaRGBA_convertFigmaColor (c : RGBA) :
  colorToFigmaRGBA (convertFigmaColor c) = c.
Proof. destruct c; reflexivity. Qed.

Lemma convertFigmaColor_colorToFigmaRGBA (c : ColorValue) :
  convertFigmaColor (colorToFigmaRGBA c) = c.
Proof. destruct c; reflexivity. Qed.

(** C7.  For every RGBA colour with [r], [g], [b], [a] each in [0,1], the
    read-path converter followed by the write-path converter is the
    identity: [colorToFigmaRGBA (convertFigmaColor c) = c]. *)
Theorem color_roundtrip (c : RGBA) :
  unitInterval (rgba_r c) -> unitInterval (rgba_g c) ->
  unitInterval (rgba_b c) -> unitInterval (rgba_a c) ->
  colorToFigmaRGBA (convertFigmaColor c) = c.
Proof. intros _ _ _ _. apply colorToFigmaRGBA_convertFigmaColor. Qed.

(** C7 at the colour of the mixed-types scenario. *)
Lemma color_roundtrip_witness :
  let c := (mkRGBA 0.2 0.4 0.8 1)%R in
  colorToFigmaRGBA (convertFigmaColor c) = c.
Proof.
  intros c. apply (color_roundtrip c); unfold unitInterval, c; simpl; lra.
Defined.

(** ** Type inference and value conversion on the read path *)

Lemma includes_true (scopes : list string) (scope : string) :
  includes scopes scope = true <-> scope ∈ scopes.
Proof. unfold includes. apply bool_decide_eq_true. Qed.

Lemma convertFigmaNumber_dimension (value : number) (scopes : list string) (scope : string) :
  scope ∈ scopes -> scope ∈ dimensionScopes ->
  convertFigmaNumber value scopes = inl (mkDimension value "px").
Proof.
  intros Hin Hdim. unfold convertFigmaNumber.
  assert (existsb (fun scope => bool_decide (scope ∈ dimensionScopes)) scopes = true)
    as ->; [|reflexivity].
  apply existsb_exists. exists scope. split.
  - apply list_elem_of_In. exact Hin.
  - apply bool_decide_eq_true. exact Hdim.
Qed.

(** Where the two scope tables agree: a number read for a variable typed
    [dimension] is stored as [{ value, unit: "px" }]. *)
Lemma createToken_dimension (variable : LocalVariable) (n : number)
    (variablesById : gmap string LocalVariable) :
  detectTokenType variable = Tdimension ->
  p_value (createToken variable (VNum n) variablesById)
    = PDimension (mkDimension n "px").
Proof.
  unfold detectTokenType, createToken. simpl. intros H.
  destruct (var_resolvedType variable); try discriminate H;
    [|destruct (includes _ _); discriminate H].
  destruct (includes (var_scopes variable) "FONT_WEIGHT"); [discriminate H|].
  assert (exists scope, scope ∈ var_scopes variable /\ scope ∈ dimensionScopes)
    as (scope & Hin & Hdim).
  { destruct (includes _ "CORNER_RADIUS") eqn:H1;
      [apply includes_true in H1; eexists; split; [exact H1 | set_solver]|].
    destruct (includes _ "WIDTH_HEIGHT") eqn:H2;
      [apply includes_true in H2; eexists; split; [exact H2 | set_solver]|].
    destruct (includes _ "GAP") eqn:H3;
      [apply includes_true in H3; eexists; split; [exact H3 | set_solver]|].
    destruct (includes _ "FONT_SIZE") eqn:H4;
      [apply includes_true in H4; eexists; split; [exact H4 | set_solver]|].
    destruct (includes _ "LINE_HEIGHT") eqn:H5;
      [apply includes_true in H5; eexists; split; [exact H5 | set_solver]|].
    destruct (includes _ "LETTER_SPACING") eqn:H6;
      [apply includes_true in H6; eexists; split; [exact H6 | set_solver]|].
    discriminate H. }
  rewrite (convertFigmaNumber_dimension n _ scope Hin Hdim). reflexivity.
Qed.

(** C4, the failing input.  A FLOAT variable scoped [STROKE_FLOAT] with the
    mode value [2] is typed [number] by [detectTokenType], while
    [convertFigmaNumber], whose scope table also lists [STROKE_FLOAT],
    stores the dimension record [{ value: 2, unit: "px" }]: tag and shape
    disagree, and the result is no [Token] of the schema. *)
Lemma createToken_stroke_width_mismatch :
  let variable :=
    mkVariable "VariableID:1:2" "border/width" "VariableCollectionId:1:1" RT_FLOAT
      ["STROKE_FLOAT"] {[ "1:0" := VNum 2%R ]} false None None in
  let token := createToken variable (VNum 2%R) ∅ in
  valuesByMode variable !! "1:0" = Some (VNum 2%R)
  /\ p_type token = Tnumber
  /\ p_value token = PDimension (mkDimension 2%R "px")
  /\ asToken token = None.
Proof. repeat split. Qed.

(** ** Determinism of the write path *)

(** The transformer resets the counter before it allocates its first id,
    so what the counter held on entry is immaterial. *)
Lemma transform_ignores_counter (theme : ThemeFile) (options : FigmaOutputAdapterOptions)
    (c1 c2 : nat) :
  transformToFigmaVariables theme options c1 = transformToFigmaVariables theme options c2.
Proof. reflexivity. Qed.

(** C3.  Calling [transformToFigmaVariables] twice on the same theme and
    options, with the id counter reset between the calls, yields the same
    request body: the same operations with the same synthetic collection,
    mode and variable ids (and, beyond the claim, the same report). *)
Theorem transform_deterministic (theme : ThemeFile) (options : FigmaOutputAdapterOptions)
    (c0 : nat) :
  let first := transformToFigmaVariables theme options c0 in
  let second := transformToFigmaVariables theme options (resetIdCounter (snd first)) in
  res_requestBody (fst first) = res_requestBody (fst second)
  /\ res_report (fst first) = res_report (fst second).
Proof.
  intros first second.
  assert (second = first) as ->
    by apply (transform_ignores_counter theme options (resetIdCounter (snd first)) c0).
  split; reflexivity.
Qed.

(** Steps through a call of [generateTempId]: the id is [tempId] of the
    incremented counter. *)
Ltac allocate_id := unfold generateTempId; cbv beta iota zeta.

(** ** Loops as folds *)

Lemma fold_left_invariant {St X : Type} (P : St -> Prop) (f : St -> X -> St)
    (xs : list X) (st : St) :
  P st -> (forall s x, x ∈ xs -> P s -> P (f s x)) -> P (fold_left f xs st).
Proof.
  revert st. induction xs as [|x xs IH]; intros st Hst Hstep; simpl; [exact Hst|].
  apply IH.
  - apply Hstep; [left | exact Hst].
  - intros s y Hy. apply Hstep. right. exact Hy.
Qed.

(** A loop whose iterations leave a projection alone leaves it alone. *)
Lemma fold_left_preserves {St X V : Type} (proj : St -> V) (f : St -> X -> St)
    (xs : list X) (st : St) :
  (forall s x, proj (f s x) = proj s) -> proj (fold_left f xs st) = proj st.
Proof.
  intros Hstep.
  apply (fold_left_invariant (fun s => proj s = proj st)); [reflexivity|].
  intros s x _ Hs. rewrite Hstep. exact Hs.
Qed.

(** A loop whose iteration on [x] appends [F x] to a projection appends the
    [F x] of all items, in order. *)
Lemma fold_left_flat_map {St X A : Type} (proj : St -> list A) (f : St -> X -> St)
    (F : X -> list A) (xs : list X) (st : St) :
  (forall s x, x ∈ xs -> proj (f s x) = proj s ++ F x) ->
  proj (fold_left f xs st) = proj st ++ flat_map F xs.
Proof.
  revert st. induction xs as [|x xs IH]; intros st Hstep; simpl.
  - rewrite app_nil_r. reflexivity.
  - rewrite IH by (intros s y Hy; apply Hstep; right; exact Hy).
    rewrite Hstep by left. rewrite app_assoc. reflexivity.
Qed.

Lemma flat_map_option_list {A B : Type} (F : A -> list B) (o : option A) :
  flat_map F (option_list o) = from_option F [] o.
Proof. destruct o; simpl; [apply app_nil_r | reflexivity]. Qed.

(** ** The write path, pass by pass *)

(** *** Value conversion *)

(** The conversion does not read the report: its value, and what it
    records, are those of a run on a fresh report. *)
Lemma tokenValueToFigma_report (token : Token) (rep : TransformationReportBuilder)
    (path : string) :
  fst (tokenValueToFigma token rep path) = convertedValue (path, token)
  /\ skipped (snd (tokenValueToFigma token rep path))
     = skipped rep ++ callSkipped (path, token)
  /\ warnings (snd (tokenValueToFigma token rep path))
     = warnings rep ++ callWarnings (path, token).
Proof.
  unfold convertedValue, callSkipped, callWarnings.
  destruct token as [ty [v|reference] description ext]; simpl.
  - destruct ty; simpl; rewrite ?app_nil_r; try (repeat split; reflexivity).
    + unfold dimensionToNumber. destruct (decide _); simpl; rewrite ?app_nil_r;
        repeat split; reflexivity.
    + destruct (decide _); simpl; rewrite ?app_nil_r; repeat split; reflexivity.
  - destruct ty; simpl; rewrite ?app_nil_r; repeat split; reflexivity.
Qed.


(** *** The per-mode pass *)

Section SetModeValue.

Variables (collection : TokenCollection) (path : list string) (variableId : string).
Variable collectionModeIds : gmap string string.
Variables (st : TransformState) (modeName : string).

Let st' : TransformState :=
  setModeValue collection path variableId collectionModeIds st modeName.

(** The pass allocates no id and creates no collection, mode or
    variable. *)
Lemma setModeValue_frame :
  idCounter st' = idCounter st /\ st_collections st' = st_collections st
  /\ st_modes st' = st_modes st /\ st_variables st' = st_variables st.
Proof.
  unfold st', setModeValue.
  destruct (tokens collection !! modeName); [|tauto].
  destruct (findModeToken _ _); [|tauto].
  destruct (truthy _); [|tauto].
  destruct (tokenValueToFigma _ _ _) as [[value|] rep]; simpl; tauto.
Qed.

(** Any value the pass emits belongs to [variableId] and to the id the
    map holds for the mode. *)
Lemma setModeValue_values :
  st_values st' = st_values st
  \/ exists id value, collectionModeIds !! modeName = Some id
                      /\ st_values st' = st_values st ++ [mkModeValue variableId id value].
Proof.
  unfold st', setModeValue, st_values.
  destruct (tokens collection !! modeName); [|tauto].
  destruct (findModeToken _ _); [|tauto].
  destruct (collectionModeIds !! modeName) as [id|] eqn:Hid; simpl; [|tauto].
  destruct (negb _); [|tauto].
  destruct (tokenValueToFigma _ _ _) as [[value|] rep]; simpl; [|tauto].
  right. exists id, value. split; reflexivity.
Qed.

(** With an id on record for the mode, the pass converts exactly the
    token [modeCall] names and records what that conversion records. *)
Lemma setModeValue_outputs :
  truthy (collectionModeIds !! modeName) = true ->
  let calls := option_list (modeCall collection path modeName) in
  mv_value <$> st_values st'
    = (mv_value <$> st_values st) ++ flat_map (fun c => option_list (convertedValue c)) calls
  /\ st_warnings st' = st_warnings st ++ flat_map callWarnings calls
  /\ st_skipped st' = st_skipped st ++ flat_map callSkipped calls.
Proof.
  intros Hid calls. unfold calls, st', setModeValue, modeCall.
  unfold st_values, st_warnings, st_skipped.
  destruct (tokens collection !! modeName) as [modeTokens|]; simpl;
    [|rewrite !app_nil_r; repeat split; reflexivity].
  destruct (findModeToken modeTokens path) as [modeToken|]; simpl;
    [|rewrite !app_nil_r; repeat split; reflexivity].
  rewrite Hid, !app_nil_r. fold (valuePath collection modeName path).
  destruct (tokenValueToFigma_report modeToken (report st)
              (valuePath collection modeName path)) as (Hvalue & Hskipped & Hwarnings).
  destruct (tokenValueToFigma _ _ _) as [value rep]. simpl in *.
  rewrite <- Hvalue.
  destruct value as [value|]; simpl.
  - rewrite fmap_app. repeat split; assumption.
  - rewrite app_nil_r. repeat split; assumption.
Qed.

End SetModeValue.

Lemma flat_map_flat_map {A B C : Type} (G : B -> list C) (H : A -> list B) (l : list A) :
  flat_map G (flat_map H l) = flat_map (fun a => flat_map G (H a)) l.
Proof.
  induction l as [|a l IH]; simpl; [reflexivity|].
  rewrite flat_map_app, IH. reflexivity.
Qed.

(** *** The per-token pass *)

Section ProcessToken.

Variables (options : FigmaOutputAdapterOptions) (prefix : string).
Variables (collection : TokenCollection) (collectionId : string).
Variable collectionModeIds : gmap string string.
Variables (st : TransformState) (ft : FlattenedToken).

Let st' : TransformState :=
  processToken options prefix collection collectionId collectionModeIds st ft.

Let modesPass (variableId : string) (s : TransformState) : TransformState :=
  fold_left (setModeValue collection (ft_path ft) variableId collectionModeIds)
    (modes collection) s.

Lemma modesPass_frame (variableId : string) (s : TransformState) :
  idCounter (modesPass variableId s) = idCounter s
  /\ st_collections (modesPass variableId s) = st_collections s
  /\ st_modes (modesPass variableId s) = st_modes s
  /\ st_variables (modesPass variableId s) = st_variables s.
Proof.
  unfold modesPass. repeat split.
  - apply (fold_left_preserves idCounter). intros s0 m.
    apply setModeValue_frame.
  - apply (fold_left_preserves st_collections). intros s0 m.
    apply setModeValue_frame.
  - apply (fold_left_preserves st_modes). intros s0 m.
    apply setModeValue_frame.
  - apply (fold_left_preserves st_variables). intros s0 m.
    apply setModeValue_frame.
Qed.

(** With an id on record for every declared mode, the per-mode loop
    converts the tokens of the declared modes, in order. *)
Lemma modesPass_outputs (variableId : string) (s : TransformState) :
  (forall m, m ∈ modes collection -> truthy (collectionModeIds !! m) = true) ->
  let calls :=
    flat_map (fun m => option_list (modeCall collection (ft_path ft) m))
      (modes collection) in
  mv_value <$> st_values (modesPass variableId s)
    = (mv_value <$> st_values s) ++ flat_map (fun c => option_list (convertedValue c)) calls
  /\ st_warnings (modesPass variableId s) = st_warnings s ++ flat_map callWarnings calls
  /\ st_skipped (modesPass variableId s) = st_skipped s ++ flat_map callSkipped calls.
Proof.
  intros Hids calls. unfold calls, modesPass. rewrite !flat_map_flat_map.
  repeat split.
  - apply (fold_left_flat_map (fun s0 => mv_value <$> st_values s0)).
    intros s0 m Hm. apply setModeValue_outputs. apply Hids. exact Hm.
  - apply (fold_left_flat_map st_warnings).
    intros s0 m Hm. apply setModeValue_outputs. apply Hids. exact Hm.
  - apply (fold_left_flat_map st_skipped).
    intros s0 m Hm. apply setModeValue_outputs. apply Hids. exact Hm.
Qed.

Lemma processToken_frame :
  idCounter st <= idCounter st'
  /\ st_collections st' = st_collections st /\ st_modes st' = st_modes st.
Proof.
  unfold st', processToken.
  destruct (bool_decide _); [simpl; auto|].
  destruct (TOKEN_TYPE_TO_FIGMA _) as [figmaType|]; [|simpl; auto].
  destruct (_ && _); [auto|].
  allocate_id.
  set (variableId := tempId _ _). set (st1 := mkState _ _ _).
  pose proof (modesPass_frame variableId st1) as H. unfold modesPass in H.
  destruct H as (Hc & Hcols & Hmodes & _).
  rewrite Hc, Hcols, Hmodes. simpl. auto.
Qed.

(** What processing one leaf of the default tree appends: the variable it
    becomes (if any), the values and warnings of its conversions, and its
    Skipped entries. *)
Lemma processToken_outputs :
  (forall m, m ∈ modes collection -> truthy (collectionModeIds !! m) = true) ->
  vc_name <$> st_variables st'
    = (vc_name <$> st_variables st) ++ leafVariableNames options ft
  /\ mv_value <$> st_values st'
     = (mv_value <$> st_values st)
       ++ flat_map (fun c => option_list (convertedValue c))
            (leafCalls options collection ft)
  /\ st_warnings st'
     = st_warnings st ++ flat_map callWarnings (leafCalls options collection ft)
  /\ st_skipped st' = st_skipped st ++ leafSkipped options collection ft.
Proof.
  intros Hids.
  unfold st', processToken, leafVariableNames, leafSkipped, leafCalls, becomesVariable.
  destruct (bool_decide (_ ∈ SKIP_TYPES)); simpl.
  { rewrite !app_nil_r. repeat split; reflexivity. }
  destruct (TOKEN_TYPE_TO_FIGMA _) as [figmaType|]; simpl.
  2: { rewrite !app_nil_r. repeat split; reflexivity. }
  destruct (_ && _); simpl.
  { rewrite !app_nil_r. repeat split; reflexivity. }
  allocate_id.
  set (variableId := tempId _ _). set (st1 := mkState _ _ _).
  pose proof (modesPass_frame variableId st1) as H. unfold modesPass in H.
  destruct H as (_ & _ & _ & Hvars).
  pose proof (modesPass_outputs variableId st1 Hids) as H. unfold modesPass in H.
  destruct H as (Hvalues & Hwarnings & Hskipped).
  rewrite Hvars, Hvalues, Hwarnings, Hskipped.
  unfold st1, st_variables, st_values, st_warnings, st_skipped. simpl.
  rewrite fmap_app. repeat split; reflexivity.
Qed.

End ProcessToken.

(** *** Synthetic ids *)

Lemma tempId_nonempty (prefix : string) (n : nat) : tempId prefix n <> EmptyString.
Proof. unfold tempId. destruct prefix; discriminate. Qed.

Lemma append_inj_r (s a b : string) : s +:+ a = s +:+ b -> a = b.
Proof.
  induction s as [|c s IH]; simpl; [auto|].
  intros [= H]. apply IH. exact H.
Qed.

(** Ids allocated under one prefix differ when the counter values do. *)
Lemma tempId_inj (prefix : string) (n m : nat) :
  tempId prefix n = tempId prefix m -> n = m.
Proof.
  unfold tempId. intros H.
  apply append_inj_r in H. injection H as H.
  apply (inj pretty). exact H.
Qed.

Lemma truthy_tempId (prefix : string) (n : nat) : truthy (Some (tempId prefix n)) = true.
Proof.
  simpl. rewrite bool_decide_eq_false_2 by apply tempId_nonempty. reflexivity.
Qed.

(** *** The pass creating the additional modes *)

Section CreateModes.

Variables (prefix : string) (collection : TokenCollection) (collectionId : string).

Let loop (ms : list string) (acc : gmap string string * TransformState) :=
  fold_left (createMode prefix collection collectionId) ms acc.

(** One mode-create per declared mode other than the default one, in
    declared order, each bound to the collection; nothing else changes. *)
Lemma createModes_spec (ms : list string) (ids : gmap string string)
    (st : TransformState) :
  idCounter st <= idCounter (snd (loop ms (ids, st)))
  /\ st_collections (snd (loop ms (ids, st))) = st_collections st
  /\ st_variables (snd (loop ms (ids, st))) = st_variables st
  /\ st_values (snd (loop ms (ids, st))) = st_values st
  /\ st_skipped (snd (loop ms (ids, st))) = st_skipped st
  /\ st_warnings (snd (loop ms (ids, st))) = st_warnings st
  /\ exists created,
       st_modes (snd (loop ms (ids, st))) = st_modes st ++ created
       /\ vmc_name <$> created = filter (fun m => m <> defaultMode collection) ms
       /\ Forall (fun m => vmc_variableCollectionId m = collectionId) created.
Proof.
  unfold loop. revert ids st.
  induction ms as [|m ms IH]; intros ids st; simpl.
  - repeat split; auto. exists []. rewrite app_nil_r. repeat split; constructor.
  - destruct (decide (m = defaultMode collection)) as [Hm|Hm].
    + destruct (IH ids st) as (Hc & Hcols & Hvars & Hvals & Hsk & Hw & created & H1 & H2 & H3).
      repeat split; auto. exists created. repeat split; auto.
      rewrite filter_cons_False by (intros Hne; apply Hne; exact Hm). exact H2.
    + allocate_id.
      set (modeId := tempId _ _). set (st1 := mkState _ _ _).
      destruct (IH (<[m := modeId]> ids) st1)
        as (Hc & Hcols & Hvars & Hvals & Hsk & Hw & created & H1 & H2 & H3).
      repeat split; auto.
      * simpl in Hc. lia.
      * exists (mkModeCreate CREATE modeId m collectionId :: created).
        repeat split.
        -- rewrite H1. unfold st1, st_modes. simpl. rewrite <- app_assoc. reflexivity.
        -- rewrite filter_cons_True by exact Hm. rewrite fmap_cons, H2. reflexivity.
        -- constructor; [reflexivity | exact H3].
Qed.

(** Once a mode has a non-empty id on record it keeps one. *)
Lemma createModes_keeps (ms : list string) (ids : gmap string string)
    (st : TransformState) (m : string) :
  truthy (ids !! m) = true -> truthy (fst (loop ms (ids, st)) !! m) = true.
Proof.
  unfold loop. revert ids st.
  induction ms as [|m' ms IH]; intros ids st Hm; simpl; [exact Hm|].
  destruct (decide (m' = defaultMode collection)); [apply IH; exact Hm|].
  allocate_id. apply IH.
  destruct (decide (m' = m)) as [->|Hne].
  - rewrite lookup_insert_eq. apply truthy_tempId.
  - rewrite lookup_insert_ne by exact Hne. exact Hm.
Qed.

(** After the pass every declared mode has a non-empty id on record,
    given that the default mode had one before. *)
Lemma createModes_ids (ms : list string) (ids : gmap string string)
    (st : TransformState) (m : string) :
  truthy (ids !! defaultMode collection) = true -> m ∈ ms ->
  truthy (fst (loop ms (ids, st)) !! m) = true.
Proof.
  unfold loop. revert ids st.
  induction ms as [|m' ms IH]; intros ids st Hdefault Hm; simpl.
  - apply elem_of_nil in Hm. contradiction.
  - apply elem_of_cons in Hm.
    destruct (decide (m' = defaultMode collection)) as [Hm'|Hm'].
    + destruct Hm as [->|Hm]; [|apply IH; assumption].
      rewrite Hm'. apply createModes_keeps. exact Hdefault.
    + allocate_id.
      destruct Hm as [->|Hm].
      * apply createModes_keeps. rewrite lookup_insert_eq. apply truthy_tempId.
      * apply IH; [|exact Hm].
        rewrite lookup_insert_ne by exact Hm'. exact Hdefault.
Qed.

End CreateModes.

(** *** The per-collection pass *)

Section ProcessCollection.

Variables (options : FigmaOutputAdapterOptions) (prefix : string).
Variables (st : TransformState) (collection : TokenCollection).

Let st' : TransformState := processCollection options prefix st collection.
Let collectionId : string := tempId (prefix +:+ "_col") (S (idCounter st)).
Let initialMode : string := tempId (prefix +:+ "_mode") (S (S (idCounter st))).

Let st1 : TransformState :=
  mkState (S (S (idCounter st)))
    (pushCollection
       (mkCollectionCreate CREATE collectionId
          (default (col_name collection)
             (collectionMapping options ≫= fun m => m !! col_name collection))
          initialMode)
       (requestBody st))
    (addCollection (report st)).

Let afterModes : gmap string string * TransformState :=
  fold_left (createMode prefix collection collectionId) (modes collection)
    (<[defaultMode collection := initialMode]> ∅, st1).

Let tokensPass (s : TransformState) : TransformState :=
  fold_left
    (processToken options prefix collection collectionId (fst afterModes))
    (defaultLeaves collection) s.

Lemma processCollection_unfold : st' = tokensPass (snd afterModes).
Proof.
  unfold st', processCollection, tokensPass, defaultLeaves, generateTempId.
  cbv beta iota zeta.
  fold collectionId. fold initialMode. fold st1. fold afterModes.
  destruct afterModes as [ids s]. simpl.
  destruct (tokens collection !! defaultMode collection); reflexivity.
Qed.

(** When the token loop starts every declared mode has a non-empty id on
    record, so no conversion is skipped for want of a mode id. *)
Lemma afterModes_ids (m : string) :
  m ∈ modes collection -> truthy (fst afterModes !! m) = true.
Proof.
  intros Hm. unfold afterModes. apply createModes_ids; [|exact Hm].
  rewrite lookup_insert_eq. apply truthy_tempId.
Qed.

Lemma tokensPass_frame (s : TransformState) :
  idCounter s <= idCounter (tokensPass s)
  /\ st_collections (tokensPass s) = st_collections s
  /\ st_modes (tokensPass s) = st_modes s.
Proof.
  unfold tokensPass.
  apply (fold_left_invariant
           (fun s' => idCounter s <= idCounter s'
                      /\ st_collections s' = st_collections s
                      /\ st_modes s' = st_modes s)); [auto|].
  intros s' ft _ (Hc & Hcols & Hmodes).
  destruct (processToken_frame options prefix collection collectionId
              (fst afterModes) s' ft) as (Hc' & Hcols' & Hmodes').
  rewrite Hcols', Hmodes'. repeat split; [lia | assumption | assumption].
Qed.

(** The pass allocates the collection's id from the next counter value,
    creates the collection and one mode per declared mode other than the
    default, all bound to that id. *)
Lemma processCollection_creates :
  S (S (idCounter st)) <= idCounter st'
  /\ (exists create,
        st_collections st' = st_collections st ++ [create]
        /\ vcc_id create = collectionId)
  /\ exists created,
       st_modes st' = st_modes st ++ created
       /\ vmc_name <$> created
          = filter (fun m => m <> defaultMode collection) (modes collection)
       /\ Forall (fun m => vmc_variableCollectionId m = collectionId) created.
Proof.
  rewrite processCollection_unfold.
  destruct (tokensPass_frame (snd afterModes)) as (Hc & Hcols & Hmodes).
  destruct (createModes_spec prefix collection collectionId (modes collection)
              (<[defaultMode collection := initialMode]> ∅) st1)
    as (Hc1 & Hcols1 & _ & _ & _ & _ & created & H1 & H2 & H3).
  fold afterModes in Hc1, Hcols1, H1.
  rewrite Hcols, Hmodes, Hcols1, H1. repeat split.
  - simpl in Hc1. lia.
  - eexists. split; reflexivity.
  - exists created. repeat split; assumption.
Qed.

(** What the pass appends to the variables, the mode values, the warnings
    and the Skipped entries: the outputs of its leaves, in order. *)
Lemma processCollection_outputs :
  vc_name <$> st_variables st'
    = (vc_name <$> st_variables st)
      ++ flat_map (leafVariableNames options) (defaultLeaves collection)
  /\ mv_value <$> st_values st'
     = (mv_value <$> st_values st)
       ++ flat_map (fun c => option_list (convertedValue c))
            (valueCalls options collection)
  /\ st_warnings st'
     = st_warnings st ++ flat_map callWarnings (valueCalls options collection)
  /\ st_skipped st'
     = st_skipped st
       ++ flat_map (leafSkipped options collection) (defaultLeaves collection).
Proof.
  rewrite processCollection_unfold. unfold tokensPass, valueCalls.
  rewrite !flat_map_flat_map.
  destruct (createModes_spec prefix collection collectionId (modes collection)
              (<[defaultMode collection := initialMode]> ∅) st1)
    as (_ & _ & Hvars1 & Hvals1 & Hsk1 & Hw1 & _).
  fold afterModes in Hvars1, Hvals1, Hsk1, Hw1.
  change (st_variables st) with (st_variables st1).
  change (st_values st) with (st_values st1).
  change (st_warnings st) with (st_warnings st1).
  change (st_skipped st) with (st_skipped st1).
  rewrite <- Hvars1, <- Hvals1, <- Hsk1, <- Hw1.
  repeat split.
  - apply (fold_left_flat_map (fun s => vc_name <$> st_variables s)).
    intros s ft _. apply processToken_outputs. apply afterModes_ids.
  - apply (fold_left_flat_map (fun s => mv_value <$> st_values s)).
    intros s ft _. apply processToken_outputs. apply afterModes_ids.
  - apply (fold_left_flat_map st_warnings).
    intros s ft _. apply processToken_outputs. apply afterModes_ids.
  - apply (fold_left_flat_map st_skipped).
    intros s ft _. apply processToken_outputs. apply afterModes_ids.
Qed.

End ProcessCollection.

(** *** The whole transformation *)

Section Transform.

Variables (theme : ThemeFile) (options : FigmaOutputAdapterOptions) (c0 : nat).

Let prefix : string :=
  if truthy (idPrefix options) then default EmptyString (idPrefix options) else "temp".

Let initial : TransformState :=
  mkState 0 emptyBody
    (setSourceCheck (meta theme ≫= figmaFileKey) (targetFileKey options)
       (default false (allowSourceOverwrite options)) newReport).

Let final : TransformState :=
  fold_left (processCollection options prefix) (collections theme) initial.

Lemma transform_unfold :
  fst (transformToFigmaVariables theme options c0)
  = mkResult (requestBody final) (report final).
Proof. reflexivity. Qed.

(** The four output lists of a transformation, as functions of the theme:
    variables by name, mode values by value, warnings and Skipped
    entries. *)
Lemma transform_outputs :
  vc_name <$> st_variables final
    = flat_map (fun c => flat_map (leafVariableNames options) (defaultLeaves c))
        (collections theme)
  /\ mv_value <$> st_values final
     = flat_map (fun c => option_list (convertedValue c))
         (flat_map (valueCalls options) (collections theme))
  /\ st_warnings final
     = flat_map callWarnings (flat_map (valueCalls options) (collections theme))
  /\ st_skipped final
     = flat_map (fun c => flat_map (leafSkipped options c) (defaultLeaves c))
         (collections theme).
Proof.
  rewrite !flat_map_flat_map. unfold final. repeat split.
  - rewrite (fold_left_flat_map (fun s => vc_name <$> st_variables s)
               (processCollection options prefix)
               (fun c => flat_map (leafVariableNames options) (defaultLeaves c)));
      [reflexivity|].
    intros s c _. apply processCollection_outputs.
  - rewrite (fold_left_flat_map (fun s => mv_value <$> st_values s)
               (processCollection options prefix)
               (fun c => flat_map (fun c => option_list (convertedValue c))
                           (valueCalls options c)));
      [reflexivity|].
    intros s c _. apply processCollection_outputs.
  - rewrite (fold_left_flat_map st_warnings (processCollection options prefix)
               (fun c => flat_map callWarnings (valueCalls options c)));
      [reflexivity|].
    intros s c _. apply processCollection_outputs.
  - rewrite (fold_left_flat_map st_skipped (processCollection options prefix)
               (fun c => flat_map (leafSkipped options c) (defaultLeaves c)));
      [reflexivity|].
    intros s c _. apply processCollection_outputs.
Qed.

End Transform.

(** ** Mode creation per collection *)

Lemma filter_all {A : Type} (P : A -> Prop) `{forall a, Decision (P a)} (l : list A) :
  Forall P l -> filter P l = l.
Proof.
  induction 1 as [|a l Ha _ IH]; [reflexivity|].
  rewrite filter_cons_True by exact Ha. rewrite IH. reflexivity.
Qed.

Lemma filter_none {A : Type} (P : A -> Prop) `{forall a, Decision (P a)} (l : list A) :
  Forall (fun a => ~ P a) l -> filter P l = [].
Proof.
  induction 1 as [|a l Ha _ IH]; [reflexivity|].
  rewrite filter_cons_False by exact Ha. exact IH.
Qed.

(** Dropping the one occurrence of an element of a duplicate-free list. *)
Lemma length_filter_other (d : string) (l : list string) :
  NoDup l -> d ∈ l -> length (filter (fun m => m <> d) l) = length l - 1.
Proof.
  induction l as [|a l IH]; intros Hnd Hin.
  - apply elem_of_nil in Hin. contradiction.
  - apply NoDup_cons in Hnd as [Ha Hnd].
    destruct (decide (a = d)) as [->|Hne].
    + rewrite filter_cons_False by (intros Hne; apply Hne; reflexivity).
      rewrite filter_all; [simpl; lia|].
      apply Forall_forall. intros m Hm ->. contradiction.
    + rewrite filter_cons_True by exact Hne. simpl.
      apply elem_of_cons in Hin as [->|Hin]; [contradiction|].
      rewrite IH by assumption.
      destruct l; [apply elem_of_nil in Hin; contradiction | simpl; lia].
Qed.

Section CollectionsPass.

Variables (options : FigmaOutputAdapterOptions) (prefix : string).

Lemma collections_pass (cs : list TokenCollection) (st : TransformState) :
  let st' := fold_left (processCollection options prefix) cs st in
  idCounter st <= idCounter st'
  /\ exists creates created,
       st_collections st' = st_collections st ++ creates
       /\ length creates = length cs
       /\ st_modes st' = st_modes st ++ created
       /\ Forall (boundTo prefix (idCounter st) (idCounter st')) created.
Proof.
  revert st. induction cs as [|c cs IH]; intros st; simpl.
  - split; [lia|]. exists [], []. rewrite !app_nil_r. repeat split. constructor.
  - destruct (processCollection_creates options prefix st c)
      as (Hc & (create & Hcols & Hid) & created & Hmodes & _ & Hbound).
    destruct (IH (processCollection options prefix st c))
      as (Hc' & creates & created' & Hcols' & Hlen & Hmodes' & Hbound').
    split; [lia|].
    exists (create :: creates), (created ++ created'). repeat split.
    + rewrite Hcols', Hcols, <- app_assoc. reflexivity.
    + simpl. rewrite Hlen. reflexivity.
    + rewrite Hmodes', Hmodes, <- app_assoc. reflexivity.
    + apply Forall_app. split.
      * eapply Forall_impl; [exact Hbound|].
        intros m Hm. exists (S (idCounter st)). split; [lia | exact Hm].
      * eapply Forall_impl; [exact Hbound'|].
        intros m (k & Hk & Hm). exists k. split; [lia | exact Hm].
Qed.

End CollectionsPass.

(** C8.  For every collection whose mode list is duplicate-free and
    contains its [defaultMode], the mode-create ops bound to that
    collection's id are exactly the declared modes other than the default
    one, in declared order, hence [|modes| - 1] of them; the default mode
    gets no mode-create of its own. *)
Theorem mode_creates_per_collection (theme : ThemeFile)
    (options : FigmaOutputAdapterOptions) (c0 i : nat) (collection : TokenCollection) :
  collections theme !! i = Some collection ->
  NoDup (modes collection) ->
  defaultMode collection ∈ modes collection ->
  let body := res_requestBody (fst (transformToFigmaVariables theme options c0)) in
  exists create,
    variableCollections body !! i = Some create
    /\ let own :=
         filter (fun m => vmc_variableCollectionId m = vcc_id create)
           (variableModes body) in
       vmc_name <$> own
         = filter (fun m => m <> defaultMode collection) (modes collection)
       /\ length own = length (modes collection) - 1.
Proof.
  intros Hi Hnd Hdefault body. unfold body. rewrite transform_unfold. simpl.
  set (prefix := if truthy (idPrefix options) then _ else _).
  set (initial := mkState 0 emptyBody _).
  rewrite <- (take_drop_middle _ _ _ Hi), fold_left_app. simpl.
  set (sA := fold_left _ (take i (collections theme)) initial).
  set (sB := processCollection options prefix sA collection).
  destruct (collections_pass options prefix (take i (collections theme)) initial)
    as (HcA & creates1 & created1 & Hcols1 & Hlen1 & Hmodes1 & Hbound1).
  fold sA in HcA, Hcols1, Hmodes1, Hbound1.
  destruct (processCollection_creates options prefix sA collection)
    as (HcB & (create & HcolsB & Hid) & created & HmodesB & Hnames & Hown).
  fold sB in HcB, HcolsB, HmodesB.
  destruct (collections_pass options prefix (drop (S i) (collections theme)) sB)
    as (HcC & creates2 & created2 & Hcols2 & _ & Hmodes2 & Hbound2).
  fold (st_collections (fold_left (processCollection options prefix)
                          (drop (S i) (collections theme)) sB)).
  fold (st_modes (fold_left (processCollection options prefix)
                    (drop (S i) (collections theme)) sB)).
  rewrite Hcols2, HcolsB, Hcols1, Hmodes2, HmodesB, Hmodes1. simpl.
  exists create. split.
  - rewrite <- app_assoc. simpl. apply list_lookup_middle.
    rewrite Hlen1. rewrite length_take_le; [reflexivity|].
    apply lookup_lt_Some in Hi. lia.
  - rewrite !filter_app.
    rewrite (filter_none _ created1), (filter_all _ created), (filter_none _ created2).
    + rewrite app_nil_r. simpl. split; [exact Hnames|].
      rewrite <- (length_fmap vmc_name), Hnames.
      apply length_filter_other; assumption.
    + eapply Forall_impl; [exact Hbound2|].
      intros m (k & Hk & Hm). rewrite Hm, Hid. intros Heq.
      apply tempId_inj in Heq. lia.
    + eapply Forall_impl; [exact Hown|].
      intros m Hm. rewrite Hm, Hid. reflexivity.
    + eapply Forall_impl; [exact Hbound1|].
      intros m (k & Hk & Hm). rewrite Hm, Hid. intros Heq.
      apply tempId_inj in Heq. lia.
Qed.

(** ** Referential consistency of the request body *)

Section RefOK.

Variables (cols : list VariableCollectionCreate) (ms : list VariableModeCreate).
Variables (vars : list VariableCreate) (vals : list VariableModeValue).

Lemma refOK_push_collection (c : VariableCollectionCreate) :
  refOK cols ms vars vals -> refOK (cols ++ [c]) ms vars vals.
Proof.
  intros (Hm & Hv & Hmv). repeat split.
  - eapply Forall_impl; [exact Hm|]. intros m Hin.
    rewrite fmap_app. apply elem_of_app. left. exact Hin.
  - eapply Forall_impl; [exact Hv|]. intros v Hin.
    rewrite fmap_app. apply elem_of_app. left. exact Hin.
  - eapply Forall_impl; [exact Hmv|]. intros mv [Hvar Hmode].
    split; [exact Hvar|]. destruct Hmode as [Hmode|Hmode]; [left; exact Hmode|].
    right. rewrite fmap_app. apply elem_of_app. left. exact Hmode.
Qed.

Lemma refOK_push_mode (m : VariableModeCreate) :
  vmc_variableCollectionId m ∈ vcc_id <$> cols ->
  refOK cols ms vars vals -> refOK cols (ms ++ [m]) vars vals.
Proof.
  intros Hin (Hm & Hv & Hmv). repeat split.
  - apply Forall_app. split; [exact Hm|]. constructor; [exact Hin | constructor].
  - exact Hv.
  - eapply Forall_impl; [exact Hmv|]. intros mv [Hvar Hmode].
    split; [exact Hvar|]. destruct Hmode as [Hmode|Hmode]; [|right; exact Hmode].
    left. rewrite fmap_app. apply elem_of_app. left. exact Hmode.
Qed.

Lemma refOK_push_variable (v : VariableCreate) :
  vc_variableCollectionId v ∈ vcc_id <$> cols ->
  refOK cols ms vars vals -> refOK cols ms (vars ++ [v]) vals.
Proof.
  intros Hin (Hm & Hv & Hmv). repeat split.
  - exact Hm.
  - apply Forall_app. split; [exact Hv|]. constructor; [exact Hin | constructor].
  - eapply Forall_impl; [exact Hmv|]. intros mv [Hvar Hmode].
    split; [|exact Hmode]. rewrite fmap_app. apply elem_of_app. left. exact Hvar.
Qed.

Lemma refOK_push_value (mv : VariableModeValue) :
  variableId mv ∈ vc_id <$> vars ->
  modeId mv ∈ vmc_id <$> ms \/ modeId mv ∈ initialModeId <$> cols ->
  refOK cols ms vars vals -> refOK cols ms vars (vals ++ [mv]).
Proof.
  intros Hvar Hmode (Hm & Hv & Hmv). repeat split; [exact Hm | exact Hv|].
  apply Forall_app. split; [exact Hmv|]. constructor; [|constructor].
  split; assumption.
Qed.

End RefOK.

Section RefConsistency.

Variables (options : FigmaOutputAdapterOptions) (prefix : string).
Variables (collection : TokenCollection) (collectionId : string).

Lemma setModeValue_inv (ids : gmap string string) (path : list string)
    (variableId : string) (st : TransformState) (modeName : string) :
  collectionInv collectionId ids st /\ variableId ∈ vc_id <$> st_variables st ->
  collectionInv collectionId ids (setModeValue collection path variableId ids st modeName)
  /\ variableId
       ∈ vc_id <$> st_variables (setModeValue collection path variableId ids st modeName).
Proof.
  intros [(Href & Hcid & Hids) Hvar].
  destruct (setModeValue_frame collection path variableId ids st modeName)
    as (_ & Hcols & Hmodes & Hvars).
  pose proof (setModeValue_values collection path variableId ids st modeName) as Hvals.
  set (st' := setModeValue collection path variableId ids st modeName) in *.
  unfold collectionInv, refConsistent in *.
  unfold st_collections, st_modes, st_variables, st_values in *.
  rewrite Hcols, Hmodes, Hvars.
  split; [split; [|split; assumption] | exact Hvar].
  destruct Hvals as [-> | (id & value & Hid & ->)]; [exact Href|].
  apply refOK_push_value; [exact Hvar | | exact Href].
  simpl. apply (Hids modeName). exact Hid.
Qed.

Lemma processToken_inv (ids : gmap string string) (st : TransformState)
    (ft : FlattenedToken) :
  collectionInv collectionId ids st ->
  collectionInv collectionId ids (processToken options prefix collection collectionId ids st ft).
Proof.
  intros Hinv. unfold processToken.
  destruct (bool_decide _); [exact Hinv|].
  destruct (TOKEN_TYPE_TO_FIGMA _) as [figmaType|]; [|exact Hinv].
  destruct (_ && _); [exact Hinv|].
  allocate_id.
  set (variableId := tempId _ _). set (st1 := mkState _ _ _).
  apply (fold_left_invariant
           (fun s => collectionInv collectionId ids s /\ variableId ∈ vc_id <$> st_variables s)).
  - destruct Hinv as (Href & Hcid & Hids).
    unfold collectionInv, refConsistent, st1, st_collections, st_modes, st_variables.
    simpl. split; [split; [|split; assumption]|].
    + apply refOK_push_variable; [exact Hcid | exact Href].
    + rewrite fmap_app. apply elem_of_app. right. simpl. left.
  - intros s m _ Hs. apply setModeValue_inv. exact Hs.
Qed.

Lemma createMode_inv (ids : gmap string string) (st : TransformState)
    (modeName : string) :
  collectionInv collectionId ids st ->
  collectionInv collectionId (fst (createMode prefix collection collectionId (ids, st) modeName))
    (snd (createMode prefix collection collectionId (ids, st) modeName)).
Proof.
  intros (Href & Hcid & Hids). unfold createMode.
  destruct (decide _); [split; [|split]; assumption|].
  allocate_id. simpl.
  unfold collectionInv, refConsistent, st_collections, st_modes. simpl.
  split; [|split]; [|exact Hcid|].
  - apply refOK_push_mode; [exact Hcid | exact Href].
  - intros m id Hm. rewrite fmap_app.
    destruct (decide (modeName = m)) as [->|Hne].
    + rewrite lookup_insert_eq in Hm. injection Hm as <-.
      left. apply elem_of_app. right. simpl. left.
    + rewrite lookup_insert_ne in Hm by exact Hne.
      destruct (Hids m id Hm) as [H|H]; [|right; exact H].
      left. apply elem_of_app. left. exact H.
Qed.

End RefConsistency.

Lemma processCollection_inv (options : FigmaOutputAdapterOptions) (prefix : string)
    (st : TransformState) (collection : TokenCollection) :
  refConsistent (requestBody st) ->
  refConsistent (requestBody (processCollection options prefix st collection)).
Proof.
  intros Href. unfold processCollection, generateTempId. cbv beta iota zeta.
  set (collectionId := tempId (prefix +:+ "_col") _).
  set (initialMode := tempId (prefix +:+ "_mode") _).
  set (st1 := mkState _ _ _).
  set (ids0 := <[defaultMode collection := initialMode]> ∅).
  assert (collectionInv collectionId ids0 st1) as Hinv1.
  { unfold collectionInv, refConsistent, st1, st_collections, st_modes. simpl.
    split; [|split].
    - apply refOK_push_collection. exact Href.
    - rewrite fmap_app. apply elem_of_app. right. simpl. left.
    - intros m id Hm. unfold ids0 in Hm.
      apply lookup_insert_Some in Hm as [[_ <-] | [_ Hm]].
      + right. rewrite fmap_app. apply elem_of_app. right. simpl. left.
      + rewrite lookup_empty in Hm. discriminate. }
  assert (collectionInv collectionId
            (fst (fold_left (createMode prefix collection collectionId)
                    (modes collection) (ids0, st1)))
            (snd (fold_left (createMode prefix collection collectionId)
                    (modes collection) (ids0, st1)))) as Hinv2.
  { apply (fold_left_invariant
             (fun acc => collectionInv collectionId (fst acc) (snd acc)));
      [exact Hinv1|].
    intros [ids s] m _ Hs. apply createMode_inv. exact Hs. }
  destruct (fold_left (createMode prefix collection collectionId)
              (modes collection) (ids0, st1)) as [ids st2].
  simpl in Hinv2.
  destruct (tokens collection !! defaultMode collection) as [defaultTokens|];
    [|apply Hinv2].
  apply (fold_left_invariant (collectionInv collectionId ids)); [exact Hinv2|].
  intros s ft _ Hs. apply processToken_inv. exact Hs.
Qed.

(** C10.  The request body is referentially consistent: every
    variable-create's and mode-create's [variableCollectionId] is the id of
    a collection-create of the same batch, and every mode-value entry's
    [variableId] is the id of a variable-create of the batch and its
    [modeId] the id of a mode-create or the [initialModeId] of a
    collection-create of the batch. *)
Theorem request_body_referentially_consistent (theme : ThemeFile)
    (options : FigmaOutputAdapterOptions) (c0 : nat) :
  let body := res_requestBody (fst (transformToFigmaVariables theme options c0)) in
  Forall (fun v => vc_variableCollectionId v ∈ vcc_id <$> variableCollections body)
    (variables body)
  /\ Forall (fun m => vmc_variableCollectionId m ∈ vcc_id <$> variableCollections body)
       (variableModes body)
  /\ Forall (fun mv =>
               variableId mv ∈ vc_id <$> variables body
               /\ (modeId mv ∈ vmc_id <$> variableModes body
                   \/ modeId mv ∈ initialModeId <$> variableCollections body))
       (variableModeValues body).
Proof.
  intros body.
  assert (refConsistent body) as (Hm & Hv & Hmv); [|repeat split; assumption].
  unfold body. rewrite transform_unfold. simpl.
  apply (fold_left_invariant (fun s => refConsistent (requestBody s))).
  - repeat split; constructor.
  - intros s c _ Hs. apply processCollection_inv. exact Hs.
Qed.

(** ** The scenarios of the test suite *)

Example minimalTheme_transformed :
  let body := res_requestBody (fst (transformToFigmaVariables minimalTheme defaultOptions 0)) in
  map vcc_name (variableCollections body) = ["primitives"]
  /\ variableModes body = []
  /\ map vc_name (variables body) = ["color/red"; "color/blue"]
  /\ map mv_value (variableModeValues body)
     = [VRGBA (mkRGBA 1 0 0 1); VRGBA (mkRGBA 0 0 1 1)].
Proof. vm_compute. repeat split. Qed.

Example multiModeTheme_transformed :
  let body := res_requestBody (fst (transformToFigmaVariables multiModeTheme defaultOptions 0)) in
  map vmc_name (variableModes body) = ["dark"]
  /\ length (variableModeValues body) = 4.
Proof. vm_compute. repeat split. Qed.

Example mixedTypesTheme_transformed :
  let result := fst (transformToFigmaVariables mixedTypesTheme defaultOptions 0) in
  map (fun mv => (variableId mv, mv_value mv)) (variableModeValues (res_requestBody result))
  = [ ("temp_var_3", VNum 8); ("temp_var_4", VNum 32);
      ("temp_var_5", VStr "Inter"); ("temp_var_6", VNum 700) ]%R
  /\ warnings (res_report result)
     = [ mkWarning UNIT_DISCARDED "Unit 'rem' discarded, stored as raw number"
           (Some "tokens.default.spacing.large");
         mkWarning VALUE_TRUNCATED "Font stack truncated to first family: Inter"
           (Some "tokens.default.font.family") ]
  /\ map s_path (skipped (res_report result)) = ["shadow.card"].
Proof. vm_compute. repeat split. Qed.

(** C8 at the light/dark scenario: one mode-create, ["dark"]. *)
Lemma mode_creates_per_collection_witness :
  let body := res_requestBody (fst (transformToFigmaVariables multiModeTheme defaultOptions 0)) in
  exists create,
    variableCollections body !! 0 = Some create
    /\ let own :=
         filter (fun m => vmc_variableCollectionId m = vcc_id create)
           (variableModes body) in
       vmc_name <$> own = filter (fun m => m <> "light") ["light"; "dark"]
       /\ length own = 2 - 1.
Proof.
  apply (mode_creates_per_collection multiModeTheme defaultOptions 0 0 multiModeCollection).
  - reflexivity.
  - apply (bool_decide_unpack _). vm_compute. exact I.
  - apply (bool_decide_unpack _). vm_compute. exact I.
Defined.

(** ** Composite styles *)

(** *** Tokens with literal values *)

(** Induction on token trees: a group holds its property when all its
    children do. *)
Lemma TokenNode_nested_ind (P : TokenNode -> Prop) :
  (forall token, P (Leaf token)) ->
  (forall group, Forall (fun entry => P (snd entry)) group -> P (Group group)) ->
  forall node, P node.
Proof.
  intros HLeaf HGroup. fix IH 1. intros [token|group].
  - apply HLeaf.
  - apply HGroup. induction group as [|[key value] rest IHrest]; constructor.
    + apply IH.
    + exact IHrest.
Qed.

Lemma styleFold_error (leaves : list FlattenedToken) (e : JsError) :
  styleFold leaves (inl e) = inl e.
Proof. induction leaves as [|ft leaves IH]; simpl; [reflexivity | exact IH]. Qed.

Lemma styleFold_app (l1 l2 : list FlattenedToken) (acc : JsError + StyleState) :
  styleFold (l1 ++ l2) acc = styleFold l2 (styleFold l1 acc).
Proof. unfold styleFold. apply fold_left_app. Qed.

(** The style walk visits the leaves [flattenTokens] lists, in the same
    order. *)
Lemma traverseNode_flatten (collectionName : string) (node : TokenNode) :
  forall path st,
    traverseNode node path collectionName st
    = styleFold (flattenNode node path) (inr st).
Proof.
  induction node as [token|group IH] using TokenNode_nested_ind; intros path st.
  - reflexivity.
  - revert st. induction IH as [|[key value] rest Hvalue _ IHrest]; intros st.
    + reflexivity.
    + change (traverseNode (Group ((key, value) :: rest)) path collectionName st)
        with (if startsWith key "$" then traverseNode (Group rest) path collectionName st
              else
                match traverseNode value (path ++ [key]) collectionName st with
                | inl e => inl e
                | inr st' => traverseNode (Group rest) path collectionName st'
                end).
      change (flattenNode (Group ((key, value) :: rest)) path)
        with ((if startsWith key "$" then [] else flattenNode value (path ++ [key]))
              ++ flattenNode (Group rest) path).
      rewrite styleFold_app.
      destruct (startsWith key "$"); [apply IHrest|].
      simpl in Hvalue. rewrite <- Hvalue.
      destruct (traverseNode value (path ++ [key]) collectionName st) as [e|st'].
      * rewrite styleFold_error. reflexivity.
      * apply IHrest.
Qed.

Lemma extractStyleTokens_flatten (theme : ThemeFile) (rep : TransformationReportBuilder) :
  extractStyleTokens theme rep
  = styleFold (flat_map defaultLeaves (collections theme))
      (inr (mkStyleState (mkStyleResult [] [] []) rep)).
Proof.
  unfold extractStyleTokens.
  generalize (inr (mkStyleState (mkStyleResult [] [] []) rep) : JsError + StyleState).
  induction (collections theme) as [|c cs IH]; intros acc; simpl; [reflexivity|].
  rewrite styleFold_app, IH. f_equal.
  unfold defaultLeaves, traverseForStyles, flattenTokens.
  destruct acc as [e|st].
  - rewrite styleFold_error. reflexivity.
  - destruct (tokens c !! defaultMode c) as [defaultTokens|]; [|reflexivity].
    apply traverseNode_flatten.
Qed.

Lemma styleCount_addStyle (kind kind' : string) (rep : TransformationReportBuilder) :
  styleCount kind (addStyle kind' rep)
  = styleCount kind rep + (if decide (kind' = kind) then 1 else 0).
Proof.
  unfold styleCount, addStyle. simpl.
  destruct (decide (kind' = kind)) as [->|Hne].
  - rewrite lookup_insert_eq. simpl. lia.
  - rewrite lookup_insert_ne by exact Hne. lia.
Qed.

(** A leaf is processed unless it is of a style kind and holds a
    reference: a leaf of a style kind appends one CREATE entry under its
    kind, named after its path, and bumps that kind's counter; any other
    leaf changes nothing. *)
Lemma styleForToken_literal (ft : FlattenedToken) (st : StyleState) :
  (styleKind (t_type (ft_token ft)) <> None -> aliased (ft_token ft) = false) ->
  exists st',
    styleForToken (join "/" (ft_path ft)) (ft_token ft) st = inr st'
    /\ forall kind,
         styleEntryNames kind (style_result st')
         = styleEntryNames kind (style_result st) ++ styleNames kind ft
         /\ styleCount kind (style_report st')
            = styleCount kind (style_report st) + length (styleNames kind ft).
Proof.
  destruct ft as [path [ty value description ext]].
  unfold styleNames, aliased. simpl. intros Hliteral.
  destruct ty;
    try (exists st; split; [destruct value; reflexivity|]; intros kind; simpl;
         rewrite app_nil_r; split; [reflexivity | lia]);
    (destruct value as [value|reference];
       [|discriminate Hliteral; discriminate]);
    (eexists; split; [reflexivity|]; intros kind; simpl;
     rewrite styleCount_addStyle; unfold styleEntryNames; simpl;
     repeat case_decide; simplify_eq;
     rewrite ?fmap_app, ?app_nil_r; simpl; split; (reflexivity || lia)).
Qed.

Lemma styleFold_literal (leaves : list FlattenedToken) (st : StyleState) :
  Forall (fun ft => styleKind (t_type (ft_token ft)) <> None ->
                    aliased (ft_token ft) = false) leaves ->
  exists st',
    styleFold leaves (inr st) = inr st'
    /\ forall kind,
         styleEntryNames kind (style_result st')
         = styleEntryNames kind (style_result st) ++ flat_map (styleNames kind) leaves
         /\ styleCount kind (style_report st')
            = styleCount kind (style_report st)
              + length (flat_map (styleNames kind) leaves).
Proof.
  intros Hleaves. revert st.
  induction Hleaves as [|ft leaves Hft _ IH]; intros st; simpl.
  - exists st. split; [reflexivity|]. intros kind.
    rewrite app_nil_r. split; [reflexivity | lia].
  - destruct (styleForToken_literal ft st Hft) as (st1 & -> & Hstep).
    destruct (IH st1) as (st' & Hfold & Hrest).
    exists st'. split; [exact Hfold|]. intros kind.
    destruct (Hstep kind) as [Hn1 Hc1]. destruct (Hrest kind) as [Hn Hc].
    rewrite Hn, Hn1, Hc, Hc1, length_app, app_assoc. split; [reflexivity | lia].
Qed.

(** What does hold of the style path: on a theme whose typography, shadow
    and gradient tokens all hold literal values, [extractStyleTokens]
    returns, with one CREATE entry per such token of the default-mode
    trees, in walk order and named after the token's path, and with each
    kind's counter raised by the number of its entries. *)
Lemma extractStyleTokens_literal (theme : ThemeFile) (rep : TransformationReportBuilder) :
  let leaves := flat_map defaultLeaves (collections theme) in
  Forall (fun ft => styleKind (t_type (ft_token ft)) <> None ->
                    aliased (ft_token ft) = false) leaves ->
  exists st,
    extractStyleTokens theme rep = inr st
    /\ forall kind,
         styleEntryNames kind (style_result st) = flat_map (styleNames kind) leaves
         /\ styleCount kind (style_report st)
            = styleCount kind rep + length (flat_map (styleNames kind) leaves).
Proof.
  intros leaves Hleaves. rewrite extractStyleTokens_flatten. fold leaves.
  destruct (styleFold_literal leaves (mkStyleState (mkStyleResult [] [] []) rep) Hleaves)
    as (st & Hfold & Hout).
  exists st. split; [exact Hfold|]. intros kind.
  destruct (Hout kind) as [Hnames Hcount]. split; [|exact Hcount].
  rewrite Hnames. unfold styleEntryNames. simpl.
  repeat case_decide; reflexivity.
Qed.

Example mixedTypesTheme_styles :
  match extractStyleTokens mixedTypesTheme newReport with
  | inr st =>
      styleEntryNames "effect" (style_result st) = ["shadow/card"]
      /\ styleCount "effect" (style_report st) = 1
      /\ textStyles (style_result st) = [] /\ paintStyles (style_result st) = []
  | inl _ => False
  end.
Proof. vm_compute. repeat split. Qed.

(** *** Tokens holding a reference *)

(** C2, the failing input.  On a theme whose default-mode tree holds a
    typography token with a reference as its value, [extractStyleTokens]
    raises a [TypeError] instead of processing the token: the value is
    cast to [TypographyValue] unchecked and [value.fontFamily[0]] indexes
    [undefined]. *)
Lemma extractStyleTokens_reference_throws :
  extractStyleTokens aliasedTypographyTheme newReport
  = inl (TypeError "Cannot read properties of undefined (reading '0')").
Proof. vm_compute. reflexivity. Qed.

(* ===================================================================== *)
(** * Further properties *)
(* ===================================================================== *)

(** ** Invariants of the write path *)

(** A property of the state that the collection-create, every mode-create
    and every token pass keep is kept by the pass over a collection. *)
Lemma processCollection_invariant (P : TransformState -> Prop)
    (options : FigmaOutputAdapterOptions) (prefix : string)
    (st : TransformState) (collection : TokenCollection) :
  P (mkState (S (S (idCounter st)))
       (pushCollection
          (mkCollectionCreate CREATE (tempId (prefix +:+ "_col") (S (idCounter st)))
             (createdName options collection)
             (tempId (prefix +:+ "_mode") (S (S (idCounter st)))))
          (requestBody st))
       (addCollection (report st))) ->
  (forall cid ids s m, P s -> P (snd (createMode prefix collection cid (ids, s) m))) ->
  (forall cid ids s ft, P s -> P (processToken options prefix collection cid ids s ft)) ->
  P (processCollection options prefix st collection).
Proof.
  intros Hstart Hmode Htoken. rewrite processCollection_unfold.
  apply fold_left_invariant.
  - apply (fold_left_invariant (fun acc => P (snd acc))); [exact Hstart|].
    intros [ids s] m _ Hs. apply Hmode. exact Hs.
  - intros s ft _ Hs. apply Htoken. exact Hs.
Qed.

(** The same for the whole transformation. *)
Lemma transform_invariant (P : TransformState -> Prop) (theme : ThemeFile)
    (options : FigmaOutputAdapterOptions) (c0 : nat) :
  P (mkState 0 emptyBody
       (setSourceCheck (meta theme ≫= figmaFileKey) (targetFileKey options)
          (default false (allowSourceOverwrite options)) newReport)) ->
  (forall s c, P s -> P (processCollection options (idPrefixOf options) s c)) ->
  exists final,
    transformToFigmaVariables theme options c0
      = (mkResult (requestBody final) (report final), idCounter final)
    /\ P final.
Proof.
  intros Hstart Hstep. eexists. split; [reflexivity|].
  apply fold_left_invariant; [exact Hstart|].
  intros s c _ Hs. apply Hstep. exact Hs.
Qed.

(** *** Counters of the report *)

Ltac counts :=
  unfold statsAgree, countsAgree, st_collections, st_modes, st_variables,
    st_values, st_skipped, st_warnings in *;
  simpl in *; rewrite ?length_app; simpl; intuition lia.

Lemma tokenValueToFigma_stats (token : Token) (rep : TransformationReportBuilder)
    (path : string) :
  let rep' := snd (tokenValueToFigma token rep path) in
  collectionsCreated (stats rep') = collectionsCreated (stats rep)
  /\ modesCreated (stats rep') = modesCreated (stats rep)
  /\ variablesCreated (stats rep') = variablesCreated (stats rep)
  /\ valuesSet (stats rep') = valuesSet (stats rep)
  /\ sourceCheck rep' = sourceCheck rep
  /\ (countsAgree rep -> countsAgree rep').
Proof.
  destruct token as [ty [v|reference] description ext]; simpl.
  - destruct ty; simpl; try tauto.
    + unfold dimensionToNumber. destruct (decide _); simpl; [tauto|].
      repeat split; try reflexivity; counts.
    + destruct (decide _); simpl; [|tauto].
      repeat split; try reflexivity; counts.
  - destruct ty; simpl; (repeat split; try reflexivity; counts).
Qed.

Lemma setModeValue_stats (collection : TokenCollection) (path : list string)
    (variableId : string) (ids : gmap string string) (st : TransformState)
    (modeName : string) :
  statsAgree st -> statsAgree (setModeValue collection path variableId ids st modeName).
Proof.
  intros Hst. unfold setModeValue.
  destruct (tokens collection !! modeName); [|exact Hst].
  destruct (findModeToken _ _) as [modeToken|]; [|exact Hst].
  destruct (truthy _); [|exact Hst].
  pose proof (tokenValueToFigma_stats modeToken (report st)
                (col_name collection +:+ "." +:+ modeName +:+ "." +:+ join "." path))
    as (H1 & H2 & H3 & H4 & _ & H5).
  destruct (tokenValueToFigma _ _ _) as [[value|] rep]; simpl in *.
  - assert (countsAgree rep) by (apply H5; apply Hst). counts.
  - assert (countsAgree rep) by (apply H5; apply Hst). counts.
Qed.

Lemma processToken_stats (options : FigmaOutputAdapterOptions) (prefix : string)
    (collection : TokenCollection) (cid : string) (ids : gmap string string)
    (st : TransformState) (ft : FlattenedToken) :
  statsAgree st -> statsAgree (processToken options prefix collection cid ids st ft).
Proof.
  intros Hst. unfold processToken.
  destruct (bool_decide _); [counts|].
  destruct (TOKEN_TYPE_TO_FIGMA _); [|counts].
  destruct (_ && _); [exact Hst|].
  allocate_id. apply fold_left_invariant; [counts|].
  intros s m _ Hs. apply setModeValue_stats. exact Hs.
Qed.

Lemma createMode_stats (prefix : string) (collection : TokenCollection) (cid : string)
    (ids : gmap string string) (st : TransformState) (m : string) :
  statsAgree st -> statsAgree (snd (createMode prefix collection cid (ids, st) m)).
Proof.
  intros Hst. unfold createMode.
  destruct (decide _); [exact Hst|]. allocate_id. counts.
Qed.

Lemma processCollection_stats (options : FigmaOutputAdapterOptions) (prefix : string)
    (st : TransformState) (collection : TokenCollection) :
  statsAgree st -> statsAgree (processCollection options prefix st collection).
Proof.
  intros Hst. apply processCollection_invariant.
  - counts.
  - intros cid ids s m. apply createMode_stats.
  - intros cid ids s ft. apply processToken_stats.
Qed.

(** The counters of the report a transformation returns are the sizes of
    what it returns: one collection, mode, variable and value counted per
    op of the request body, one skip per Skipped entry and one warning per
    Warning. *)
Theorem transform_stats_count_outputs (theme : ThemeFile)
    (options : FigmaOutputAdapterOptions) (c0 : nat) :
  let result := fst (transformToFigmaVariables theme options c0) in
  let body := res_requestBody result in
  let counters := stats (res_report result) in
  collectionsCreated counters = length (variableCollections body)
  /\ modesCreated counters = length (variableModes body)
  /\ variablesCreated counters = length (variables body)
  /\ valuesSet counters = length (variableModeValues body)
  /\ stat_skipped counters = length (skipped (res_report result))
  /\ stat_warnings counters = length (warnings (res_report result)).
Proof.
  destruct (transform_invariant statsAgree theme options c0) as (final & -> & Hfinal).
  - counts.
  - intros s c. apply processCollection_stats.
  - simpl. unfold statsAgree, countsAgree in Hfinal. tauto.
Qed.

(** Whatever is called on a fresh report builder, and in whatever order,
    the skipped and warning counters are the lengths of the two lists. *)
Theorem report_counters_match_lists (calls : list ReportCall) :
  let rep := fold_left callReport calls newReport in
  stat_skipped (stats rep) = length (skipped rep)
  /\ stat_warnings (stats rep) = length (warnings rep).
Proof.
  apply (fold_left_invariant countsAgree).
  - split; reflexivity.
  - intros rep c _ Hrep. destruct c; counts.
Qed.
(** *** Synthetic ids *)

Lemma freshUpTo_mono (prefix : string) (n m : nat) (ids : list string) :
  n <= m -> freshUpTo prefix n ids -> freshUpTo prefix m ids.
Proof.
  intros Hnm [Hnd Hall]. split; [exact Hnd|].
  eapply Forall_impl; [exact Hall|].
  intros id (k & Hk & ->). exists k. split; [lia | reflexivity].
Qed.

Lemma freshUpTo_push (prefix : string) (n : nat) (ids : list string) :
  freshUpTo prefix n ids -> freshUpTo prefix (S n) (ids ++ [tempId prefix (S n)]).
Proof.
  intros [Hnd Hall]. split.
  - apply NoDup_app. split; [exact Hnd|]. split; [|apply NoDup_singleton].
    intros id Hid Hnew. apply list_elem_of_singleton in Hnew. subst id.
    rewrite Forall_forall in Hall. destruct (Hall _ Hid) as (k & Hk & Heq).
    apply tempId_inj in Heq. lia.
  - apply Forall_app. split.
    + eapply Forall_impl; [exact Hall|].
      intros id (k & Hk & ->). exists k. split; [lia | reflexivity].
    + constructor; [|constructor]. exists (S n). split; [lia | reflexivity].
Qed.

Lemma freshUpTo_perm (prefix : string) (n : nat) (ids ids' : list string) :
  ids ≡ₚ ids' -> freshUpTo prefix n ids -> freshUpTo prefix n ids'.
Proof. intros Hperm [Hnd Hall]. split; rewrite <- Hperm; assumption. Qed.

Lemma setModeValue_ids (prefix : string) (collection : TokenCollection)
    (path : list string) (variableId : string) (ids : gmap string string)
    (st : TransformState) (modeName : string) :
  idsInv prefix st ->
  idsInv prefix (setModeValue collection path variableId ids st modeName).
Proof.
  unfold idsInv.
  destruct (setModeValue_frame collection path variableId ids st modeName)
    as (-> & -> & -> & ->).
  tauto.
Qed.

Lemma processToken_ids (options : FigmaOutputAdapterOptions) (prefix : string)
    (collection : TokenCollection) (cid : string) (ids : gmap string string)
    (st : TransformState) (ft : FlattenedToken) :
  idsInv prefix st ->
  idsInv prefix (processToken options prefix collection cid ids st ft).
Proof.
  intros Hst. unfold processToken.
  destruct (bool_decide _); [exact Hst|].
  destruct (TOKEN_TYPE_TO_FIGMA _); [|exact Hst].
  destruct (_ && _); [exact Hst|].
  allocate_id. apply fold_left_invariant.
  - destruct Hst as (Hcount & Hcols & Hmodes & Hvars).
    unfold idsInv, st_collections, st_modes, st_variables in *. simpl.
    rewrite length_app, fmap_app. simpl. split; [|split; [|split]].
    + lia.
    + apply (freshUpTo_mono _ (idCounter st)); [lia | exact Hcols].
    + apply (freshUpTo_mono _ (idCounter st)); [lia | exact Hmodes].
    + apply freshUpTo_push. exact Hvars.
  - intros s m _ Hs. apply setModeValue_ids. exact Hs.
Qed.

Lemma createMode_ids (prefix : string) (collection : TokenCollection) (cid : string)
    (ids : gmap string string) (st : TransformState) (m : string) :
  idsInv prefix st -> idsInv prefix (snd (createMode prefix collection cid (ids, st) m)).
Proof.
  intros Hst. unfold createMode.
  destruct (decide _); [exact Hst|]. allocate_id.
  destruct Hst as (Hcount & Hcols & Hmodes & Hvars).
  unfold idsInv, allModeIds, st_collections, st_modes, st_variables in *. simpl.
  rewrite length_app, fmap_app. simpl. split; [|split; [|split]].
  - lia.
  - apply (freshUpTo_mono _ (idCounter st)); [lia | exact Hcols].
  - eapply freshUpTo_perm; [|apply freshUpTo_push; exact Hmodes].
    rewrite <- !app_assoc. apply Permutation_app_head, Permutation_app_comm.
  - apply (freshUpTo_mono _ (idCounter st)); [lia | exact Hvars].
Qed.

Lemma processCollection_ids (options : FigmaOutputAdapterOptions) (prefix : string)
    (st : TransformState) (collection : TokenCollection) :
  idsInv prefix st -> idsInv prefix (processCollection options prefix st collection).
Proof.
  intros Hst. apply processCollection_invariant.
  - destruct Hst as (Hcount & Hcols & Hmodes & Hvars).
    unfold idsInv, allModeIds, st_collections, st_modes, st_variables in *. simpl.
    rewrite length_app, !fmap_app. simpl. split; [|split; [|split]].
    + lia.
    + apply (freshUpTo_mono _ (S (idCounter st))); [lia|].
      apply freshUpTo_push. exact Hcols.
    + rewrite app_assoc. apply freshUpTo_push.
      apply (freshUpTo_mono _ (idCounter st)); [lia | exact Hmodes].
    + apply (freshUpTo_mono _ (idCounter st)); [lia | exact Hvars].
  - intros cid ids s m. apply createMode_ids.
  - intros cid ids s ft. apply processToken_ids.
Qed.

Lemma transform_ids (theme : ThemeFile) (options : FigmaOutputAdapterOptions) (c0 : nat) :
  exists final,
    transformToFigmaVariables theme options c0
      = (mkResult (requestBody final) (report final), idCounter final)
    /\ idsInv (idPrefixOf options) final.
Proof.
  apply transform_invariant.
  - split; [reflexivity|]. repeat split; try (apply NoDup_nil_2); constructor.
  - intros s c. apply processCollection_ids.
Qed.

(** No synthetic id is handed out twice in a batch: the collection ids are
    pairwise distinct, so are the variable ids, and so are the mode ids,
    initial modes of the collections included. *)
Theorem synthetic_ids_distinct (theme : ThemeFile)
    (options : FigmaOutputAdapterOptions) (c0 : nat) :
  let body := res_requestBody (fst (transformToFigmaVariables theme options c0)) in
  NoDup (vcc_id <$> variableCollections body)
  /\ NoDup (vc_id <$> variables body)
  /\ NoDup ((vmc_id <$> variableModes body)
            ++ (initialModeId <$> variableCollections body)).
Proof.
  destruct (transform_ids theme options c0)
    as (final & -> & _ & [Hcols _] & [Hmodes _] & [Hvars _]).
  simpl. repeat split; assumption.
Qed.

(** The id counter a transformation leaves behind is the number of ids in
    its batch: two per collection (its own and its initial mode's), one per
    further mode and one per variable. *)
Theorem counter_counts_ids (theme : ThemeFile)
    (options : FigmaOutputAdapterOptions) (c0 : nat) :
  let result := transformToFigmaVariables theme options c0 in
  let body := res_requestBody (fst result) in
  snd result
  = 2 * length (variableCollections body) + length (variableModes body)
    + length (variables body).
Proof.
  destruct (transform_ids theme options c0) as (final & -> & Hcount & _).
  exact Hcount.
Qed.
(** *** Collections *)

Lemma processCollection_names (options : FigmaOutputAdapterOptions) (prefix : string)
    (st : TransformState) (collection : TokenCollection) :
  vcc_name <$> st_collections (processCollection options prefix st collection)
  = (vcc_name <$> st_collections st) ++ [createdName options collection].
Proof.
  apply (processCollection_invariant
           (fun s => vcc_name <$> st_collections s
                     = (vcc_name <$> st_collections st)
                       ++ [createdName options collection])).
  - unfold st_collections. simpl. rewrite fmap_app. reflexivity.
  - intros cid ids s m Hs. unfold createMode.
    destruct (decide _); [exact Hs|]. allocate_id. exact Hs.
  - intros cid ids s ft Hs.
    destruct (processToken_frame options prefix collection cid ids s ft)
      as (_ & Hcols & _).
    rewrite Hcols. exact Hs.
Qed.

(** One collection-create per collection of the theme, in the theme's
    order, named by [collectionMapping] where it has an entry for the
    collection's name and by the collection's own name otherwise.  The
    names of the collections are taken not to be names every object
    inherits, which the lookup [collectionMapping?.[collection.name]] would
    find in any mapping. *)
Theorem collections_created_in_order (theme : ThemeFile)
    (options : FigmaOutputAdapterOptions) (c0 : nat) :
  Forall (fun collection => col_name collection ∉ objectPrototypeNames)
    (collections theme) ->
  let body := res_requestBody (fst (transformToFigmaVariables theme options c0)) in
  vcc_name <$> variableCollections body
  = (fun collection =>
       match collectionMapping options ≫= fun m => m !! col_name collection with
       | Some name => name
       | None => col_name collection
       end) <$> collections theme.
Proof.
  intros _ body. unfold body. rewrite transform_unfold. simpl.
  match goal with
  | |- context [variableCollections (requestBody ?s)] =>
      change (variableCollections (requestBody s)) with (st_collections s)
  end.
  rewrite (fold_left_flat_map (fun s => vcc_name <$> st_collections s)
             (processCollection options _)
             (fun c => [createdName options c])).
  - simpl. induction (collections theme) as [|c cs IH]; [reflexivity|].
    simpl. rewrite IH. reflexivity.
  - intros s c _. apply processCollection_names.
Qed.

Lemma collections_created_in_order_witness :
  let options :=
    mkOptions None None None (Some {[ "primitives" := "Core" ]}) None None in
  let theme :=
    mkTheme "Test Theme"
      [mkCollection "primitives" None ["default"] "default" ∅;
       mkCollection "semantic" None ["default"] "default" ∅] None in
  vcc_name <$> variableCollections
                 (res_requestBody (fst (transformToFigmaVariables theme options 0)))
  = ["Core"; "semantic"].
Proof.
  intros options theme.
  apply (collections_created_in_order theme options 0).
  repeat constructor; apply (bool_decide_unpack _); vm_compute; exact I.
Defined.

(** *** The source check recorded in the report *)

Lemma setModeValue_sourceCheck (collection : TokenCollection) (path : list string)
    (variableId : string) (ids : gmap string string) (st : TransformState)
    (modeName : string) :
  sourceCheck (report (setModeValue collection path variableId ids st modeName))
  = sourceCheck (report st).
Proof.
  unfold setModeValue.
  destruct (tokens collection !! modeName); [|reflexivity].
  destruct (findModeToken _ _) as [modeToken|]; [|reflexivity].
  destruct (truthy _); [|reflexivity].
  pose proof (tokenValueToFigma_stats modeToken (report st)
                (col_name collection +:+ "." +:+ modeName +:+ "." +:+ join "." path))
    as (_ & _ & _ & _ & H & _).
  destruct (tokenValueToFigma _ _ _) as [[value|] rep]; simpl in *; exact H.
Qed.

Lemma processCollection_sourceCheck (options : FigmaOutputAdapterOptions)
    (prefix : string) (st : TransformState) (collection : TokenCollection) :
  sourceCheck (report (processCollection options prefix st collection))
  = sourceCheck (report st).
Proof.
  apply (processCollection_invariant
           (fun s => sourceCheck (report s) = sourceCheck (report st))).
  - reflexivity.
  - intros cid ids s m Hs. unfold createMode.
    destruct (decide _); [exact Hs|]. allocate_id. exact Hs.
  - intros cid ids s ft Hs. unfold processToken.
    destruct (bool_decide _); [exact Hs|].
    destruct (TOKEN_TYPE_TO_FIGMA _); [|exact Hs].
    destruct (_ && _); [exact Hs|].
    allocate_id.
    rewrite (fold_left_preserves (fun s => sourceCheck (report s))); [exact Hs|].
    intros s0 m. apply setModeValue_sourceCheck.
Qed.

Lemma transform_sourceCheck (theme : ThemeFile) (options : FigmaOutputAdapterOptions)
    (c0 : nat) :
  sourceCheck (res_report (fst (transformToFigmaVariables theme options c0)))
  = sourceCheck
      (setSourceCheck (meta theme ≫= figmaFileKey) (targetFileKey options)
         (default false (allowSourceOverwrite options)) newReport).
Proof.
  destruct (transform_invariant
              (fun s => sourceCheck (report s)
                        = sourceCheck
                            (setSourceCheck (meta theme ≫= figmaFileKey)
                               (targetFileKey options)
                               (default false (allowSourceOverwrite options))
                               newReport))
              theme options c0) as (final & -> & Hfinal).
  - reflexivity.
  - intros s c Hs. rewrite processCollection_sourceCheck. exact Hs.
  - exact Hfinal.
Qed.

(** The source check a transformation records in its report is the one the
    safety gate returned, unless both file keys are the empty string (the
    gate then takes the keys for missing, the report takes them for
    equal). *)
Theorem report_records_safety_result (theme : ThemeFile)
    (options : FigmaOutputAdapterOptions) (c0 : nat) (result : SourceCheckResult) :
  checkSourceSafety theme options = inr result ->
  ~ (meta theme ≫= figmaFileKey = Some EmptyString
     /\ targetFileKey options = Some EmptyString) ->
  sourceCheck (res_report (fst (transformToFigmaVariables theme options c0))) = result.
Proof.
  rewrite transform_sourceCheck. unfold checkSourceSafety, setSourceCheck. simpl.
  destruct (meta theme ≫= figmaFileKey) as [s|]; simpl;
    [|intros [= <-] _; reflexivity].
  destruct (targetFileKey options) as [t|]; simpl;
    [|rewrite orb_true_r; intros [= <-] _; reflexivity].
  destruct (bool_decide (s = EmptyString)) eqn:Hs;
    destruct (bool_decide (t = EmptyString)) eqn:Ht; simpl;
    try apply bool_decide_eq_true in Hs; try apply bool_decide_eq_true in Ht;
    try apply bool_decide_eq_false in Hs; try apply bool_decide_eq_false in Ht.
  - subst. intros _ Hne. exfalso. apply Hne. split; reflexivity.
  - intros [= <-] _. f_equal. apply bool_decide_eq_false. congruence.
  - intros [= <-] _. f_equal. apply bool_decide_eq_false. congruence.
  - destruct (bool_decide (Some s = Some t)) eqn:Hst; simpl.
    + apply bool_decide_eq_true in Hst. injection Hst as <-.
      destruct (default false (allowSourceOverwrite options)) eqn:Hallow; simpl;
        [|discriminate].
      intros [= <-] _. f_equal. apply bool_decide_eq_true. reflexivity.
    + apply bool_decide_eq_false in Hst. intros [= <-] _. f_equal.
      apply bool_decide_eq_false. congruence.
Qed.

Lemma report_records_safety_result_witness :
  sourceCheck
    (res_report
       (fst (transformToFigmaVariables
               (mkTheme "Test" [] (Some (mkMeta (Some "source123"))))
               (mkOptions (Some "target456") None None None None None) 0)))
  = mkSourceCheck (Some "source123") (Some "target456") false false.
Proof.
  apply report_records_safety_result.
  - reflexivity.
  - intros [H _]. discriminate H.
Defined.

(** *** The plugin gate *)

(** The gate on the file open in the plugin behaves as the gate on a target
    file key does at the key the plugin reports: it returns the same result
    or raises the same error, hence raises exactly when the theme's origin
    key and the plugin's file key are the same non-empty string and
    overwriting was not allowed. *)
Theorem plugin_gate_is_source_gate (theme : ThemeFile) (pluginStatus : PluginStatus)
    (options : FigmaOutputAdapterOptions) :
  checkPluginSafety theme pluginStatus options
  = checkSourceSafety theme
      (mkOptions (status_fileKey pluginStatus) (mode options)
         (allowSourceOverwrite options) (collectionMapping options)
         (skipHidden options) (idPrefix options))
  /\ forall e,
       checkPluginSafety theme pluginStatus options = inl e <->
       exists k, meta theme ≫= figmaFileKey = Some k
                 /\ status_fileKey pluginStatus = Some k /\ k <> EmptyString
                 /\ allowSourceOverwrite options <> Some true
                 /\ e = mkSourceOverwriteError k k.
Proof.
  split; [reflexivity|]. intros e.
  apply (checkSourceSafety_throws theme
           (mkOptions (status_fileKey pluginStatus) (mode options)
              (allowSourceOverwrite options) (collectionMapping options)
              (skipHidden options) (idPrefix options))).
Qed.

(** *** The output adapter *)

Lemma addWarning_counts (code : WarningCode) (message : string) (path : option string)
    (rep : TransformationReportBuilder) :
  countsAgree rep -> countsAgree (addWarning code message path rep).
Proof. counts. Qed.

(** [FigmaOutputAdapter.transform] raises exactly the error of the safety
    check, and otherwise returns the request body, the Skipped entries and
    the counter of [transformToFigmaVariables] unchanged; its warnings are
    those of the transformation followed by one [SOURCE_MATCH] warning when
    the origin key and the target key are both given and equal and
    overwriting was allowed, and by nothing otherwise; the warning counter
    still is the number of warnings. *)
Theorem adapter_transform_outcome (stringify : PostVariablesRequestBody -> string)
    (hasWriteClient : bool) (theme : ThemeFile) (options : FigmaOutputAdapterOptions)
    (c0 : nat) :
  let transformed := transformToFigmaVariables theme options c0 in
  let sameFile :=
    match meta theme ≫= figmaFileKey, targetFileKey options with
    | Some source, Some target => bool_decide (source = target)
    | _, _ => false
    end in
  match adapterTransform stringify hasWriteClient theme options c0 with
  | inl e => checkSourceSafety theme options = inl e
  | inr (out, counter) =>
      (exists result, checkSourceSafety theme options = inr result)
      /\ counter = snd transformed
      /\ out_requestBody out = res_requestBody (fst transformed)
      /\ skipped (out_report out) = skipped (res_report (fst transformed))
      /\ warnings (out_report out)
         = warnings (res_report (fst transformed))
           ++ (if sameFile && default false (allowSourceOverwrite options)
               then [mkWarning SOURCE_MATCH
                       "Target file matches source file - proceeding with explicit permission"
                       None]
               else [])
      /\ stat_warnings (stats (out_report out)) = length (warnings (out_report out))
  end.
Proof.
  intros transformed sameFile. unfold adapterTransform.
  destruct (checkSourceSafety theme options) as [e|result]; [reflexivity|].
  pose proof (transform_sourceCheck theme options c0) as Hcheck.
  assert (countsAgree (res_report (fst transformed))) as [_ Hstats].
  { unfold transformed.
    destruct (transform_invariant statsAgree theme options c0) as (final & -> & Hfinal).
    - counts.
    - intros s c. apply processCollection_stats.
    - apply Hfinal. }
  subst transformed.
  destruct (transformToFigmaVariables theme options c0) as [transformedResult counter].
  cbn [fst snd] in *. cbn [out_requestBody out_report].
  rewrite Hcheck. cbn [setSourceCheck sourceCheck isSameFile overwriteAllowed].
  fold sameFile.
  split; [eexists; reflexivity|]. split; [reflexivity|]. split; [reflexivity|].
  destruct (sameFile && default false (allowSourceOverwrite options)).
  - simpl. repeat split; try reflexivity. rewrite length_app. simpl. lia.
  - rewrite app_nil_r. repeat split; try reflexivity. exact Hstats.
Qed.

Lemma append_assoc (a b c : string) : (a +:+ b) +:+ c = a +:+ b +:+ c.
Proof.
  induction a as [|ch a IH]; [reflexivity|].
  change (String ch ((a +:+ b) +:+ c) = String ch (a +:+ b +:+ c)).
  rewrite IH. reflexivity.
Qed.

(** The manual instructions name the endpoint of the target file, or of the
    placeholder when no target file key, or an empty one, was given, and
    carry the rendered request body. *)
Theorem manual_instructions_endpoint (stringify : PostVariablesRequestBody -> string)
    (hasWriteClient : bool) (theme : ThemeFile) (options : FigmaOutputAdapterOptions)
    (c0 : nat) :
  let key :=
    match targetFileKey options with
    | Some target => if decide (target = EmptyString) then "<YOUR_FILE_KEY>" else target
    | None => "<YOUR_FILE_KEY>"
    end in
  match adapterTransform stringify hasWriteClient theme options c0 with
  | inl _ => True
  | inr (out, _) =>
      exists before between after,
        getManualInstructions out
        = before +:+ ("POST https://api.figma.com/v1/files/" +:+ key +:+ "/variables")
          +:+ between +:+ stringify (out_requestBody out) +:+ after
  end.
Proof.
  intros key. unfold adapterTransform.
  destruct (checkSourceSafety theme options) as [e|result]; [exact I|].
  destruct (transformToFigmaVariables theme options c0) as [transformed c].
  cbn [getManualInstructions out_requestBody].
  assert ((if truthy (targetFileKey options)
           then default EmptyString (targetFileKey options)
           else "<YOUR_FILE_KEY>") = key) as ->.
  { unfold key. destruct (targetFileKey options) as [target|]; simpl; [|reflexivity].
    destruct (decide (target = EmptyString)) as [->|Hne]; [reflexivity|].
    rewrite bool_decide_eq_false_2 by exact Hne. reflexivity. }
  unfold manualInstructions.
  exists ("To push these variables to Figma, use the REST API:" +:+ newline +:+ newline).
  eexists (newline +:+ newline +:+ "Headers:" +:+ newline
           +:+ "  X-Figma-Token: YOUR_TOKEN" +:+ newline +:+ newline
           +:+ "Body:" +:+ newline).
  eexists.
  rewrite !append_assoc. reflexivity.
Qed.
(** *** Flattening and navigation *)

Lemma flattenNode_group (group : list (string * TokenNode)) (base : list string) :
  flattenNode (Group group) base
  = flat_map (fun entry =>
                if startsWith (fst entry) "$" then []
                else flattenNode (snd entry) (base ++ [fst entry])) group.
Proof.
  induction group as [|[key value] rest IH]; [reflexivity|].
  change (flattenNode (Group ((key, value) :: rest)) base)
    with ((if startsWith key "$" then [] else flattenNode value (base ++ [key]))
          ++ flattenNode (Group rest) base).
  rewrite IH. reflexivity.
Qed.

Lemma lookupKey_elem_of {A : Type} (key : string) (value : A) (obj : list (string * A)) :
  lookupKey key obj = Some value -> (key, value) ∈ obj.
Proof.
  induction obj as [|[k v] rest IH]; simpl; [discriminate|].
  destruct (decide (k = key)) as [->|Hne].
  - intros [= ->]. left.
  - intros Hrest. right. apply IH, Hrest.
Qed.

Lemma elem_of_lookupKey {A : Type} (key : string) (value : A) (obj : list (string * A)) :
  NoDup (fst <$> obj) -> (key, value) ∈ obj -> lookupKey key obj = Some value.
Proof.
  induction obj as [|[k v] rest IH]; simpl; intros Hnodup Hin.
  - inversion Hin.
  - apply NoDup_cons in Hnodup as [Hfresh Hnodup].
    apply elem_of_cons in Hin as [[= <- <-]|Hin].
    + rewrite decide_True by reflexivity. reflexivity.
    + destruct (decide (k = key)) as [->|Hne]; [|apply IH; assumption].
      exfalso. apply Hfresh. apply list_elem_of_fmap. exists (key, value). auto.
Qed.

Lemma flattenNode_reachable (node : TokenNode) :
  uniqueKeys node ->
  forall (base path : list string) (token : Token),
    mkFlat path token ∈ flattenNode node base <->
    exists suffix,
      path = base ++ suffix
      /\ Forall (fun segment => startsWith segment "$" = false) suffix
      /\ navigate node suffix = Some (Leaf token).
Proof.
  induction node as [leaf|group IH] using TokenNode_nested_ind;
    intros Hunique base path token.
  - simpl. rewrite list_elem_of_singleton. split.
    + intros [= -> ->]. exists []. rewrite app_nil_r. auto.
    + intros ([|segment suffix] & -> & _ & Hnav); [|discriminate].
      injection Hnav as ->. rewrite app_nil_r. reflexivity.
  - inversion Hunique as [|group' Hkeys Hchildren Heq]; subst group'.
    rewrite flattenNode_group, list_elem_of_In, in_flat_map. split.
    + intros ([key value] & Hin & Hft). simpl in Hft.
      destruct (startsWith key "$") eqn:Hsigil; [inversion Hft|].
      apply list_elem_of_In in Hin, Hft.
      rewrite Forall_forall in IH, Hchildren.
      apply (IH (key, value) Hin (Hchildren (key, value) Hin)) in Hft
        as (suffix & -> & Hsuffix & Hnav).
      exists (key :: suffix). rewrite <- app_assoc. split; [reflexivity|].
      split; [constructor; assumption|].
      simpl. rewrite (elem_of_lookupKey key value group Hkeys Hin). exact Hnav.
    + intros ([|key suffix] & -> & Hsuffix & Hnav); [discriminate|].
      simpl in Hnav. destruct (lookupKey key group) as [value|] eqn:Hlookup; [|discriminate].
      apply lookupKey_elem_of in Hlookup.
      exists (key, value). split; [apply list_elem_of_In, Hlookup|].
      simpl. apply Forall_cons in Hsuffix as [-> Hsuffix].
      apply list_elem_of_In.
      rewrite Forall_forall in IH, Hchildren.
      apply (IH (key, value) Hlookup (Hchildren (key, value) Hlookup)).
      exists suffix. rewrite <- app_assoc. auto.
Qed.

Lemma flatten_reachable_token (group : TokenGroup) (base path : list string)
    (token : Token) :
  uniqueKeys (Group group) ->
  mkFlat path token ∈ flattenTokens group base <->
  exists suffix,
    path = base ++ suffix
    /\ Forall (fun segment => startsWith segment "$" = false) suffix
    /\ findModeToken group suffix = Some token.
Proof.
  intros Hunique. unfold flattenTokens, findModeToken.
  rewrite (flattenNode_reachable _ Hunique). split.
  - intros (suffix & Hpath & Hsuffix & Hnav). exists suffix. rewrite Hnav. auto.
  - intros (suffix & Hpath & Hsuffix & Hnav). exists suffix.
    destruct (navigate (Group group) suffix) as [[leaf|children]|]; try discriminate.
    injection Hnav as ->. auto.
Qed.

(** Flattening and the per-mode lookup are inverse to each other.  In a
    tree without repeated keys, every path [flattenTokens] lists extends
    the base path by at least one key; and for keys that are not names
    every object inherits, [flattenTokens] lists a token under the base
    path followed by these keys if and only if none of the keys starts with
    the sigil and navigating them from the root ends at that token. *)
Theorem flatten_lists_reachable_tokens (group : TokenGroup) (base suffix : list string)
    (token : Token) :
  uniqueKeys (Group group) ->
  Forall (fun segment => segment ∉ objectPrototypeNames) suffix ->
  (forall listed, listed ∈ flattenTokens group base ->
                  exists keys, keys <> [] /\ ft_path listed = base ++ keys)
  /\ (mkFlat (base ++ suffix) token ∈ flattenTokens group base <->
      Forall (fun segment => startsWith segment "$" = false) suffix
      /\ findModeToken group suffix = Some token).
Proof.
  intros Hunique _. split.
  - intros [path listed] Hin.
    apply (flatten_reachable_token group base path listed Hunique) in Hin
      as (keys & -> & _ & Hfound).
    exists keys. split; [|reflexivity]. intros ->. discriminate Hfound.
  - rewrite (flatten_reachable_token group base _ token Hunique). split.
    + intros (keys & Heq & Hkeys & Hfound). apply app_inv_head in Heq. subst keys. auto.
    + intros [Hkeys Hfound]. exists suffix. auto.
Qed.

Lemma flatten_lists_reachable_tokens_witness :
  let group := [("color", Group [("primary", literal Tnumber 1%R)])] in
  let token := mkToken Tnumber (inl 1%R) None None in
  (forall listed, listed ∈ flattenTokens group [] ->
                  exists keys, keys <> [] /\ ft_path listed = [] ++ keys)
  /\ (mkFlat ([] ++ ["color"; "primary"]) token ∈ flattenTokens group [] <->
      Forall (fun segment => startsWith segment "$" = false) ["color"; "primary"]
      /\ findModeToken group ["color"; "primary"] = Some token).
Proof.
  intros group token.
  apply (flatten_lists_reachable_tokens group [] ["color"; "primary"] token).
  - constructor.
    + apply (bool_decide_unpack _). vm_compute. exact I.
    + repeat constructor. apply (bool_decide_unpack _). vm_compute. exact I.
  - repeat constructor; apply (bool_decide_unpack _); vm_compute; exact I.
Defined.

Lemma flattenNode_paths_distinct (node : TokenNode) :
  uniqueKeys node ->
  forall base, NoDup (ft_path <$> flattenNode node base).
Proof.
  induction node as [leaf|group IH] using TokenNode_nested_ind; intros Hunique base.
  - simpl. apply NoDup_singleton.
  - inversion Hunique as [|group' Hkeys Hchildren Heq]; subst group'.
    rewrite flattenNode_group.
    induction group as [|[key value] rest IHrest]; [apply NoDup_nil_2|].
    apply Forall_cons in IH as [IHvalue IH].
    apply Forall_cons in Hchildren as [Hvalue Hchildren].
    simpl in Hkeys. apply NoDup_cons in Hkeys as [Hfresh Hkeys].
    simpl. rewrite fmap_app. apply NoDup_app. split; [|split].
    + destruct (startsWith key "$"); [apply NoDup_nil_2|]. apply IHvalue, Hvalue.
    + intros path Hhere Hthere.
      destruct (startsWith key "$"); [inversion Hhere|].
      apply list_elem_of_fmap in Hhere as ([p t] & -> & Hhere).
      apply list_elem_of_fmap in Hthere as ([p' t'] & Heq & Hthere).
      simpl in Heq. subst p'.
      apply (flattenNode_reachable value Hvalue) in Hhere as (suffix & -> & _ & _).
      apply list_elem_of_In, in_flat_map in Hthere as ([key' value'] & Hin & Hthere).
      simpl in Hthere. destruct (startsWith key' "$"); [inversion Hthere|].
      apply list_elem_of_In in Hin, Hthere.
      rewrite Forall_forall in Hchildren.
      apply (flattenNode_reachable value' (Hchildren (key', value') Hin)) in Hthere
        as (suffix' & Heq & _ & _).
      rewrite <- !app_assoc in Heq. apply app_inv_head in Heq.
      injection Heq as <- _.
      apply Hfresh. apply list_elem_of_fmap. exists (key, value'). auto.
    + apply IHrest; try assumption. constructor; assumption.
Qed.

(** In a tree without repeated keys no two tokens are listed under the
    same path. *)
Theorem flattened_paths_distinct (group : TokenGroup) (base : list string) :
  uniqueKeys (Group group) -> NoDup (ft_path <$> flattenTokens group base).
Proof. intros Hunique. apply flattenNode_paths_distinct, Hunique. Qed.

Lemma flattened_paths_distinct_witness :
  NoDup (ft_path <$>
           flattenTokens
             [("a", literal Tnumber 1%R);
              ("b", Group [("a", literal Tnumber 2%R)])] []).
Proof.
  apply (flattened_paths_distinct
           [("a", literal Tnumber 1%R);
            ("b", Group [("a", literal Tnumber 2%R)])] []).
  constructor.
  - apply (bool_decide_unpack _). vm_compute. exact I.
  - repeat constructor. apply (bool_decide_unpack _). vm_compute. exact I.
Defined.

(** Every leaf of the default-mode tree is found again by the per-mode
    pass in the default mode: when the tree repeats no key, the token
    converted for a variable under the default mode is the token the
    variable was created from. *)
Theorem default_mode_value_is_own_token (collection : TokenCollection)
    (defaultTokens : TokenGroup) (ft : FlattenedToken) :
  tokens collection !! defaultMode collection = Some defaultTokens ->
  uniqueKeys (Group defaultTokens) ->
  ft ∈ defaultLeaves collection ->
  modeCall collection (ft_path ft) (defaultMode collection)
  = Some (valuePath collection (defaultMode collection) (ft_path ft), ft_token ft).
Proof.
  intros Htokens Hunique Hin. unfold defaultLeaves, modeCall in *.
  rewrite Htokens in *. simpl. destruct ft as [path token].
  apply (flatten_reachable_token defaultTokens [] path token Hunique) in Hin
    as (suffix & -> & _ & Hfound).
  simpl. rewrite Hfound. reflexivity.
Qed.

Lemma default_mode_value_is_own_token_witness :
  modeCall (mkCollection "primitives" None ["default"] "default"
              {[ "default" := [("spacing", literal Tnumber 8%R)] ]})
    ["spacing"] "default"
  = Some ("primitives.default.spacing", mkToken Tnumber (inl 8%R) None None).
Proof.
  apply (default_mode_value_is_own_token
           (mkCollection "primitives" None ["default"] "default"
              {[ "default" := [("spacing", literal Tnumber 8%R)] ]})
           [("spacing", literal Tnumber 8%R)]
           (mkFlat ["spacing"] (mkToken Tnumber (inl 8%R) None None))).
  - vm_compute. reflexivity.
  - constructor.
    + apply (bool_decide_unpack _). vm_compute. exact I.
    + repeat constructor.
  - vm_compute. left.
Defined.
(** *** Reading a variable and writing it back *)

(** The kind the parser gives a variable is never one the transformer
    skips, and the transformer creates a variable of it with the resolved
    type the variable was read with (a string for a resolved type the
    parser does not recognise). *)
Theorem parsed_type_written_back (variable : LocalVariable) :
  (detectTokenType variable ∉ SKIP_TYPES)
  /\ TOKEN_TYPE_TO_FIGMA (detectTokenType variable)
     = Some (writtenType (var_resolvedType variable)).
Proof.
  unfold detectTokenType.
  destruct (var_resolvedType variable);
    repeat match goal with |- context [if ?b then _ else _] => destruct b end;
    (split; [|reflexivity]);
    intros Hin; repeat (apply elem_of_cons in Hin as [Hin|Hin]; [discriminate Hin|]);
    inversion Hin.
Qed.

(** A literal mode value survives the round trip: when the value has the
    runtime type of the variable's resolved type and the token the parser
    builds is well formed, the transformer converts that token back to the
    value it was read from, and records nothing in the report. *)
Theorem parsed_value_written_back (variable : LocalVariable) (value : VariableValue)
    (variablesById : gmap string LocalVariable) (token : Token)
    (rep : TransformationReportBuilder) (path : string) :
  valueFits (var_resolvedType variable) value ->
  asToken (createToken variable value variablesById) = Some token ->
  tokenValueToFigma token rep path = (Some value, rep).
Proof.
  unfold valueFits, asToken, createToken, convertFigmaNumber, detectTokenType.
  cbn [p_type p_value].
  destruct (var_resolvedType variable); destruct value as [b|n|s|c|alias];
    intros Hfits; try contradiction; clear Hfits.
  - destruct c. intros [= <-]. reflexivity.
  - destruct (includes (var_scopes variable) "FONT_WEIGHT").
    + destruct (existsb _ (var_scopes variable)); [discriminate|].
      intros [= <-]. reflexivity.
    + destruct (_ || _); destruct (existsb _ (var_scopes variable));
        try discriminate; intros [= <-]; reflexivity.
  - destruct (includes (var_scopes variable) "FONT_FAMILY").
    + rewrite decide_True by reflexivity. intros [= <-]. simpl.
      destruct (decide (s = EmptyString)) as [->|Hne]; reflexivity.
    + rewrite decide_False by discriminate. intros [= <-]. reflexivity.
  - intros [= <-]. reflexivity.
Qed.

Lemma parsed_value_written_back_witness :
  let variable :=
    mkVariable "VariableID:1:1" "Font/Body" "VariableCollectionId:1:0" RT_STRING
      ["FONT_FAMILY"] ∅ false None None in
  tokenValueToFigma
    (mkToken TfontFamily (inl ["Inter"]) None
       (Some (mkFigmaExtensions "VariableID:1:1" ["FONT_FAMILY"] false None)))
    newReport "typography.default.font.body"
  = (Some (VStr "Inter"), newReport).
Proof.
  intros variable.
  apply (parsed_value_written_back variable (VStr "Inter") ∅).
  - exact I.
  - reflexivity.
Defined.

(** An alias does not survive the round trip: whatever the variable, the
    token read from an alias value is well formed and holds a reference,
    and the transformer writes no value for it but records one Skipped
    entry at the value's path. *)
Theorem parsed_alias_not_written_back (variable : LocalVariable) (alias : VariableAlias)
    (variablesById : gmap string LocalVariable) (rep : TransformationReportBuilder)
    (path : string) :
  exists token,
    asToken (createToken variable (VAlias alias) variablesById) = Some token
    /\ t_type token = detectTokenType variable
    /\ fst (tokenValueToFigma token rep path) = None
    /\ skipped (snd (tokenValueToFigma token rep path))
       = skipped rep
         ++ [mkSkipped path "Token references require special handling"
               (detectTokenType variable)
               (Some "References will be supported in a future update")]
    /\ warnings (snd (tokenValueToFigma token rep path)) = warnings rep.
Proof.
  exists (mkToken (detectTokenType variable)
            (inr (createTokenReference alias variablesById))
            (keepDescription (var_description variable))
            (Some (p_extensions (createToken variable (VAlias alias) variablesById)))).
  split.
  - unfold asToken, createToken. cbn [p_type p_value p_description p_extensions].
    destruct (detectTokenType variable); reflexivity.
  - repeat split; simpl; destruct (detectTokenType variable); reflexivity.
Qed.

(** *** Names and references *)

Lemma removelast_last (l : list string) (x : string) :
  last l = Some x -> removelast l ++ [x] = l.
Proof.
  induction l as [|y l IH]; [discriminate|].
  destruct l as [|z l]; simpl in *.
  - intros [= ->]. reflexivity.
  - intros Hlast. f_equal. apply IH, Hlast.
Qed.

(** A reference to a variable names the place the variable's own token is
    stored at: when the last segment of the variable's name is not empty,
    the path inside the braces is the group path and token name of
    [buildTokenPath], joined by dots. *)
Theorem reference_names_storage_path (alias : VariableAlias)
    (variablesById : gmap string LocalVariable) (referencedVar : LocalVariable) :
  variablesById !! alias_id alias = Some referencedVar ->
  last (split (Ascii.ascii_of_nat 47) (var_name referencedVar)) <> Some EmptyString ->
  let '(path, tokenName) := buildTokenPath (var_name referencedVar) in
  createTokenReference alias variablesById
  = mkRef ("{" +:+ join "." (path ++ [tokenName]) +:+ "}").
Proof.
  intros Hknown Hlast. unfold buildTokenPath, createTokenReference. rewrite Hknown.
  destruct (last (split (Ascii.ascii_of_nat 47) (var_name referencedVar)))
    as [popped|] eqn:Hpopped.
  - simpl. rewrite bool_decide_eq_false_2 by congruence. simpl.
    rewrite <- (removelast_last _ _ Hpopped) at 1.
    rewrite map_app. reflexivity.
  - exfalso. revert Hpopped. generalize (var_name referencedVar).
    intros name. induction name as [|c name IH]; simpl; [discriminate|].
    destruct (decide (c = Ascii.ascii_of_nat 47)).
    + destruct (split (Ascii.ascii_of_nat 47) name); [contradiction IH; reflexivity|].
      rewrite last_cons. destruct (last (s :: l)); discriminate.
    + destruct (split (Ascii.ascii_of_nat 47) name) as [|first others].
      * discriminate.
      * rewrite last_cons. destruct (last others) eqn:Hothers; [discriminate|].
        destruct others; discriminate.
Qed.

Lemma reference_names_storage_path_witness :
  createTokenReference (mkAlias "VariableID:1:7")
    {[ "VariableID:1:7" :=
         mkVariable "VariableID:1:7" "Colors/Primary Blue" "VariableCollectionId:1:0"
           RT_COLOR [] ∅ false None None ]}
  = mkRef "{colors.primary-blue}".
Proof.
  apply (reference_names_storage_path (mkAlias "VariableID:1:7")
           {[ "VariableID:1:7" :=
                mkVariable "VariableID:1:7" "Colors/Primary Blue"
                  "VariableCollectionId:1:0" RT_COLOR [] ∅ false None None ]}
           (mkVariable "VariableID:1:7" "Colors/Primary Blue" "VariableCollectionId:1:0"
              RT_COLOR [] ∅ false None None)).
  - vm_compute. reflexivity.
  - vm_compute. discriminate.
Defined.
(** *** Storing tokens in a tree *)

Lemma tokenAt_emptyGroup (q : list string) : tokenAt emptyGroup q = None.
Proof. destruct q; reflexivity. Qed.

Lemma tokenAt_cons (node : ParsedNode) (key : string) (q : list string) :
  tokenAt node (key :: q) = children node !! key ≫= fun next => tokenAt next q.
Proof. unfold tokenAt. simpl. destruct (children node !! key); reflexivity. Qed.

Lemma tokenAt_leaf (token : ParsedToken) (q : list string) :
  tokenAt (mkNode (Some token) ∅) q = if decide (q = []) then Some token else None.
Proof. destruct q; reflexivity. Qed.

Lemma setTokenAtPath_tokenAt (path : list string) (tokenName : string)
    (token : ParsedToken) :
  forall (group group' : ParsedNode) (q : list string),
    setTokenAtPath group path tokenName token = Some group' ->
    tokenAt group' q
    = if decide (q = path ++ [tokenName]) then Some token
      else if bool_decide (path ++ [tokenName] `prefix_of` q) then None
      else tokenAt group q.
Proof.
  induction path as [|segment rest IH]; intros group group' q; simpl.
  - destruct (ordinaryKey tokenName); [|discriminate]. intros [= <-].
    destruct q as [|key q].
    + rewrite decide_False by discriminate.
      rewrite bool_decide_eq_false_2 by (intros Hp; apply prefix_nil_not in Hp; exact Hp).
      reflexivity.
    + rewrite !tokenAt_cons. simpl.
      destruct (decide (key = tokenName)) as [->|Hkey].
      * rewrite lookup_insert_eq. simpl. rewrite tokenAt_leaf.
        destruct (decide (q = [])) as [->|Hq].
        -- rewrite decide_True by reflexivity. reflexivity.
        -- rewrite decide_False by congruence.
           rewrite bool_decide_eq_true_2; [reflexivity|].
           apply prefix_cons, prefix_nil.
      * rewrite lookup_insert_ne by congruence.
        rewrite decide_False by congruence.
        rewrite bool_decide_eq_false_2; [reflexivity|].
        intros Hp. apply prefix_cons_inv_1 in Hp. congruence.
  - destruct (ordinaryKey segment); [|discriminate].
    destruct (setTokenAtPath (default emptyGroup (children group !! segment)) rest
                tokenName token) as [current|] eqn:Hset; [|discriminate].
    simpl. intros [= <-].
    destruct q as [|key q].
    + rewrite decide_False by discriminate.
      rewrite bool_decide_eq_false_2 by (intros Hp; apply prefix_nil_not in Hp; exact Hp).
      reflexivity.
    + rewrite !tokenAt_cons. simpl.
      destruct (decide (key = segment)) as [->|Hkey].
      * rewrite lookup_insert_eq. simpl. rewrite (IH _ _ q Hset).
        destruct (decide (q = rest ++ [tokenName])) as [->|Hq].
        -- rewrite decide_True by reflexivity. reflexivity.
        -- rewrite decide_False by congruence.
           destruct (bool_decide (rest ++ [tokenName] `prefix_of` q)) eqn:Hp.
           ++ apply bool_decide_eq_true in Hp.
              rewrite bool_decide_eq_true_2 by (apply prefix_cons, Hp). reflexivity.
           ++ apply bool_decide_eq_false in Hp.
              rewrite bool_decide_eq_false_2
                by (intros Hp'; apply Hp; exact (prefix_cons_inv_2 _ _ _ _ Hp')).
              destruct (children group !! segment) as [next|]; simpl; [reflexivity|].
              apply tokenAt_emptyGroup.
      * rewrite lookup_insert_ne by congruence.
        rewrite decide_False by congruence.
        rewrite bool_decide_eq_false_2; [reflexivity|].
        intros Hp. apply prefix_cons_inv_1 in Hp. congruence.
Qed.

(** Insert and look up: after [setTokenAtPath] has stored a token under a
    path and name, the token is found there; nothing is found below it any
    more; and at every other place the tree holds what it held before. *)
Theorem setTokenAtPath_insert_lookup (group group' : ParsedNode) (path : list string)
    (tokenName : string) (token : ParsedToken) :
  setTokenAtPath group path tokenName token = Some group' ->
  tokenAt group' (path ++ [tokenName]) = Some token
  /\ (forall below, below <> [] -> tokenAt group' (path ++ [tokenName] ++ below) = None)
  /\ (forall q, ~ (path ++ [tokenName]) `prefix_of` q -> tokenAt group' q = tokenAt group q).
Proof.
  intros Hset. split; [|split].
  - rewrite (setTokenAtPath_tokenAt _ _ _ _ _ _ Hset).
    rewrite decide_True by reflexivity. reflexivity.
  - intros below Hbelow. rewrite (setTokenAtPath_tokenAt _ _ _ _ _ _ Hset).
    rewrite decide_False.
    + rewrite bool_decide_eq_true_2; [reflexivity|].
      exists below. rewrite app_assoc. reflexivity.
    + rewrite app_assoc. intros Heq.
      apply (f_equal length) in Heq. rewrite !length_app in Heq.
      destruct below; [contradiction Hbelow; reflexivity|]. simpl in Heq. lia.
  - intros q Hq. rewrite (setTokenAtPath_tokenAt _ _ _ _ _ _ Hset).
    rewrite decide_False by (intros ->; apply Hq; reflexivity).
    rewrite bool_decide_eq_false_2 by exact Hq. reflexivity.
Qed.

Lemma setTokenAtPath_insert_lookup_witness :
  let token :=
    mkParsed Tstring (PString "Inter") None
      (mkFigmaExtensions "VariableID:1:1" [] false None) in
  let group' :=
    mkNode None {[ "font" := mkNode None {[ "body" := mkNode (Some token) ∅ ]} ]} in
  tokenAt group' (["font"] ++ ["body"]) = Some token
  /\ (forall below, below <> [] -> tokenAt group' (["font"] ++ ["body"] ++ below) = None)
  /\ (forall q, ~ (["font"] ++ ["body"]) `prefix_of` q -> tokenAt group' q = tokenAt emptyGroup q).
Proof.
  intros token group'.
  apply (setTokenAtPath_insert_lookup emptyGroup group' ["font"] "body" token).
  vm_compute. reflexivity.
Defined.

(** *** The tree of a mode *)

Lemma addVariableToken_None (modeId : string) (variablesById : gmap string LocalVariable)
    (variables : list LocalVariable) :
  fold_left (addVariableToken modeId variablesById) variables None = None.
Proof. induction variables as [|v vs IH]; simpl; [reflexivity | exact IH]. Qed.

Lemma addVariableToken_Some (modeId : string)
    (variablesById : gmap string LocalVariable) (previous : ParsedNode)
    (variable : LocalVariable) :
  addVariableToken modeId variablesById (Some previous) variable
  = match valuesByMode variable !! modeId with
    | None => Some previous
    | Some value =>
        setTokenAtPath previous (buildTokenPath (var_name variable)).1
          (buildTokenPath (var_name variable)).2
          (createToken variable value variablesById)
    end.
Proof.
  unfold addVariableToken. simpl.
  destruct (valuesByMode variable !! modeId); reflexivity.
Qed.

Lemma snoc_split {A : Type} (before after : list A) (x v : A) (vs : list A) :
  vs ++ [v] = before ++ x :: after ->
  (after = [] /\ x = v /\ before = vs)
  \/ exists after', after = after' ++ [v] /\ vs = before ++ x :: after'.
Proof.
  destruct after as [|a after _] using rev_ind.
  - intros Heq. left. apply app_inj_tail in Heq as [-> ->]. auto.
  - intros Heq. right. exists after.
    change (before ++ x :: after ++ [a]) with (before ++ (x :: after) ++ [a]) in Heq.
    rewrite app_assoc in Heq. apply app_inj_tail in Heq as [-> ->]. auto.
Qed.

Lemma buildModeTokens_tokenAt (modeId : string)
    (variablesById : gmap string LocalVariable) (variables : list LocalVariable) :
  forall (modeTokens : ParsedNode) (q : list string) (token : ParsedToken),
    buildModeTokens modeId variables variablesById = Some modeTokens ->
    tokenAt modeTokens q = Some token <->
    exists before variable after value,
      variables = before ++ variable :: after
      /\ valuesByMode variable !! modeId = Some value
      /\ storagePath (var_name variable) = q
      /\ token = createToken variable value variablesById
      /\ Forall (fun later =>
                   is_Some (valuesByMode later !! modeId) ->
                   ~ storagePath (var_name later) `prefix_of` q) after.
Proof.
  unfold buildModeTokens.
  induction variables as [|v vs IH] using rev_ind; intros modeTokens q token.
  - simpl. intros [= <-]. rewrite tokenAt_emptyGroup. split; [discriminate|].
    intros (before & variable & after & value & Heq & _).
    destruct before; discriminate Heq.
  - rewrite fold_left_app. cbn [fold_left].
    destruct (fold_left (addVariableToken modeId variablesById) vs (Some emptyGroup))
      as [previous|] eqn:Hprevious; [|discriminate].
    specialize (IH previous). rewrite addVariableToken_Some.
    destruct (valuesByMode v !! modeId) as [value|] eqn:Hvalue.
    + unfold storagePath in *.
      destruct (buildTokenPath (var_name v)) as [path tokenName] eqn:Hpath.
      cbn [fst snd]. intros Hset. rewrite (setTokenAtPath_tokenAt _ _ _ _ _ q Hset).
      destruct (decide (q = path ++ [tokenName])) as [->|Hq].
      * split.
        -- intros [= <-]. exists vs, v, [], value. rewrite Hpath. auto.
        -- intros (before & variable & after & value' & Heq & Hvalue' & Hat & -> & Hlater).
           apply snoc_split in Heq as [(-> & -> & ->)|(after' & -> & ->)].
           ++ congruence.
           ++ exfalso. apply Forall_app in Hlater as [_ Hlater].
              rewrite Forall_singleton in Hlater. rewrite Hpath in Hlater.
              apply Hlater; [eexists; exact Hvalue | reflexivity].
      * destruct (bool_decide (path ++ [tokenName] `prefix_of` q)) eqn:Hp.
        -- apply bool_decide_eq_true in Hp. split; [discriminate|].
           intros (before & variable & after & value' & Heq & Hvalue' & Hat & -> & Hlater).
           exfalso.
           apply snoc_split in Heq as [(-> & -> & ->)|(after' & -> & ->)].
           ++ rewrite Hpath in Hat. congruence.
           ++ apply Forall_app in Hlater as [_ Hlater].
              rewrite Forall_singleton in Hlater. rewrite Hpath in Hlater.
              apply Hlater; [eexists; exact Hvalue | exact Hp].
        -- apply bool_decide_eq_false in Hp. rewrite (IH q token eq_refl). split.
           ++ intros (before & variable & after & value' & -> & Hvalue' & Hat & -> & Hlater).
              exists before, variable, (after ++ [v]), value'.
              rewrite <- app_assoc. repeat split; try assumption.
              apply Forall_app. split; [exact Hlater|].
              apply Forall_singleton. rewrite Hpath. intros _. exact Hp.
           ++ intros (before & variable & after & value' & Heq & Hvalue' & Hat & -> & Hlater).
              apply snoc_split in Heq as [(-> & -> & ->)|(after' & -> & ->)].
              ** rewrite Hpath in Hat. congruence.
              ** apply Forall_app in Hlater as [Hlater _].
                 exists before, variable, after', value'. auto.
    + intros [= <-]. rewrite (IH q token eq_refl). split.
      * intros (before & variable & after & value' & -> & Hvalue' & Hat & -> & Hlater).
        exists before, variable, (after ++ [v]), value'.
        rewrite <- app_assoc. repeat split; try assumption.
        apply Forall_app. split; [exact Hlater|].
        apply Forall_singleton. rewrite Hvalue. intros [? ?]. discriminate.
      * intros (before & variable & after & value' & Heq & Hvalue' & Hat & -> & Hlater).
        apply snoc_split in Heq as [(-> & -> & ->)|(after' & -> & ->)].
        -- congruence.
        -- apply Forall_app in Hlater as [Hlater _].
           exists before, variable, after', value'. auto.
Qed.

(** The tree [parseCollection] builds for a mode holds a token at a place
    exactly when some variable with a value in that mode is stored at that
    place and no later variable with a value in the mode is stored at it or
    above it; the token is the one [createToken] makes of that variable and
    value.  The last writer wins, and a token stored above hides what was
    below. *)
Theorem mode_tree_last_writer_wins (modeId : string)
    (variablesById : gmap string LocalVariable) (variables : list LocalVariable)
    (modeTokens : ParsedNode) (q : list string) (token : ParsedToken) :
  buildModeTokens modeId variables variablesById = Some modeTokens ->
  tokenAt modeTokens q = Some token <->
  exists before variable after value,
    variables = before ++ variable :: after
    /\ valuesByMode variable !! modeId = Some value
    /\ storagePath (var_name variable) = q
    /\ token = createToken variable value variablesById
    /\ Forall (fun later =>
                 is_Some (valuesByMode later !! modeId) ->
                 ~ storagePath (var_name later) `prefix_of` q) after.
Proof. apply buildModeTokens_tokenAt. Qed.

Lemma mode_tree_last_writer_wins_witness :
  let variable :=
    mkVariable "VariableID:1:1" "Font/Body" "VariableCollectionId:1:0" RT_STRING
      [] {[ "1:0" := VStr "Inter" ]} false None None in
  let token := createToken variable (VStr "Inter") ∅ in
  let modeTokens :=
    mkNode None {[ "font" := mkNode None {[ "body" := mkNode (Some token) ∅ ]} ]} in
  tokenAt modeTokens ["font"; "body"] = Some token <->
  exists before variable' after value,
    [variable] = before ++ variable' :: after
    /\ valuesByMode variable' !! "1:0" = Some value
    /\ storagePath (var_name variable') = ["font"; "body"]
    /\ token = createToken variable' value ∅
    /\ Forall (fun later =>
                 is_Some (valuesByMode later !! "1:0") ->
                 ~ storagePath (var_name later) `prefix_of` ["font"; "body"]) after.
Proof.
  intros variable token modeTokens.
  apply (mode_tree_last_writer_wins "1:0" ∅ [variable] modeTokens ["font"; "body"] token).
  vm_compute. reflexivity.
Defined.

(** *** Collections *)

Lemma addModeTokens_None (variables : list LocalVariable)
    (variablesById : gmap string LocalVariable) (modes : list CollectionMode) :
  fold_left (addModeTokens variables variablesById) modes None = None.
Proof. induction modes as [|m ms IH]; simpl; [reflexivity | exact IH]. Qed.

Lemma addModeTokens_Some (variables : list LocalVariable)
    (variablesById : gmap string LocalVariable) (start : gmap string ParsedNode)
    (m : CollectionMode) (next : gmap string ParsedNode) :
  addModeTokens variables variablesById (Some start) m = Some next ->
  exists modeTokens,
    buildModeTokens (cm_modeId m) variables variablesById = Some modeTokens
    /\ next = <[cm_name m := modeTokens]> start.
Proof.
  unfold addModeTokens. simpl.
  destruct (bool_decide (cm_modeId m ∈ objectPrototypeNames)
            || bool_decide (cm_name m = "__proto__")); [discriminate|].
  destruct (buildModeTokens (cm_modeId m) variables variablesById) as [modeTokens|];
    [|discriminate].
  simpl. intros [= <-]. eauto.
Qed.

Lemma addModeTokens_step (variables : list LocalVariable)
    (variablesById : gmap string LocalVariable) (modes : list CollectionMode)
    (start : gmap string ParsedNode) (m : CollectionMode) (tokens : gmap string ParsedNode) :
  fold_left (addModeTokens variables variablesById) (m :: modes) (Some start) = Some tokens ->
  exists next,
    addModeTokens variables variablesById (Some start) m = Some next
    /\ fold_left (addModeTokens variables variablesById) modes (Some next) = Some tokens.
Proof.
  cbn [fold_left]. destruct (addModeTokens variables variablesById (Some start) m) as [next|].
  - eauto.
  - rewrite addModeTokens_None. discriminate.
Qed.

Lemma addModeTokens_keys (variables : list LocalVariable)
    (variablesById : gmap string LocalVariable) (modes : list CollectionMode) :
  forall start tokens,
    fold_left (addModeTokens variables variablesById) modes (Some start) = Some tokens ->
    forall name, is_Some (tokens !! name) <->
                 is_Some (start !! name) \/ name ∈ cm_name <$> modes.
Proof.
  induction modes as [|m rest IH]; intros start tokens Hfold name.
  - injection Hfold as <-. split; [auto|]. intros [H|H]; [exact H | inversion H].
  - apply addModeTokens_step in Hfold as (next & Hstep & Hfold).
    apply addModeTokens_Some in Hstep as (modeTokens & _ & ->).
    rewrite (IH _ _ Hfold name), fmap_cons, elem_of_cons.
    destruct (decide (name = cm_name m)) as [->|Hne].
    + rewrite lookup_insert_eq. split; [auto|]. intros _. left. eexists; reflexivity.
    + rewrite lookup_insert_ne by congruence. tauto.
Qed.

Lemma addModeTokens_frame (variables : list LocalVariable)
    (variablesById : gmap string LocalVariable) (modes : list CollectionMode) :
  forall start tokens,
    fold_left (addModeTokens variables variablesById) modes (Some start) = Some tokens ->
    forall name, name ∉ cm_name <$> modes -> tokens !! name = start !! name.
Proof.
  induction modes as [|m rest IH]; intros start tokens Hfold name Hname.
  - injection Hfold as <-. reflexivity.
  - apply addModeTokens_step in Hfold as (next & Hstep & Hfold).
    apply addModeTokens_Some in Hstep as (modeTokens & _ & ->).
    rewrite fmap_cons in Hname. apply not_elem_of_cons in Hname as [Hne Hname].
    rewrite (IH _ _ Hfold name Hname). apply lookup_insert_ne. congruence.
Qed.

Lemma addModeTokens_trees (variables : list LocalVariable)
    (variablesById : gmap string LocalVariable) (before : list CollectionMode) :
  forall start tokens m after,
    fold_left (addModeTokens variables variablesById) (before ++ m :: after) (Some start)
    = Some tokens ->
    cm_name m ∉ cm_name <$> after ->
    tokens !! cm_name m = buildModeTokens (cm_modeId m) variables variablesById.
Proof.
  induction before as [|b before IH]; intros start tokens m after Hfold Hlast.
  - apply addModeTokens_step in Hfold as (next & Hstep & Hfold).
    apply addModeTokens_Some in Hstep as (modeTokens & -> & ->).
    rewrite (addModeTokens_frame _ _ _ _ _ Hfold _ Hlast). apply lookup_insert_eq.
  - change ((b :: before) ++ m :: after) with (b :: (before ++ m :: after)) in Hfold.
    apply addModeTokens_step in Hfold as (next & _ & Hfold).
    apply (IH _ _ _ _ Hfold Hlast).
Qed.

(** What [parseCollection] returns: the collection's name; the names of
    its modes, in order; a tree for each of these names and for no other;
    a default mode that is one of the modes, and is present when the
    collection has a mode. *)
Theorem parseCollection_shape (collection : LocalVariableCollection)
    (variables : list LocalVariable) (variablesById : gmap string LocalVariable)
    (parsed : ParsedCollection) :
  parseCollection collection variables variablesById = Some parsed ->
  pc_name parsed = lvc_name collection
  /\ pc_modes parsed = cm_name <$> lvc_modes collection
  /\ (forall name, is_Some (pc_tokens parsed !! name) <-> name ∈ pc_modes parsed)
  /\ (forall name, pc_defaultMode parsed = Some name -> name ∈ pc_modes parsed)
  /\ (lvc_modes collection <> [] -> is_Some (pc_defaultMode parsed)).
Proof.
  unfold parseCollection.
  destruct (fold_left (addModeTokens variables variablesById) (lvc_modes collection)
              (Some ∅)) as [tokens|] eqn:Hfold; [|discriminate].
  simpl. intros [= <-]. simpl.
  split; [reflexivity|]. split; [reflexivity|]. split; [|split].
  - intros name. rewrite (addModeTokens_keys _ _ _ _ _ Hfold name), lookup_empty.
    split; [|auto]. intros [[x Hx]|H]; [discriminate Hx | exact H].
  - intros name.
    assert (head (map cm_name (lvc_modes collection)) = Some name ->
            name ∈ cm_name <$> lvc_modes collection) as Hhead.
    { destruct (lvc_modes collection); [discriminate|]. intros [= <-]. left. }
    destruct (find _ (lvc_modes collection)) as [m|] eqn:Hfind; [|exact Hhead].
    destruct (decide (cm_name m = EmptyString)); [exact Hhead|].
    intros [= <-]. apply find_some in Hfind as [Hin _].
    apply list_elem_of_fmap. exists m. split; [reflexivity|].
    apply list_elem_of_In, Hin.
  - intros Hmodes.
    assert (is_Some (head (map cm_name (lvc_modes collection)))) as Hhead.
    { destruct (lvc_modes collection); [contradiction Hmodes; reflexivity|].
      eexists; reflexivity. }
    destruct (find _ (lvc_modes collection)) as [m|]; [|exact Hhead].
    destruct (decide (cm_name m = EmptyString)); [exact Hhead|]. eexists; reflexivity.
Qed.

Lemma parseCollection_shape_witness :
  let variable :=
    mkVariable "VariableID:1:1" "Font/Body" "VariableCollectionId:1:0" RT_STRING
      [] {[ "1:0" := VStr "Inter" ]} false None None in
  let token := createToken variable (VStr "Inter") ∅ in
  let parsed :=
    mkParsedCollection "Typography" (Some "Figma collection: Typography") ["Default"]
      (Some "Default")
      {[ "Default" :=
           mkNode None {[ "font" := mkNode None {[ "body" := mkNode (Some token) ∅ ]} ]} ]} in
  pc_name parsed = "Typography"
  /\ pc_modes parsed = cm_name <$> [mkMode "1:0" "Default"]
  /\ (forall name, is_Some (pc_tokens parsed !! name) <-> name ∈ pc_modes parsed)
  /\ (forall name, pc_defaultMode parsed = Some name -> name ∈ pc_modes parsed)
  /\ ([mkMode "1:0" "Default"] <> [] -> is_Some (pc_defaultMode parsed)).
Proof.
  intros variable token parsed.
  apply (parseCollection_shape
           (mkLocalCollection "VariableCollectionId:1:0" "Typography"
              [mkMode "1:0" "Default"] "1:0" false)
           [variable] ∅ parsed).
  vm_compute. reflexivity.
Defined.

(** The tree stored under a mode name is the tree built from the values of
    the last mode of that name. *)
Theorem parseCollection_mode_tree (collection : LocalVariableCollection)
    (variables : list LocalVariable) (variablesById : gmap string LocalVariable)
    (parsed : ParsedCollection) (before after : list CollectionMode)
    (m : CollectionMode) :
  parseCollection collection variables variablesById = Some parsed ->
  lvc_modes collection = before ++ m :: after ->
  cm_name m ∉ cm_name <$> after ->
  exists modeTokens,
    pc_tokens parsed !! cm_name m = Some modeTokens
    /\ buildModeTokens (cm_modeId m) variables variablesById = Some modeTokens.
Proof.
  unfold parseCollection.
  destruct (fold_left (addModeTokens variables variablesById) (lvc_modes collection)
              (Some ∅)) as [tokens|] eqn:Hfold; [|discriminate].
  simpl. intros [= <-] Hmodes Hlast. simpl. rewrite Hmodes in Hfold.
  pose proof (addModeTokens_trees _ _ _ _ _ _ _ Hfold Hlast) as Htree.
  assert (is_Some (tokens !! cm_name m)) as [modeTokens HmodeTokens].
  { apply (addModeTokens_keys _ _ _ _ _ Hfold). right.
    rewrite fmap_app, fmap_cons. apply elem_of_app. right. left. }
  exists modeTokens. split; [exact HmodeTokens | congruence].
Qed.

Lemma parseCollection_mode_tree_witness :
  let variable :=
    mkVariable "VariableID:1:1" "Font/Body" "VariableCollectionId:1:0" RT_STRING
      [] {[ "1:0" := VStr "Inter" ]} false None None in
  let token := createToken variable (VStr "Inter") ∅ in
  let parsed :=
    mkParsedCollection "Typography" (Some "Figma collection: Typography") ["Default"]
      (Some "Default")
      {[ "Default" :=
           mkNode None {[ "font" := mkNode None {[ "body" := mkNode (Some token) ∅ ]} ]} ]} in
  exists modeTokens,
    pc_tokens parsed !! "Default" = Some modeTokens
    /\ buildModeTokens "1:0" [variable] ∅ = Some modeTokens.
Proof.
  intros variable token parsed.
  apply (parseCollection_mode_tree
           (mkLocalCollection "VariableCollectionId:1:0" "Typography"
              [mkMode "1:0" "Default"] "1:0" false)
           [variable] ∅ parsed [] [] (mkMode "1:0" "Default")).
  - vm_compute. reflexivity.
  - reflexivity.
  - intros Hin. inversion Hin.
Defined.
(** *** All collections *)

Lemma indexVariables_fold (variables : list LocalVariable) (cid : string) :
  forall start : gmap string LocalVariable * gmap string (list LocalVariable),
    default []
      ((fold_left
          (fun maps variable =>
             let collectionVars :=
               default [] (maps.2 !! var_variableCollectionId variable) in
             (<[var_id variable := variable]> maps.1,
              <[var_variableCollectionId variable := collectionVars ++ [variable]]> maps.2))
          variables start).2 !! cid)
    = default [] (start.2 !! cid)
      ++ List.filter (fun variable => bool_decide (var_variableCollectionId variable = cid))
           variables.
Proof.
  induction variables as [|v vs IH]; intros start.
  - simpl. rewrite app_nil_r. reflexivity.
  - cbn [fold_left List.filter]. rewrite IH. cbn [snd].
    destruct (decide (var_variableCollectionId v = cid)) as [Heq|Hne].
    + rewrite bool_decide_eq_true_2 by exact Heq. rewrite Heq, lookup_insert_eq.
      simpl. rewrite <- app_assoc. reflexivity.
    + rewrite bool_decide_eq_false_2 by exact Hne.
      rewrite lookup_insert_ne by exact Hne. reflexivity.
Qed.

Lemma indexVariables_byCollection (variables : list LocalVariable)
    (collection : LocalVariableCollection) :
  default [] ((indexVariables variables).2 !! lvc_id collection)
  = variablesOf variables collection.
Proof.
  unfold indexVariables. rewrite indexVariables_fold. simpl.
  rewrite lookup_empty. reflexivity.
Qed.

Lemma variablesOf_empty (variables : list LocalVariable)
    (collection : LocalVariableCollection) :
  (length (variablesOf variables collection) =? 0)%nat
  = negb (existsb (fun variable =>
                     bool_decide (var_variableCollectionId variable = lvc_id collection))
            variables).
Proof.
  unfold variablesOf. induction variables as [|v vs IH]; simpl; [reflexivity|].
  destruct (bool_decide (var_variableCollectionId v = lvc_id collection)); simpl;
    [reflexivity | exact IH].
Qed.

Lemma parseVariables_fold (variables : list LocalVariable)
    (collections : list LocalVariableCollection) :
  forall acc result,
    fold_left
      (fun result collection =>
         result ← result;
         let collectionVariables :=
           default [] ((indexVariables variables).2 !! lvc_id collection) in
         if (length collectionVariables =? 0)%nat then Some result
         else if lvc_hiddenFromPublishing collection then Some result
         else
           parsed ← parseCollection collection collectionVariables
                      (indexVariables variables).1;
           Some (result ++ [parsed]))
      collections acc = Some result ->
    exists start added,
      acc = Some start /\ result = start ++ added
      /\ Forall2 (fun collection parsed =>
                    parseCollection collection (variablesOf variables collection)
                      (indexVariables variables).1 = Some parsed)
           (List.filter (kept variables) collections) added.
Proof.
  induction collections as [|c cs IH]; intros acc result.
  - simpl. intros ->. exists result, []. rewrite app_nil_r. repeat split. constructor.
  - cbn [fold_left]. intros Hfold.
    apply IH in Hfold as (start & added & Hstep & -> & Hadded).
    destruct acc as [before|]; [|discriminate Hstep]. simpl in Hstep.
    rewrite indexVariables_byCollection, variablesOf_empty in Hstep.
    cbn [List.filter]. unfold kept at 1.
    destruct (existsb _ variables); simpl in Hstep.
    + destruct (lvc_hiddenFromPublishing c); simpl in *.
      * injection Hstep as ->. exists start, added. auto.
      * destruct (parseCollection c (variablesOf variables c) (indexVariables variables).1)
          as [parsed|] eqn:Hparsed; [|discriminate Hstep].
        injection Hstep as <-. exists before, (parsed :: added).
        rewrite <- app_assoc. repeat split. constructor; assumption.
    + rewrite andb_false_r. injection Hstep as ->. exists start, added. auto.
Qed.

(** [parseVariables] returns one collection for each input collection that
    is published and has at least one variable, in the order of the input,
    and drops the others; each is what [parseCollection] makes of the
    collection and of its own variables in input order; hence each carries
    the name of its collection and the description made of that name. *)
Theorem parseVariables_keeps_published_nonempty (variables : list LocalVariable)
    (collections : list LocalVariableCollection) (result : list ParsedCollection) :
  parseVariables variables collections = Some result ->
  Forall2 (fun collection parsed =>
             parseCollection collection (variablesOf variables collection)
               (indexVariables variables).1 = Some parsed)
    (List.filter (kept variables) collections) result
  /\ pc_name <$> result = lvc_name <$> List.filter (kept variables) collections
  /\ Forall (fun parsed =>
               pc_description parsed = Some ("Figma collection: " +:+ pc_name parsed))
       result.
Proof.
  unfold parseVariables.
  destruct (indexVariables variables) as [variablesById variablesByCollection] eqn:Hindex.
  intros Hfold.
  assert (variablesById = (indexVariables variables).1) as -> by (rewrite Hindex; reflexivity).
  assert (variablesByCollection = (indexVariables variables).2) as ->
    by (rewrite Hindex; reflexivity).
  apply parseVariables_fold in Hfold as (start & added & [= <-] & -> & Hadded).
  simpl. clear Hindex.
  assert (forall c, c ∈ List.filter (kept variables) collections ->
                    lvc_hiddenFromPublishing c = false) as Hvisible.
  { intros c Hc. apply list_elem_of_In, filter_In in Hc as [_ Hc].
    unfold kept in Hc. destruct (lvc_hiddenFromPublishing c); [discriminate | reflexivity]. }
  split; [exact Hadded|].
  induction Hadded as [|c parsed cs ps Hparsed _ IH]; [split; constructor|].
  destruct IH as [Hnames Hdescriptions].
  { intros c' Hc'. apply Hvisible. right. exact Hc'. }
  unfold parseCollection in Hparsed.
  destruct (fold_left _ (lvc_modes c) (Some ∅)) as [tokens|]; [|discriminate].
  simpl in Hparsed. rewrite (Hvisible c) in Hparsed by left.
  injection Hparsed as <-. split.
  - rewrite !fmap_cons, Hnames. reflexivity.
  - constructor; [reflexivity | exact Hdescriptions].
Qed.

Lemma parseVariables_keeps_published_nonempty_witness :
  let variable :=
    mkVariable "VariableID:1:1" "Font/Body" "VariableCollectionId:1:0" RT_STRING
      [] {[ "1:0" := VStr "Inter" ]} false None None in
  let typography :=
    mkLocalCollection "VariableCollectionId:1:0" "Typography"
      [mkMode "1:0" "Default"] "1:0" false in
  let hidden :=
    mkLocalCollection "VariableCollectionId:1:0" "Internal"
      [mkMode "1:0" "Default"] "1:0" true in
  let empty :=
    mkLocalCollection "VariableCollectionId:2:0" "Empty"
      [mkMode "2:0" "Default"] "2:0" false in
  let token := createToken variable (VStr "Inter") {[ "VariableID:1:1" := variable ]} in
  let result :=
    [mkParsedCollection "Typography" (Some "Figma collection: Typography") ["Default"]
       (Some "Default")
       {[ "Default" :=
            mkNode None
              {[ "font" := mkNode None {[ "body" := mkNode (Some token) ∅ ]} ]} ]}] in
  Forall2 (fun collection parsed =>
             parseCollection collection (variablesOf [variable] collection)
               (indexVariables [variable]).1 = Some parsed)
    (List.filter (kept [variable]) [hidden; typography; empty]) result
  /\ pc_name <$> result
     = lvc_name <$> List.filter (kept [variable]) [hidden; typography; empty]
  /\ Forall (fun parsed =>
               pc_description parsed = Some ("Figma collection: " +:+ pc_name parsed))
       result.
Proof.
  intros variable typography hidden empty token result.
  apply (parseVariables_keeps_published_nonempty [variable] [hidden; typography; empty]
           result).
  vm_compute. reflexivity.
Defined.
(** *** The input adapter *)

Lemma validate_errors (source : FigmaInput) :
  valid (validate source) = bool_decide (validationErrors source = [])
  /\ errors (validate source)
     = if valid (validate source) then None else Some (validationErrors source).
Proof.
  unfold validate. destruct (validationErrors source); simpl; auto.
Qed.

Set Warnings "-clear-no-such-hyp".

Lemma validationErrors_nil (source : FigmaInput) :
  validationErrors source = [] <->
  (is_Some (mcpData source) \/ is_Some (variablesResponse source))
  /\ (forall data, mcpData source = Some data -> mcp_name data <> EmptyString)
  /\ (forall response, variablesResponse source = Some response ->
        response_failed response = false
        /\ is_Some (response_meta response ≫= meta_variables)
        /\ is_Some (response_meta response ≫= meta_variableCollections)).
Proof.
  unfold validationErrors.
  destruct source as [[[name modified vs cs]|] [[failed [[[mv|] [mc|]]|]]|] key]; simpl;
    try destruct (bool_decide (name = EmptyString)) eqn:Hname;
    try apply bool_decide_eq_true in Hname; try apply bool_decide_eq_false in Hname;
    try destruct failed; simpl;
    (split; [try discriminate | try (intros _; reflexivity)]);
    unfold is_Some; naive_solver.
Qed.

(** [validate] accepts a source exactly when a data source is given, the
    MCP data, if given, has a file name, and the variables response, if
    given, reports no error and has both its variables and its
    collections; it returns a list of errors exactly when it rejects. *)
Theorem validate_accepts_iff (source : FigmaInput) :
  (valid (validate source) = true <->
   (is_Some (mcpData source) \/ is_Some (variablesResponse source))
   /\ (forall data, mcpData source = Some data -> mcp_name data <> EmptyString)
   /\ (forall response, variablesResponse source = Some response ->
         response_failed response = false
         /\ is_Some (response_meta response ≫= meta_variables)
         /\ is_Some (response_meta response ≫= meta_variableCollections)))
  /\ (errors (validate source) = None <-> valid (validate source) = true).
Proof.
  destruct (validate_errors source) as [Hvalid Herrors]. split.
  - rewrite Hvalid, bool_decide_eq_true. apply validationErrors_nil.
  - rewrite Herrors. destruct (valid (validate source)); split; auto; discriminate.
Qed.

(** [FigmaAdapter.parse] raises exactly when [validate] rejects the source,
    with the errors of [validate] in the message; it never raises a
    [TypeError] and never reports a missing data source.  The theme it
    returns records the file key of the source; it is named after the MCP
    data only when no variables response is given, and [Untitled]
    otherwise. *)
Theorem parse_outcome (source : FigmaInput) (now : string)
    (outcome : (PlainError + JsError) + ParsedTheme) :
  parse source now = Some outcome ->
  match outcome with
  | inl (inl (Error message)) =>
      validationErrors source <> []
      /\ message = "Invalid Figma input: " +:+ join ", " (validationErrors source)
  | inl (inr _) => False
  | inr theme =>
      validationErrors source = []
      /\ pm_figmaFileKey (pt_meta theme) = fileKey source
      /\ pt_name theme
         = match variablesResponse source, mcpData source with
           | None, Some data => mcp_name data
           | _, _ => "Untitled"
           end
      /\ pm_source (pt_meta theme)
         = (if bool_decide (is_Some (variablesResponse source)) then "figma-api"
            else "figma-mcp")
  end.
Proof.
  unfold parse. destruct (validate_errors source) as [-> ->].
  destruct (bool_decide (validationErrors source = [])) eqn:Hvalid.
  - apply bool_decide_eq_true in Hvalid. simpl.
    destruct (proj1 (validationErrors_nil source) Hvalid) as (Hsource & _ & Hresponse).
    destruct (variablesResponse source) as [response|].
    + destruct (Hresponse _ eq_refl) as (_ & [vs Hvs] & [cs Hcs]).
      destruct (response_meta response) as [responseMeta|]; [|discriminate Hvs].
      simpl in Hvs, Hcs. rewrite Hvs, Hcs.
      destruct (parseVariables vs cs); [|discriminate].
      simpl. intros [= <-]. simpl. auto.
    + destruct (mcpData source) as [data|].
      * destruct (parseVariables _ _); [|discriminate].
        simpl. intros [= <-]. simpl. auto.
      * exfalso. destruct Hsource as [[? H]|[? H]]; discriminate H.
  - apply bool_decide_eq_false in Hvalid. simpl. intros [= <-]. auto.
Qed.

Lemma parse_outcome_witness :
  let source :=
    mkFigmaInput (Some (mkMCPData "Design System" None None None)) None (Some "abc123") in
  let theme :=
    mkParsedTheme "https://figma-to-tailwind.dev/schema/v1/theme.json" "Design System"
      "Design tokens exported from Figma file: Design System" []
      (mkParsedMeta "figma-mcp" (Some "abc123") "2024-01-01T00:00:00.000Z" "1.0.0") in
  validationErrors source = []
  /\ pm_figmaFileKey (pt_meta theme) = fileKey source
  /\ pt_name theme
     = match variablesResponse source, mcpData source with
       | None, Some data => mcp_name data
       | _, _ => "Untitled"
       end
  /\ pm_source (pt_meta theme)
     = (if bool_decide (is_Some (variablesResponse source)) then "figma-api"
        else "figma-mcp").
Proof.
  intros source theme.
  apply (parse_outcome source "2024-01-01T00:00:00.000Z" (inr theme)).
  vm_compute. reflexivity.
Defined.
(** *** Kinds and weights *)

(** No kind of token is handled twice, and five are handled by neither
    path: a token whose kind has a variable type is not skipped by the
    variable transformer and leaves the style walk's state as it is,
    whether it holds a value or a reference; a border, cubic-bezier,
    transition, animation or keyframes token is skipped by the variable
    transformer and also leaves the style walk's state as it is. *)
Theorem kinds_split_between_paths (styleName : string) (token : Token) (st : StyleState) :
  (is_Some (TOKEN_TYPE_TO_FIGMA (t_type token)) ->
   (t_type token ∉ SKIP_TYPES) /\ styleForToken styleName token st = inr st)
  /\ (t_type token ∈ [Tborder; TcubicBezier; Ttransition; Tanimation; Tkeyframes] ->
      t_type token ∈ SKIP_TYPES
      /\ TOKEN_TYPE_TO_FIGMA (t_type token) = None
      /\ styleForToken styleName token st = inr st).
Proof.
  destruct token as [t value description extensions]. simpl. split.
  - intros [figmaType Htype].
    destruct t; try discriminate Htype; (split; [|reflexivity]);
      intros Hin; repeat (apply elem_of_cons in Hin as [Hin|Hin]; [discriminate Hin|]);
      inversion Hin.
  - intros Hin.
    repeat (apply elem_of_cons in Hin as [->|Hin];
            [split; [apply (bool_decide_unpack _); vm_compute; exact I
                    | split; reflexivity]|]).
    inversion Hin.
Qed.

(** A mode token of a kind without a variable type leaves no trace: when
    the tree of a mode holds, at the path of a variable, a token with a
    value of such a kind, the per-mode pass writes no value for that mode
    and records neither a Skipped entry nor a warning. *)
Theorem unconvertible_mode_token_leaves_no_trace (collection : TokenCollection)
    (path : list string) (variableId : string) (collectionModeIds : gmap string string)
    (st : TransformState) (modeName : string) (modeTokens : TokenGroup) (token : Token) :
  tokens collection !! modeName = Some modeTokens ->
  findModeToken modeTokens path = Some token ->
  aliased token = false ->
  TOKEN_TYPE_TO_FIGMA (t_type token) = None ->
  setModeValue collection path variableId collectionModeIds st modeName = st.
Proof.
  intros Htokens Hfound Hliteral Htype. unfold setModeValue.
  rewrite Htokens, Hfound.
  destruct (truthy (collectionModeIds !! modeName)); [|reflexivity].
  destruct token as [t [value|reference] description extensions];
    [|discriminate Hliteral].
  destruct st as [counter body rep].
  destruct t; try discriminate Htype; reflexivity.
Qed.

Lemma unconvertible_mode_token_leaves_no_trace_witness :
  let collection :=
    mkCollection "primitives" None ["light"; "dark"] "light"
      {[ "light" := [("edge", Leaf (mkToken Tstring (inl "solid") None None))];
         "dark" := [("edge", Leaf (mkToken Tborder (inl "1px solid") None None))] ]} in
  let st := mkState 3 emptyBody newReport in
  setModeValue collection ["edge"] "temp_var_3" {[ "dark" := "temp_mode_2" ]} st "dark" = st.
Proof.
  intros collection st.
  apply (unconvertible_mode_token_leaves_no_trace collection ["edge"] "temp_var_3"
           {[ "dark" := "temp_mode_2" ]} st "dark"
           [("edge", Leaf (mkToken Tborder (inl "1px solid") None None))]
           (mkToken Tborder (inl "1px solid") None None)).
  - vm_compute. reflexivity.
  - vm_compute. reflexivity.
  - reflexivity.
  - reflexivity.
Defined.

Lemma lowerAscii_idempotent (c : Ascii.ascii) : lowerAscii (lowerAscii c) = lowerAscii c.
Proof. destruct c as [[] [] [] [] [] [] [] []]; vm_compute; reflexivity. Qed.

Lemma toLowerCase_idempotent (s : string) : toLowerCase (toLowerCase s) = toLowerCase s.
Proof.
  induction s as [|c s IH]; [reflexivity|].
  cbn [toLowerCase]. rewrite lowerAscii_idempotent, IH. reflexivity.
Qed.

(** Font weights.  A name of ASCII characters that is not, in lower case,
    a name every object inherits (the table lookup of the code would find
    that property) is looked up without regard to case and gives one of the
    nine weights 100 to 900, 400 when it is not in the table; and the style
    transformer's copy of the table, [normalizeFontWeight], gives the same
    weight as the variable transformer's [fontWeightToNumber]. *)
Theorem font_weight_tables (name : string) :
  asciiOnly name ->
  toLowerCase name ∉ objectPrototypeNames ->
  fontWeightToNumber (inr name) ∈ [100; 200; 300; 400; 500; 600; 700; 800; 900]%R
  /\ normalizeFontWeight (inr name) = fontWeightToNumber (inr name)
  /\ fontWeightToNumber (inr (toLowerCase name)) = fontWeightToNumber (inr name)
  /\ (toLowerCase name ∉ (fst <$> keywords) -> fontWeightToNumber (inr name) = 400%R).
Proof.
  intros _ _. unfold normalizeFontWeight, fontWeightToNumber.
  rewrite toLowerCase_idempotent.
  split; [|split; [reflexivity|split; [reflexivity|]]].
  - unfold keywords. cbn [lookupKey].
    repeat (destruct (decide (_ = toLowerCase name));
            [apply list_elem_of_In; simpl; tauto|]).
    apply list_elem_of_In; simpl; tauto.
  - intros Hunknown. unfold keywords in *. cbn [lookupKey].
    repeat (destruct (decide (_ = toLowerCase name)) as [Heq|_];
            [exfalso; apply Hunknown; rewrite <- Heq;
             apply (bool_decide_unpack _); vm_compute; exact I|]).
    reflexivity.
Qed.

Lemma font_weight_tables_witness :
  fontWeightToNumber (inr "SemiBold") ∈ [100; 200; 300; 400; 500; 600; 700; 800; 900]%R
  /\ normalizeFontWeight (inr "SemiBold") = fontWeightToNumber (inr "SemiBold")
  /\ fontWeightToNumber (inr (toLowerCase "SemiBold")) = fontWeightToNumber (inr "SemiBold")
  /\ (toLowerCase "SemiBold" ∉ (fst <$> keywords) ->
      fontWeightToNumber (inr "SemiBold") = 400%R).
Proof.
  apply (font_weight_tables "SemiBold").
  - apply (bool_decide_unpack _). vm_compute. exact I.
  - apply (bool_decide_unpack _). vm_compute. exact I.
Defined.

(** *** The lookup maps and the normal form of names *)

Lemma indexVariables_byId_fold (variables : list LocalVariable) (id : string) :
  forall start : gmap string LocalVariable * gmap string (list LocalVariable),
    (fold_left
       (fun maps variable =>
          let collectionVars :=
            default [] (maps.2 !! var_variableCollectionId variable) in
          (<[var_id variable := variable]> maps.1,
           <[var_variableCollectionId variable := collectionVars ++ [variable]]> maps.2))
       variables start).1 !! id
    = match last (List.filter (fun variable => bool_decide (var_id variable = id))
                    variables) with
      | Some variable => Some variable
      | None => start.1 !! id
      end.
Proof.
  induction variables as [|v vs IH]; intros start; [reflexivity|].
  cbn [fold_left List.filter]. rewrite IH. cbn [fst].
  destruct (decide (var_id v = id)) as [Heq|Hne].
  - rewrite bool_decide_eq_true_2 by exact Heq. rewrite Heq, lookup_insert_eq.
    destruct (List.filter _ vs) as [|w ws]; [reflexivity|].
    rewrite last_cons_cons.
    destruct (last (w :: ws)) eqn:Hlast; [reflexivity|].
    apply last_None in Hlast. discriminate Hlast.
  - rewrite bool_decide_eq_false_2 by exact Hne.
    rewrite lookup_insert_ne by exact Hne. reflexivity.
Qed.

Lemma indexVariables_members_fold (variables : list LocalVariable) (cid : string) :
  forall start : gmap string LocalVariable * gmap string (list LocalVariable),
    (fold_left
       (fun maps variable =>
          let collectionVars :=
            default [] (maps.2 !! var_variableCollectionId variable) in
          (<[var_id variable := variable]> maps.1,
           <[var_variableCollectionId variable := collectionVars ++ [variable]]> maps.2))
       variables start).2 !! cid
    = match List.filter
              (fun variable => bool_decide (var_variableCollectionId variable = cid))
              variables with
      | [] => start.2 !! cid
      | members => Some (default [] (start.2 !! cid) ++ members)
      end.
Proof.
  induction variables as [|v vs IH]; intros start; [reflexivity|].
  cbn [fold_left List.filter]. rewrite IH. cbn [snd].
  destruct (decide (var_variableCollectionId v = cid)) as [Heq|Hne].
  - rewrite bool_decide_eq_true_2 by exact Heq. rewrite Heq, lookup_insert_eq. simpl.
    destruct (List.filter _ vs) as [|w ws]; [reflexivity|].
    rewrite <- app_assoc. reflexivity.
  - rewrite bool_decide_eq_false_2 by exact Hne.
    rewrite lookup_insert_ne by exact Hne. reflexivity.
Qed.

(** The two lookup maps of [parseVariables]: an id leads to the last
    variable of the input that carries it, and to none when no variable
    does; a collection id leads to the variables of that collection in the
    order of the input, and to none when there is no such variable. *)
Theorem indexVariables_lookup (variables : list LocalVariable) (id : string)
    (collection : LocalVariableCollection) :
  (indexVariables variables).1 !! id
  = last (List.filter (fun variable => bool_decide (var_id variable = id)) variables)
  /\ (indexVariables variables).2 !! lvc_id collection
     = match variablesOf variables collection with
       | [] => None
       | members => Some members
       end.
Proof.
  unfold indexVariables, variablesOf. split.
  - rewrite indexVariables_byId_fold. simpl. rewrite lookup_empty.
    destruct (last _); reflexivity.
  - rewrite indexVariables_members_fold. simpl. rewrite lookup_empty. reflexivity.
Qed.

Lemma lowerAscii_isSpace (c : Ascii.ascii) : isSpace (lowerAscii c) = isSpace c.
Proof. destruct c as [[] [] [] [] [] [] [] []]; vm_compute; reflexivity. Qed.

Lemma lowerAscii_hyphen : lowerAscii (Ascii.ascii_of_nat 45) = Ascii.ascii_of_nat 45.
Proof. reflexivity. Qed.

Lemma isSpace_hyphen : isSpace (Ascii.ascii_of_nat 45) = false.
Proof. reflexivity. Qed.

Lemma replaceSpaces_normal (s : string) :
  forall inRun,
    Forall (fun c => isSpace c = false /\ lowerAscii c = c)
      (String.list_ascii_of_string (replaceSpaces inRun (toLowerCase s))).
Proof.
  induction s as [|c s IH]; intros inRun; [constructor|].
  cbn [toLowerCase replaceSpaces]. rewrite lowerAscii_isSpace.
  destruct (isSpace c) eqn:Hspace.
  - destruct inRun; [apply IH|].
    cbn [String.list_ascii_of_string]. constructor; [|apply IH].
    split; [apply isSpace_hyphen | apply lowerAscii_hyphen].
  - cbn [String.list_ascii_of_string]. constructor; [|apply IH].
    split; [rewrite lowerAscii_isSpace; exact Hspace | apply lowerAscii_idempotent].
Qed.

Lemma replaceSpaces_fixed (s : string) :
  Forall (fun c => isSpace c = false /\ lowerAscii c = c) (String.list_ascii_of_string s) ->
  replaceSpaces false (toLowerCase s) = s.
Proof.
  induction s as [|c s IH]; [reflexivity|].
  cbn [String.list_ascii_of_string]. intros Hnormal.
  apply Forall_cons in Hnormal as [[Hspace Hlower] Hnormal].
  cbn [toLowerCase replaceSpaces]. rewrite Hlower, Hspace, (IH Hnormal). reflexivity.
Qed.

(** Names in normal form: for a variable name of ASCII characters, every
    segment of the place the variable is stored at, and every segment named
    by a reference to it, is free of white space and of upper-case letters,
    and normalising it again changes nothing. *)
Theorem storage_path_normalised (name : string) :
  asciiOnly name ->
  Forall (fun segment =>
            Forall (fun c => isSpace c = false /\ lowerAscii c = c)
              (String.list_ascii_of_string segment)
            /\ kebab segment = segment)
    (storagePath name ++ map kebab (split (Ascii.ascii_of_nat 47) name)).
Proof.
  intros _.
  assert (forall s, Forall (fun c => isSpace c = false /\ lowerAscii c = c)
                      (String.list_ascii_of_string (kebab s))
                    /\ kebab (kebab s) = kebab s) as Hkebab.
  { intros s. pose proof (replaceSpaces_normal s false) as Hnormal.
    split; [exact Hnormal|]. apply replaceSpaces_fixed, Hnormal. }
  unfold storagePath, buildTokenPath. cbv beta iota zeta.
  rewrite !Forall_app, Forall_singleton.
  repeat split;
    try (apply List.Forall_map, Forall_forall; intros s _; apply Hkebab);
    apply Hkebab.
Qed.

Lemma storage_path_normalised_witness :
  Forall (fun segment =>
            Forall (fun c => isSpace c = false /\ lowerAscii c = c)
              (String.list_ascii_of_string segment)
            /\ kebab segment = segment)
    (storagePath "Colors/Primary Blue"
       ++ map kebab (split (Ascii.ascii_of_nat 47) "Colors/Primary Blue")).
Proof.
  apply (storage_path_normalised "Colors/Primary Blue").
  apply (bool_decide_unpack _). vm_compute. exact I.
Defined.

(* ===================================================================== *)
(** ** Tokens of a tree and what the transformation makes of them *)
(* ===================================================================== *)

(** *** The tokens a tree holds *)

Lemma holds_sigil (node : TokenNode) (path : list string) (token : Token) :
  holds node path token ->
  Forall (fun segment => startsWith segment "$" = false) path.
Proof. induction 1; constructor; assumption. Qed.

(** [flattenTokens] lists the tokens the tree holds, each under the base
    path followed by its path. *)
Lemma flattenNode_holds (node : TokenNode) :
  forall (base path : list string) (token : Token),
    mkFlat path token ∈ flattenNode node base <->
    exists suffix, path = base ++ suffix /\ holds node suffix token.
Proof.
  induction node as [leaf|group IH] using TokenNode_nested_ind; intros base path token.
  - simpl. rewrite list_elem_of_singleton. split.
    + intros [= -> ->]. exists []. rewrite app_nil_r. split; [reflexivity | constructor].
    + intros (suffix & -> & Hholds). inversion Hholds; subst.
      rewrite app_nil_r. reflexivity.
  - rewrite flattenNode_group, list_elem_of_In, in_flat_map. split.
    + intros ([key child] & Hin & Hft). simpl in Hft.
      destruct (startsWith key "$") eqn:Hsigil; [inversion Hft|].
      apply list_elem_of_In in Hin, Hft.
      rewrite Forall_forall in IH.
      apply (IH (key, child) Hin) in Hft as (suffix & -> & Hholds).
      exists (key :: suffix). rewrite <- app_assoc. split; [reflexivity|].
      econstructor; eassumption.
    + intros (suffix & -> & Hholds).
      inversion Hholds as [|group' key child rest token' Hin Hsigil Hchild]; subst.
      exists (key, child). split; [apply list_elem_of_In, Hin|].
      simpl. rewrite Hsigil. apply list_elem_of_In.
      rewrite Forall_forall in IH. apply (IH (key, child) Hin).
      exists rest. rewrite <- app_assoc. auto.
Qed.

Lemma defaultLeaves_holds (collection : TokenCollection) (defaultTokens : TokenGroup)
    (ft : FlattenedToken) :
  tokens collection !! defaultMode collection = Some defaultTokens ->
  ft ∈ defaultLeaves collection <-> holds (Group defaultTokens) (ft_path ft) (ft_token ft).
Proof.
  intros Htokens. unfold defaultLeaves, flattenTokens. rewrite Htokens.
  destruct ft as [path token]. rewrite flattenNode_holds. simpl. split.
  - intros (suffix & -> & Hholds). exact Hholds.
  - intros Hholds. exists path. auto.
Qed.

Lemma defaultLeaves_tree (collection : TokenCollection) (ft : FlattenedToken) :
  ft ∈ defaultLeaves collection ->
  exists defaultTokens,
    tokens collection !! defaultMode collection = Some defaultTokens
    /\ holds (Group defaultTokens) (ft_path ft) (ft_token ft).
Proof.
  intros Hin. pose proof Hin as Hleaf. unfold defaultLeaves in Hin.
  match type of Hin with
  | context [match ?x with _ => _ end] =>
      destruct x as [defaultTokens|] eqn:Htokens
  end; [|inversion Hin].
  exists defaultTokens. split; [exact Htokens|].
  apply (defaultLeaves_holds collection defaultTokens ft Htokens), Hleaf.
Qed.

(** The navigation of the per-mode pass finds the tokens the tree holds. *)
Lemma holds_navigate (node : TokenNode) (path : list string) (token : Token) :
  holds node path token -> uniqueKeys node -> navigate node path = Some (Leaf token).
Proof.
  induction 1 as [leaf|group key child path token Hin Hsigil Hchild IH]; intros Hunique.
  - reflexivity.
  - inversion Hunique as [|group' Hkeys Hchildren]; subst. simpl.
    rewrite (elem_of_lookupKey key child group Hkeys Hin).
    apply IH. rewrite Forall_forall in Hchildren. exact (Hchildren (key, child) Hin).
Qed.

Lemma navigate_holds (path : list string) :
  forall (node : TokenNode) (token : Token),
    Forall (fun segment => startsWith segment "$" = false) path ->
    navigate node path = Some (Leaf token) -> holds node path token.
Proof.
  induction path as [|key path IH]; intros node token Hsigil; simpl.
  - intros [= ->]. constructor.
  - destruct node as [leaf|group]; [discriminate|].
    destruct (lookupKey key group) as [child|] eqn:Hlookup; [|discriminate].
    apply Forall_cons in Hsigil as [Hkey Hsigil]. intros Hnav.
    apply (holds_group group key child); [|exact Hkey|apply IH; assumption].
    apply lookupKey_elem_of, Hlookup.
Qed.


Lemma findModeToken_holds (tree : TokenGroup) (path : list string) (token : Token) :
  Forall (fun segment => startsWith segment "$" = false) path ->
  findModeToken tree path = Some token -> holds (Group tree) path token.
Proof.
  intros Hsigil. unfold findModeToken.
  destruct (navigate (Group tree) path) as [[leaf|group]|] eqn:Hnav; try discriminate.
  intros [= ->]. apply navigate_holds; assumption.
Qed.

(** A tree with distinct keys holds at most one token under a path. *)
Lemma holds_functional (node : TokenNode) (path : list string) (token token' : Token) :
  uniqueKeys node -> holds node path token -> holds node path token' -> token = token'.
Proof.
  intros Hunique Hholds Hholds'.
  pose proof (holds_navigate _ _ _ Hholds Hunique) as Hnavigate.
  rewrite (holds_navigate _ _ _ Hholds' Hunique) in Hnavigate.
  injection Hnavigate as ->. reflexivity.
Qed.

(** *** Lists with one contributing element *)

Lemma filter_flat_map_none {A B : Type} (P : B -> Prop) `{forall b, Decision (P b)}
    (F : A -> list B) (l : list A) :
  (forall j y, l !! j = Some y -> Forall (fun b => ~ P b) (F y)) ->
  filter P (flat_map F l) = [].
Proof.
  induction l as [|y l IH]; intros Hnone; [reflexivity|].
  simpl. rewrite filter_app, (filter_none P (F y)) by exact (Hnone 0 y eq_refl).
  apply IH. intros j z Hj. exact (Hnone (S j) z Hj).
Qed.

Lemma filter_flat_map_sole {A B : Type} (P : B -> Prop) `{forall b, Decision (P b)}
    (F : A -> list B) (l : list A) :
  forall (k : nat) (x : A),
    l !! k = Some x ->
    (forall j y, l !! j = Some y -> j <> k -> Forall (fun b => ~ P b) (F y)) ->
    filter P (flat_map F l) = filter P (F x).
Proof.
  induction l as [|y l IH]; intros k x Hk Hothers; [discriminate Hk|].
  simpl. rewrite filter_app. destruct k as [|k].
  - injection Hk as ->. rewrite (filter_flat_map_none P F l); [apply app_nil_r|].
    intros j z Hj. apply (Hothers (S j) z Hj). discriminate.
  - rewrite (filter_none P (F y)) by (apply (Hothers 0 y eq_refl); discriminate).
    simpl. apply (IH k x Hk). intros j z Hj Hne.
    apply (Hothers (S j) z Hj). congruence.
Qed.

(** *** Sample collections *)

(** The tokens the trees of [edgeCollection] hold. *)
Lemma edgeCollection_holds (name modeName : string) (modeTokens : TokenGroup)
    (path : list string) (token : Token) :
  tokens (edgeCollection name) !! modeName = Some modeTokens ->
  holds (Group modeTokens) path token ->
  modeName = "default" /\ (path = ["edge"] \/ path = ["gap"]).
Proof.
  intros Htokens Hholds.
  destruct (decide (modeName = "default")) as [->|Hne].
  - split; [reflexivity|].
    vm_compute in Htokens. injection Htokens as <-.
    inversion Hholds as [|group key child rest token' Hin Hsigil Hchild]; subst.
    apply elem_of_cons in Hin as [Hin|Hin].
    { injection Hin as -> ->. inversion Hchild; subst. left. reflexivity. }
    apply elem_of_cons in Hin as [Hin|Hin].
    { injection Hin as -> ->. inversion Hchild; subst. right. reflexivity. }
    inversion Hin.
  - unfold edgeCollection in Htokens. simpl in Htokens.
    rewrite lookup_singleton_ne in Htokens by congruence. discriminate.
Qed.

Lemma edgeCollection_tokens (name : string) :
  tokens (edgeCollection name) !! defaultMode (edgeCollection name) = Some edgeTokens.
Proof. apply lookup_singleton_eq. Qed.

Lemma edgeTokens_uniqueKeys : uniqueKeys (Group edgeTokens).
Proof.
  constructor.
  - apply (bool_decide_unpack _). vm_compute. exact I.
  - repeat constructor.
Qed.

Lemma edgeTokens_edge :
  holds (Group edgeTokens) ["edge"] (mkToken Tborder (inl "1px solid") None None).
Proof. econstructor; [left | reflexivity | constructor]. Qed.


(** *** What a conversion records *)

Lemma callSkipped_path (path : string) (token : Token) (entry : SkippedToken) :
  entry ∈ callSkipped (path, token) -> aliased token = true /\ s_path entry = path.
Proof.
  unfold callSkipped, aliased.
  destruct token as [ty [value|reference] description extensions]; simpl.
  - destruct ty; simpl; try (intros Hin; inversion Hin; fail).
    + unfold dimensionToNumber. destruct (decide _); simpl; intros Hin; inversion Hin.
    + destruct (decide _); simpl; intros Hin; inversion Hin.
  - destruct ty; simpl; intros Hin; apply list_elem_of_singleton in Hin; subst;
      split; reflexivity.
Qed.


(** The tokens converted for a leaf are tokens the trees of the declared
    modes hold at the leaf's path. *)
Lemma leafCalls_holds (options : FigmaOutputAdapterOptions) (collection : TokenCollection)
    (ft : FlattenedToken) (call : string * Token) :
  Forall (fun segment => startsWith segment "$" = false) (ft_path ft) ->
  call ∈ leafCalls options collection ft ->
  becomesVariable options ft = true
  /\ exists modeName modeTokens,
       modeName ∈ modes collection
       /\ tokens collection !! modeName = Some modeTokens
       /\ holds (Group modeTokens) (ft_path ft) (snd call)
       /\ fst call = valuePath collection modeName (ft_path ft).
Proof.
  intros Hsigil. unfold leafCalls.
  destruct (becomesVariable options ft); [|intros Hin; inversion Hin].
  intros Hin. split; [reflexivity|].
  apply list_elem_of_In, in_flat_map in Hin as (modeName & Hmode & Hin).
  apply list_elem_of_In in Hmode, Hin.
  unfold modeCall in Hin.
  destruct (tokens collection !! modeName) as [modeTokens|] eqn:Htokens;
    [|inversion Hin].
  simpl in Hin.
  destruct (findModeToken modeTokens (ft_path ft)) as [modeToken|] eqn:Hfound;
    [|inversion Hin].
  simpl in Hin. apply list_elem_of_singleton in Hin. subst call.
  exists modeName, modeTokens. repeat split; try assumption.
  apply findModeToken_holds; assumption.
Qed.

Lemma leafSkipped_origin (options : FigmaOutputAdapterOptions)
    (collection : TokenCollection) (ft : FlattenedToken) (entry : SkippedToken) :
  Forall (fun segment => startsWith segment "$" = false) (ft_path ft) ->
  entry ∈ leafSkipped options collection ft ->
  s_path entry = join "." (ft_path ft)
  \/ exists modeName modeTokens token,
       modeName ∈ modes collection
       /\ tokens collection !! modeName = Some modeTokens
       /\ holds (Group modeTokens) (ft_path ft) token
       /\ aliased token = true
       /\ s_path entry = valuePath collection modeName (ft_path ft).
Proof.
  intros Hsigil. unfold leafSkipped.
  destruct (bool_decide _).
  { intros Hin. apply list_elem_of_singleton in Hin. subst. left. reflexivity. }
  destruct (TOKEN_TYPE_TO_FIGMA _).
  2: { intros Hin. apply list_elem_of_singleton in Hin. subst. left. reflexivity. }
  intros Hin. right.
  apply list_elem_of_In, in_flat_map in Hin as ([path token] & Hcall & Hin).
  apply list_elem_of_In in Hcall, Hin.
  apply callSkipped_path in Hin as [Haliased Hpath].
  apply (leafCalls_holds options collection ft _ Hsigil) in Hcall
    as (_ & modeName & modeTokens & Hmode & Htokens & Hholds & Hcall).
  simpl in *. subst path.
  exists modeName, modeTokens, token. auto.
Qed.

(** *** Composite tokens *)

(** Every variable-create op is made for a token of a default-mode tree
    that becomes a variable, and is named by that token's path. *)
Lemma variable_origin (theme : ThemeFile) (options : FigmaOutputAdapterOptions)
    (c0 : nat) (v : VariableCreate) :
  v ∈ variables (res_requestBody (fst (transformToFigmaVariables theme options c0))) ->
  exists j collection defaultTokens path token,
    collections theme !! j = Some collection
    /\ tokens collection !! defaultMode collection = Some defaultTokens
    /\ holds (Group defaultTokens) path token
    /\ vc_name v = join "/" path
    /\ becomesVariable options (mkFlat path token) = true
    /\ t_type token ∉ SKIP_TYPES.
Proof.
  rewrite transform_unfold. simpl.
  destruct (transform_outputs theme options) as (Hvars & _).
  unfold st_variables in Hvars. intros Hv.
  assert (vc_name v
            ∈ flat_map (fun c => flat_map (leafVariableNames options) (defaultLeaves c))
                (collections theme)) as Hin
    by (rewrite <- Hvars; apply list_elem_of_fmap_2; exact Hv).
  apply list_elem_of_In, in_flat_map in Hin as (collection & Hcollection & Hin).
  apply in_flat_map in Hin as (ft & Hft & Hin).
  apply list_elem_of_In in Hcollection, Hft.
  apply list_elem_of_lookup_1 in Hcollection as [j Hj].
  apply defaultLeaves_tree in Hft as (defaultTokens & Htokens & Hholds).
  unfold leafVariableNames in Hin.
  destruct (becomesVariable options ft) eqn:Hbecomes; [|inversion Hin].
  destruct Hin as [Hin|[]].
  exists j, collection, defaultTokens, (ft_path ft), (ft_token ft).
  destruct ft as [path token]. simpl in *.
  repeat split; try assumption; [symmetry; exact Hin|].
  unfold becomesVariable in Hbecomes.
  apply andb_true_iff in Hbecomes as [Hbecomes _].
  apply andb_true_iff in Hbecomes as [Hbecomes _].
  apply negb_true_iff, bool_decide_eq_false in Hbecomes. exact Hbecomes.
Qed.

(** C5.  For every token a collection's default-mode tree holds whose
    type is one of typography, shadow, border, gradient, cubicBezier,
    transition, animation, keyframes: the report has the Skipped entry of
    that token, with the keys of its path joined by dots as path and its
    type as original type; a variable-create that carries the name of the
    path, if there is one, was created for a token of another type, and
    there is none when the tree repeats no key and no other token of a
    default-mode tree of the theme has the same name; and when the tree
    repeats no key, no other token of a default-mode tree of the theme has
    the same dotted path, and no reference is reported under that path,
    this entry is the only Skipped entry with that path. *)
Theorem composite_tokens_skipped (theme : ThemeFile) (options : FigmaOutputAdapterOptions)
    (c0 i : nat) (collection : TokenCollection) (defaultTokens : TokenGroup)
    (path : list string) (token : Token) :
  collections theme !! i = Some collection ->
  tokens collection !! defaultMode collection = Some defaultTokens ->
  holds (Group defaultTokens) path token ->
  t_type token
    ∈ [Ttypography; Tshadow; Tborder; Tgradient;
       TcubicBezier; Ttransition; Tanimation; Tkeyframes] ->
  let result := fst (transformToFigmaVariables theme options c0) in
  let entry := compositeSkipped (mkFlat path token) in
  entry ∈ skipped (res_report result)
  /\ s_path entry = join "." path
  /\ s_originalType entry = t_type token
  /\ (forall v,
        v ∈ variables (res_requestBody result) -> vc_name v = join "/" path ->
        exists j collection' defaultTokens' path' token',
          collections theme !! j = Some collection'
          /\ tokens collection' !! defaultMode collection' = Some defaultTokens'
          /\ holds (Group defaultTokens') path' token'
          /\ join "/" path' = join "/" path
          /\ t_type token' ∉ SKIP_TYPES)
  /\ (uniqueKeys (Group defaultTokens) ->
      (forall j collection' defaultTokens' path' token',
         collections theme !! j = Some collection' ->
         tokens collection' !! defaultMode collection' = Some defaultTokens' ->
         holds (Group defaultTokens') path' token' ->
         join "/" path' = join "/" path -> j = i /\ path' = path) ->
      forall v, v ∈ variables (res_requestBody result) -> vc_name v <> join "/" path)
  /\ (uniqueKeys (Group defaultTokens) ->
      (forall j collection' defaultTokens' path' token',
         collections theme !! j = Some collection' ->
         tokens collection' !! defaultMode collection' = Some defaultTokens' ->
         holds (Group defaultTokens') path' token' ->
         join "." path' = join "." path -> j = i /\ path' = path) ->
      (forall j collection' modeName modeTokens path' token',
         collections theme !! j = Some collection' ->
         modeName ∈ modes collection' ->
         tokens collection' !! modeName = Some modeTokens ->
         holds (Group modeTokens) path' token' ->
         aliased token' = true ->
         valuePath collection' modeName path' <> join "." path) ->
      filter (fun e => s_path e = join "." path) (skipped (res_report result)) = [entry]).
Proof.
  intros Hi Htokens Hholds Htype result entry.
  assert (forall v,
            v ∈ variables (res_requestBody result) -> vc_name v = join "/" path ->
            exists j collection' defaultTokens' path' token',
              collections theme !! j = Some collection'
              /\ tokens collection' !! defaultMode collection' = Some defaultTokens'
              /\ holds (Group defaultTokens') path' token'
              /\ join "/" path' = join "/" path
              /\ t_type token' ∉ SKIP_TYPES) as Horigin.
  { intros v Hv Hname.
    destruct (variable_origin theme options c0 v Hv)
      as (j & collection' & defaultTokens' & path' & token' & Hj & Htokens' & Hholds'
          & Hname' & _ & Hkind).
    exists j, collection', defaultTokens', path', token'.
    repeat split; try assumption. rewrite <- Hname'. exact Hname. }
  assert (skipped (res_report result)
          = flat_map (fun c => flat_map (leafSkipped options c) (defaultLeaves c))
              (collections theme)) as Hskipped.
  { unfold result. rewrite transform_unfold. simpl.
    destruct (transform_outputs theme options) as (_ & _ & _ & Hskipped).
    exact Hskipped. }
  assert (mkFlat path token ∈ defaultLeaves collection) as Hleaf
    by (apply (defaultLeaves_holds collection defaultTokens _ Htokens); exact Hholds).
  assert (leafSkipped options collection (mkFlat path token) = [entry]) as Hentry.
  { unfold leafSkipped. simpl. rewrite (bool_decide_eq_true_2 _ Htype). reflexivity. }
  split; [|split; [reflexivity|split; [reflexivity|split; [exact Horigin|split]]]].
  - rewrite Hskipped. apply list_elem_of_In, in_flat_map.
    exists collection. split; [apply list_elem_of_In; eapply list_elem_of_lookup_2; exact Hi|].
    apply in_flat_map. exists (mkFlat path token).
    split; [apply list_elem_of_In, Hleaf|]. rewrite Hentry. left. reflexivity.
  - intros Hunique Hsole v Hv Hname.
    destruct (Horigin v Hv Hname)
      as (j & collection' & defaultTokens' & path' & token' & Hj & Htokens' & Hholds'
          & Hpath & Hkind).
    destruct (Hsole j collection' defaultTokens' path' token' Hj Htokens' Hholds' Hpath)
      as [-> ->].
    rewrite Hi in Hj. injection Hj as <-.
    pose proof (eq_trans (eq_sym Htokens) Htokens') as Hsame. injection Hsame as <-.
    rewrite (holds_functional _ _ _ _ Hunique Hholds' Hholds) in Hkind.
    apply Hkind. exact Htype.
  - intros Hunique Hsole Hreferences. rewrite Hskipped.
    rewrite (filter_flat_map_sole _ _ _ i collection Hi).
    + apply list_elem_of_lookup_1 in Hleaf as [k Hk].
      rewrite (filter_flat_map_sole _ _ _ k (mkFlat path token) Hk).
      * rewrite Hentry. rewrite filter_cons_True by reflexivity. reflexivity.
      * intros k' ft Hk' Hne. apply Forall_forall. intros e He Hpath.
        assert (ft ∈ defaultLeaves collection) as Hft
          by (eapply list_elem_of_lookup_2; exact Hk').
        apply (defaultLeaves_holds collection defaultTokens _ Htokens) in Hft.
        apply leafSkipped_origin in He; [|eapply holds_sigil; exact Hft].
        destruct He as [He | (modeName & modeTokens & token' & Hmode & Hmt & Hh & Ha & He)].
        -- rewrite Hpath in He. symmetry in He.
           destruct (Hsole i collection defaultTokens (ft_path ft) (ft_token ft)
                       Hi Htokens Hft He) as [_ Heq].
           apply Hne.
           pose proof (flattenNode_paths_distinct _ Hunique []) as Hdistinct.
           apply (NoDup_lookup _ k' k path Hdistinct).
           ++ unfold defaultLeaves in Hk'. rewrite Htokens in Hk'.
              unfold flattenTokens in Hk'.
              rewrite list_lookup_fmap, Hk'. simpl. rewrite Heq. reflexivity.
           ++ unfold defaultLeaves in Hk. rewrite Htokens in Hk.
              unfold flattenTokens in Hk.
              rewrite list_lookup_fmap, Hk. reflexivity.
        -- rewrite Hpath in He. symmetry in He.
           exact (Hreferences i collection modeName modeTokens (ft_path ft) token'
                    Hi Hmode Hmt Hh Ha He).
    + intros j collection' Hj Hne. apply Forall_forall. intros e He Hpath.
      apply list_elem_of_In, in_flat_map in He as (ft & Hft & He).
      apply list_elem_of_In in Hft, He.
      apply defaultLeaves_tree in Hft as (defaultTokens' & Htokens' & Hft).
      apply leafSkipped_origin in He; [|eapply holds_sigil; exact Hft].
      destruct He as [He | (modeName & modeTokens & token' & Hmode & Hmt & Hh & Ha & He)].
      * rewrite Hpath in He. symmetry in He.
        destruct (Hsole j collection' defaultTokens' (ft_path ft) (ft_token ft)
                    Hj Htokens' Hft He) as [Heq _].
        contradiction.
      * rewrite Hpath in He. symmetry in He.
        exact (Hreferences j collection' modeName modeTokens (ft_path ft) token'
                 Hj Hmode Hmt Hh Ha He).
Qed.

(** C5 at a collection holding one border token: its path is skipped
    once and names no variable. *)
Lemma composite_tokens_skipped_witness :
  let result := fst (transformToFigmaVariables edgeTheme defaultOptions 0) in
  let entry :=
    compositeSkipped (mkFlat ["edge"] (mkToken Tborder (inl "1px solid") None None)) in
  entry ∈ skipped (res_report result)
  /\ (forall v, v ∈ variables (res_requestBody result) -> vc_name v <> "edge")
  /\ filter (fun e => s_path e = "edge") (skipped (res_report result)) = [entry].
Proof.
  destruct (composite_tokens_skipped edgeTheme defaultOptions 0 0 (edgeCollection "web")
              edgeTokens ["edge"] (mkToken Tborder (inl "1px solid") None None)
              eq_refl (edgeCollection_tokens "web") edgeTokens_edge)
    as (Hin & _ & _ & _ & Hnone & Honce).
  - apply (bool_decide_unpack _). vm_compute. exact I.
  - split; [exact Hin|]. split; [apply Hnone | apply Honce].
    + exact edgeTokens_uniqueKeys.
    + intros j collection' defaultTokens' path' token' Hj Htokens' Hholds Hjoin.
      destruct j as [|[|j]]; try discriminate Hj. injection Hj as <-.
      split; [reflexivity|].
      destruct (edgeCollection_holds _ _ _ _ _ Htokens' Hholds) as [_ [->| ->]];
        [reflexivity | discriminate Hjoin].
    + exact edgeTokens_uniqueKeys.
    + intros j collection' defaultTokens' path' token' Hj Htokens' Hholds Hjoin.
      destruct j as [|[|j]]; try discriminate Hj. injection Hj as <-.
      split; [reflexivity|].
      destruct (edgeCollection_holds _ _ _ _ _ Htokens' Hholds) as [_ [->| ->]];
        [reflexivity | discriminate Hjoin].
    + intros j collection' modeName modeTokens path' token' Hj _ Htokens' Hholds _ Hpath.
      destruct j as [|[|j]]; try discriminate Hj. injection Hj as <-.
      destruct (edgeCollection_holds _ _ _ _ _ Htokens' Hholds) as [-> [->| ->]];
        discriminate Hpath.
Defined.

(** C5, counterexample to the claim as stated.  Two collections hold a
    border token under the same path: the report has two Skipped entries
    referencing that path, one per collection. *)
Lemma composite_same_path_skipped_twice :
  ~ (forall theme options c0 i collection defaultTokens path token,
       collections theme !! i = Some collection ->
       tokens collection !! defaultMode collection = Some defaultTokens ->
       holds (Group defaultTokens) path token ->
       t_type token
         ∈ [Ttypography; Tshadow; Tborder; Tgradient;
            TcubicBezier; Ttransition; Tanimation; Tkeyframes] ->
       length (filter (fun e => s_path e = join "." path)
                 (skipped (res_report
                             (fst (transformToFigmaVariables theme options c0)))))
       = 1).
Proof.
  intros Hclaim.
  specialize (Hclaim twinEdgesTheme defaultOptions 0 0 (edgeCollection "web") edgeTokens
                ["edge"] (mkToken Tborder (inl "1px solid") None None)
                eq_refl (edgeCollection_tokens "web") edgeTokens_edge).
  assert (length (filter (fun e => s_path e = join "." ["edge"])
                    (skipped (res_report
                                (fst (transformToFigmaVariables twinEdgesTheme
                                        defaultOptions 0)))))
          = 2) as Htwice by (vm_compute; reflexivity).
  rewrite Htwice in Hclaim.
  enough (2 = 1) by discriminate.
  apply Hclaim. do 2 right. left.
Qed.

(** *** The request body only grows *)














(** *** Values and the variables and modes they belong to *)





(** *** The ids the modes of a collection go by *)




(** *** What one collection emits for a token of a mode *)




(** ** Dimension tokens with a unit other than px *)





